(** * carla_env: a shallow embedding of the Carla Gym environment module

    The Python module [carla_gym/envs/carla_env.py] launches the Carla
    driving simulator as a child process, keeps the process groups it
    started in a module-wide set, and kills them when the interpreter
    exits.  This file embeds the module in Rocq: Python values and
    exceptions, the part of the operating system the module talks to, the
    module body executed at import, [cleanup], [CarlaEnv.__init__] and
    [CarlaEnv.init_server]; the theorems about them come last. *)

From Stdlib Require Import ZArith Lia Ascii String.
From stdpp Require Import base gmap sets list strings pretty.

Set Warnings "-register-all,-clear-no-such-hyp".
Local Open Scope Z_scope.

(** ** Python values and exceptions *)

(** The values that occur in the configuration dictionaries and in
    [scenarios.json]: JSON data.  Floats do not occur in what the module
    computes with and are not represented. *)
Inductive pyval :=
  | VNone
  | VBool (b : bool)
  | VInt (z : Z)
  | VStr (s : string)
  | VList (l : list pyval)
  | VDict (d : gmap string pyval).

(** The exceptions the modelled code can meet.  [ClientError] stands for
    the exceptions of the Carla client library (all subclasses of
    [Exception]); [KeyboardInterrupt] is the one modelled exception that
    derives from [BaseException] only. *)
Inductive exn :=
  | AssertionError
  | NameError (name : string)
  | KeyError (key : string)
  | IndexError
  | TypeError
  | AttributeError
  | OSError
  | FileNotFoundError
  | ProcessLookupError
  | ClientError (msg : string)
  | KeyboardInterrupt.

(** [isinstance(e, Exception)], what [except Exception] tests. *)
Definition is_Exception (e : exn) : bool :=
  match e with
  | KeyboardInterrupt => false
  | _ => true
  end.

Inductive Res (A : Type) :=
  | Ok (a : A)
  | Err (e : exn).
Arguments Ok {A} a.
Arguments Err {A} e.

Definition is_Ok {A} (r : Res A) : bool :=
  match r with Ok _ => true | Err _ => false end.

(** [bool(v)] *)
Definition truthy (v : pyval) : bool :=
  match v with
  | VNone => false
  | VBool b => b
  | VInt z => negb (z =? 0)
  | VStr s => negb (String.eqb s "")
  | VList l => match l with [] => false | _ :: _ => true end
  | VDict d => negb (bool_decide (dom d = (∅ : gset string)))
  end.

(** [d[k]] for a dictionary held in a variable of the module. *)
Definition dict_getitem (d : gmap string pyval) (k : string) : Res pyval :=
  match d !! k with
  | Some v => Ok v
  | None => Err (KeyError k)
  end.

(** [v[k]] with a string key. *)
Definition py_getitem (v : pyval) (k : string) : Res pyval :=
  match v with
  | VDict d => dict_getitem d k
  | _ => Err TypeError
  end.

(** [v[i]] with a non-negative integer literal. *)
Definition py_index (v : pyval) (i : nat) : Res pyval :=
  match v with
  | VList l => match l !! i with Some x => Ok x | None => Err IndexError end
  | VStr s =>
      match String.get i s with
      | Some c => Ok (VStr (String c EmptyString))
      | None => Err IndexError
      end
  | VDict _ => Err (KeyError (pretty (Z.of_nat i)))
  | _ => Err TypeError
  end.

(** ["lit" + v] *)
Definition py_str_add (lit : string) (v : pyval) : Res pyval :=
  match v with
  | VStr s => Ok (VStr (lit +:+ s))
  | _ => Err TypeError
  end.

Fixpoint str_repeat (n : nat) (s : string) : string :=
  match n with
  | O => EmptyString
  | S n' => s +:+ str_repeat n' s
  end.

(** [k * v] for an integer literal [k]: integer product on numbers,
    repetition on sequences, [TypeError] on the rest. *)
Definition py_int_mul (k : Z) (v : pyval) : Res pyval :=
  match v with
  | VInt z => Ok (VInt (k * z))
  | VBool b => Ok (VInt (k * Z.b2z b))
  | VStr s => Ok (VStr (str_repeat (Z.to_nat k) s))
  | VList l => Ok (VList (concat (replicate (Z.to_nat k) l)))
  | VNone | VDict _ => Err TypeError
  end.

(** [s.split(sep)] for a one-character separator: the pieces between the
    separators, never an empty list. *)
Fixpoint str_split (sep : ascii) (s : string) : list string :=
  match s with
  | EmptyString => [EmptyString]
  | String c s' =>
      if Ascii.eqb c sep then EmptyString :: str_split sep s'
      else match str_split sep s' with
           | piece :: rest => String c piece :: rest
           | [] => [String c EmptyString]
           end
  end.

(** [v.split("/")[-1]]: only strings have [split]. *)
Definition py_split_last (v : pyval) : Res string :=
  match v with
  | VStr s => Ok (List.last (str_split "/"%char s) EmptyString)
  | _ => Err AttributeError
  end.

(** [range(v)] as the list of its indices. *)
Definition py_range (v : pyval) : Res (list Z) :=
  match v with
  | VInt n => Ok (Z.of_nat <$> seq 0 (Z.to_nat n))
  | VBool b => Ok (Z.of_nat <$> seq 0 (Z.to_nat (Z.b2z b)))
  | _ => Err TypeError
  end.

(** An element of an argument list handed to [subprocess.Popen] has to be
    a string. *)
Definition py_arg (v : pyval) : Res string :=
  match v with
  | VStr s => Ok s
  | _ => Err TypeError
  end.

(** ["{}".format(p)] for an attribute that holds [None] or an integer. *)
Definition py_format_port (p : option Z) : string :=
  match p with
  | None => "None"
  | Some z => pretty z
  end.

(** ** gym spaces

    [gym.spaces] is a third-party package; its constructors are modelled
    as descriptors that record their arguments.  The bounds are float
    literals with integral values, kept as integers. *)
Inductive dtype := float32.

Inductive Space :=
  | Box (low high : Z) (shape : list pyval) (dt : dtype)
  | Discrete (n : Z)
  | Tuple (spaces : list Space).

(** ** The environment object *)

Record Client := { cl_host : string; cl_port : option Z }.

(** The attributes [__init__] assigns.  [self_planner] is [None] when the
    attribute is never assigned (planner disabled). *)
Record CarlaEnv := {
  self_config : gmap string pyval;
  self_city : string;
  self_planner : option string;
  self_observation_space : Space;
  self__spec_id : string;
  self__seed : pyval;
  self_server_port : option Z;
  self_server_process : option Z;
  self_client : option Client;
  self_num_steps : Z;
  self_total_reward : Z;
  self_prev_measurement : pyval;
  self_prev_image : pyval;
  self_episode_id : pyval;
  self_measurements_file : pyval;
  self_weather : pyval;
  self_scenario : pyval;
  self_start_pos : pyval;
  self_end_pos : pyval;
  self_start_coord : pyval;
  self_end_coord : pyval;
  self_last_obs : pyval
}.

Definition with_server_port (p : option Z) (e : CarlaEnv) : CarlaEnv :=
  {| self_config := self_config e; self_city := self_city e;
     self_planner := self_planner e;
     self_observation_space := self_observation_space e;
     self__spec_id := self__spec_id e; self__seed := self__seed e;
     self_server_port := p;
     self_server_process := self_server_process e;
     self_client := self_client e;
     self_num_steps := self_num_steps e;
     self_total_reward := self_total_reward e;
     self_prev_measurement := self_prev_measurement e;
     self_prev_image := self_prev_image e;
     self_episode_id := self_episode_id e;
     self_measurements_file := self_measurements_file e;
     self_weather := self_weather e; self_scenario := self_scenario e;
     self_start_pos := self_start_pos e; self_end_pos := self_end_pos e;
     self_start_coord := self_start_coord e;
     self_end_coord := self_end_coord e; self_last_obs := self_last_obs e |}.

Definition with_server_process (p : option Z) (e : CarlaEnv) : CarlaEnv :=
  {| self_config := self_config e; self_city := self_city e;
     self_planner := self_planner e;
     self_observation_space := self_observation_space e;
     self__spec_id := self__spec_id e; self__seed := self__seed e;
     self_server_port := self_server_port e;
     self_server_process := p;
     self_client := self_client e;
     self_num_steps := self_num_steps e;
     self_total_reward := self_total_reward e;
     self_prev_measurement := self_prev_measurement e;
     self_prev_image := self_prev_image e;
     self_episode_id := self_episode_id e;
     self_measurements_file := self_measurements_file e;
     self_weather := self_weather e; self_scenario := self_scenario e;
     self_start_pos := self_start_pos e; self_end_pos := self_end_pos e;
     self_start_coord := self_start_coord e;
     self_end_coord := self_end_coord e; self_last_obs := self_last_obs e |}.

Definition with_client (c : option Client) (e : CarlaEnv) : CarlaEnv :=
  {| self_config := self_config e; self_city := self_city e;
     self_planner := self_planner e;
     self_observation_space := self_observation_space e;
     self__spec_id := self__spec_id e; self__seed := self__seed e;
     self_server_port := self_server_port e;
     self_server_process := self_server_process e;
     self_client := c;
     self_num_steps := self_num_steps e;
     self_total_reward := self_total_reward e;
     self_prev_measurement := self_prev_measurement e;
     self_prev_image := self_prev_image e;
     self_episode_id := self_episode_id e;
     self_measurements_file := self_measurements_file e;
     self_weather := self_weather e; self_scenario := self_scenario e;
     self_start_pos := self_start_pos e; self_end_pos := self_end_pos e;
     self_start_coord := self_start_coord e;
     self_end_coord := self_end_coord e; self_last_obs := self_last_obs e |}.

(** ** The host: everything outside the module

    The module reads the process environment and the file system, imports
    the Carla client package, loads [scenarios.json], draws random
    numbers, starts processes and talks to the simulator.  What these
    answer is not decided by the module; a [Host] fixes the answers. *)

(** The command codes exported by [carla.planner.planner], a module of the
    Carla client package that is not part of this module. *)
Record PlannerConsts := {
  REACH_GOAL : Z;
  GO_STRAIGHT : Z;
  TURN_RIGHT : Z;
  TURN_LEFT : Z;
  LANE_FOLLOW : Z
}.

(** What one pass through the body of the [try] meets: the constructor
    [CarlaClient(...)] raises, [connect()] raises, or [connect()] returns
    a value. *)
Inductive ConnOutcome :=
  | CtorRaises (e : exn)
  | ConnectRaises (e : exn)
  | ConnectReturns (v : pyval).

Record Host := {
  h_environ : gmap string string;      (* os.environ *)
  h_home : string;                     (* what "~" expands to *)
  h_paths : gset string;               (* the paths that exist *)
  h_planner_consts : PlannerConsts;
  h_scenarios_json : Res pyval;        (* json.load(open(.../scenarios.json)) *)
  h_planner : string → option exn;     (* does Planner(city) raise? *)
  h_procs : gmap Z Z;                  (* the process table at import *)
  h_entropy : nat → Z;                 (* the random source, draw by draw *)
  h_popen : nat → Res Z;               (* the n-th Popen: the child's pid *)
  h_client : nat → ConnOutcome         (* the n-th connection attempt *)
}.

Inductive ExitHook := HookCleanup.

(** The names the module body binds and never rebinds. *)
Record Globals := {
  SERVER_BINARY : string;
  COMMANDS_ENUM : gmap Z string;
  COMMAND_ORDINAL : gmap string Z;
  scenario_config : pyval;
  city : pyval;
  weathers : list pyval;
  ENV_CONFIG : gmap string pyval;
  atexit_hooks : list ExitHook;
  (* names bound in the module's namespace by code outside the module
     (setattr on the module object); the module body binds none *)
  injected : gmap string pyval
}.

(** The top-level names the module body binds, in source order: its
    imports, its assignments, [cleanup] and the class. *)
Definition module_names : list string :=
  ["atexit"; "os"; "random"; "signal"; "subprocess"; "time"; "traceback";
   "json"; "np"; "gym"; "Box"; "Discrete"; "Tuple";
   "SERVER_BINARY"; "CarlaClient"; "Camera"; "CarlaSettings"; "Planner";
   "REACH_GOAL"; "GO_STRAIGHT"; "TURN_RIGHT"; "TURN_LEFT"; "LANE_FOLLOW";
   "COMMANDS_ENUM"; "COMMAND_ORDINAL"; "__location__"; "scenario_config";
   "city"; "weathers"; "ENV_CONFIG"; "live_carla_processes"; "cleanup";
   "CarlaEnv"]%string.

Inductive signal := SIGKILL.
Inductive stdout_target := Inherited | DevNull.

(** What the module does to the outside, and its writes to the module-wide
    registry, in program order.  A [Popen] call is logged with what it
    gave: the pid of the child, or the exception. *)
Inductive Event :=
  | EvPrintKilling (pgids : gset Z)
  | EvPrintInit
  | EvPrintConnErr (e : exn) (i : Z)
  | EvPlanner (city_name : string)
  | EvPopen (argv : list string) (setsid : bool) (out : stdout_target)
            (result : Res Z)
  | EvRegistryAdd (pgid : Z)
  | EvKillpg (pgid : Z) (sig : signal)
  | EvCarlaClient (host : string) (port : option Z)
  | EvConnect
  | EvSleep (secs : Z).

Record World := {
  w_host : Host;
  w_glob : Globals;
  live_carla_processes : gset Z;
  w_heap : list CarlaEnv;          (* the environment objects, by reference *)
  w_procs : gmap Z Z;              (* process table: pid to process group *)
  w_nrand : nat;                   (* random draws so far *)
  w_nspawn : nat;                  (* Popen calls so far *)
  w_nconn : nat;                   (* connection attempts so far *)
  w_trace : list Event
}.

Definition with_live (s : gset Z) (w : World) : World :=
  {| w_host := w_host w; w_glob := w_glob w; live_carla_processes := s;
     w_heap := w_heap w; w_procs := w_procs w; w_nrand := w_nrand w;
     w_nspawn := w_nspawn w; w_nconn := w_nconn w; w_trace := w_trace w |}.

Definition with_heap (h : list CarlaEnv) (w : World) : World :=
  {| w_host := w_host w; w_glob := w_glob w;
     live_carla_processes := live_carla_processes w;
     w_heap := h; w_procs := w_procs w; w_nrand := w_nrand w;
     w_nspawn := w_nspawn w; w_nconn := w_nconn w; w_trace := w_trace w |}.

Definition with_procs (p : gmap Z Z) (w : World) : World :=
  {| w_host := w_host w; w_glob := w_glob w;
     live_carla_processes := live_carla_processes w;
     w_heap := w_heap w; w_procs := p; w_nrand := w_nrand w;
     w_nspawn := w_nspawn w; w_nconn := w_nconn w; w_trace := w_trace w |}.

Definition with_nrand (n : nat) (w : World) : World :=
  {| w_host := w_host w; w_glob := w_glob w;
     live_carla_processes := live_carla_processes w;
     w_heap := w_heap w; w_procs := w_procs w; w_nrand := n;
     w_nspawn := w_nspawn w; w_nconn := w_nconn w; w_trace := w_trace w |}.

Definition with_nspawn (n : nat) (w : World) : World :=
  {| w_host := w_host w; w_glob := w_glob w;
     live_carla_processes := live_carla_processes w;
     w_heap := w_heap w; w_procs := w_procs w; w_nrand := w_nrand w;
     w_nspawn := n; w_nconn := w_nconn w; w_trace := w_trace w |}.

Definition with_nconn (n : nat) (w : World) : World :=
  {| w_host := w_host w; w_glob := w_glob w;
     live_carla_processes := live_carla_processes w;
     w_heap := w_heap w; w_procs := w_procs w; w_nrand := w_nrand w;
     w_nspawn := w_nspawn w; w_nconn := n; w_trace := w_trace w |}.

Definition with_trace (t : list Event) (w : World) : World :=
  {| w_host := w_host w; w_glob := w_glob w;
     live_carla_processes := live_carla_processes w;
     w_heap := w_heap w; w_procs := w_procs w; w_nrand := w_nrand w;
     w_nspawn := w_nspawn w; w_nconn := w_nconn w; w_trace := t |}.

Definition with_glob (g : Globals) (w : World) : World :=
  {| w_host := w_host w; w_glob := g;
     live_carla_processes := live_carla_processes w;
     w_heap := w_heap w; w_procs := w_procs w; w_nrand := w_nrand w;
     w_nspawn := w_nspawn w; w_nconn := w_nconn w; w_trace := w_trace w |}.

(** ** A state and exception monad

    A computation runs in a world; it ends with a value or with a raised
    exception, and in both cases leaves a world behind. *)
Definition M (A : Type) : Type := World → Res A * World.

Definition ret {A} (a : A) : M A := λ w, (Ok a, w).

Definition raise {A} (e : exn) : M A := λ w, (Err e, w).

Definition bind {A B} (c : M A) (k : A → M B) : M B :=
  λ w, match c w with
       | (Ok a, w') => k a w'
       | (Err e, w') => (Err e, w')
       end.

Notation "'let*' x ':=' c 'in' k" := (bind c (λ x, k))
  (at level 10, x name, c at level 100, k at level 200).
Notation "c ';;' k" := (bind c (λ _, k))
  (at level 100, k at level 200, right associativity).

Definition lift {A} (r : Res A) : M A := λ w, (r, w).

Definition emit (ev : Event) : M unit :=
  λ w, (Ok tt, with_trace (w_trace w ++ [ev]) w).

(** [try: body except Exception as e: handler e] *)
Definition try_except {A} (body : M A) (handler : exn → M A) : M A :=
  λ w, match body w with
       | (Ok a, w') => (Ok a, w')
       | (Err e, w') =>
           if is_Exception e then handler e w' else (Err e, w')
       end.

(** [for x in xs: body x] for a body without [break] or [return]. *)
Fixpoint for_each {A} (xs : list A) (body : A → M unit) : M unit :=
  match xs with
  | [] => ret tt
  | x :: rest => body x ;; for_each rest body
  end.

(** *** Primitives of the standard library *)

(** [random.randint(a, b)]: an integer of [a..b], both ends included. *)
Definition randint (a b : Z) : M Z :=
  λ w, (Ok (a + h_entropy (w_host w) (w_nrand w) `mod` (b - a + 1)),
        with_nrand (S (w_nrand w)) w).

(** [subprocess.Popen(argv, preexec_fn=os.setsid, stdout=out)]: the child
    calls [setsid] before it executes the program, so it leads a new
    process group whose id is its pid.  Returns the child's pid. *)
Definition Popen_setsid (argv : list string) (out : stdout_target) : M Z :=
  λ w, let result := h_popen (w_host w) (w_nspawn w) in
       let w1 := with_nspawn (S (w_nspawn w))
                   (with_trace (w_trace w ++ [EvPopen argv true out result]) w) in
       match result with
       | Ok pid => (Ok pid, with_procs (<[pid := pid]> (w_procs w1)) w1)
       | Err e => (Err e, w1)
       end.

(** [os.getpgid(pid)] *)
Definition getpgid (pid : Z) : M Z :=
  λ w, match w_procs w !! pid with
       | Some pgid => (Ok pgid, w)
       | None => (Err ProcessLookupError, w)
       end.

(** A process group exists as long as the table holds one of its members. *)
Definition group_exists (w : World) (pgid : Z) : bool :=
  bool_decide (pgid ∈ (map_img (w_procs w) : gset Z)).

(** [os.killpg(pgid, sig)]: the signal is delivered to an existing group;
    a missing group is an error.  The signalled processes stay in the
    table until they are reaped, which this module never does. *)
Definition killpg (pgid : Z) (sig : signal) : M unit :=
  λ w, if group_exists w pgid then emit (EvKillpg pgid sig) w
       else (Err ProcessLookupError, w).

(** [time.sleep(secs)] *)
Definition sleep (secs : Z) : M unit := emit (EvSleep secs).

(** A global name that is not among [module_names]: found only when code
    outside the module has bound it in the module's namespace (no builtin
    has such a name). *)
Definition lookup_global (name : string) : M pyval :=
  λ w, match injected (w_glob w) !! name with
       | Some v => (Ok v, w)
       | None => (Err (NameError name), w)
       end.

(** *** Objects *)

Definition alloc (e : CarlaEnv) : M nat :=
  λ w, (Ok (length (w_heap w)), with_heap (w_heap w ++ [e]) w).

Definition get_attr {A} (self : nat) (attr : CarlaEnv → A) : M A :=
  λ w, match w_heap w !! self with
       | Some e => (Ok (attr e), w)
       | None => (Err AttributeError, w)
       end.

Definition set_attr (self : nat) (upd : CarlaEnv → CarlaEnv) : M unit :=
  λ w, match w_heap w !! self with
       | Some e => (Ok tt, with_heap (<[self := upd e]> (w_heap w)) w)
       | None => (Err AttributeError, w)
       end.

Definition globals : M Globals := λ w, (Ok (w_glob w), w).

Definition read_live : M (gset Z) := λ w, (Ok (live_carla_processes w), w).

(** [live_carla_processes.add(pgid)] *)
Definition live_add (pgid : Z) : M unit :=
  (λ w, (Ok tt, with_live ({[pgid]} ∪ live_carla_processes w) w)) ;;
  emit (EvRegistryAdd pgid).

(** ** The module body: what [import carla_env] executes *)

Definition rbind {A B} (r : Res A) (k : A → Res B) : Res B :=
  match r with
  | Ok a => k a
  | Err e => Err e
  end.

Notation "'let?' x ':=' r 'in' k" := (rbind r (λ x, k))
  (at level 10, x name, r at level 100, k at level 200).

(** [assert b] *)
Definition py_assert (b : bool) : Res unit :=
  if b then Ok tt else Err AssertionError.

(** [os.path.expanduser(p)] for a path that starts with ["~/"]. *)
Definition expanduser (h : Host) (p : string) : string :=
  match p with
  | String "~"%char rest => h_home h +:+ rest
  | _ => p
  end.

(** A dictionary display [{k1: v1, k2: v2, ...}]: the items are stored
    from left to right, a later item replacing an earlier one with an
    equal key. *)
Definition dict_display `{Countable K} {V} (items : list (K * V)) : gmap K V :=
  foldl (λ d kv, <[kv.1 := kv.2]> d) ∅ items.

Definition commands_enum_display (pc : PlannerConsts) : gmap Z string :=
  dict_display
    [(REACH_GOAL pc, "REACH_GOAL"); (GO_STRAIGHT pc, "GO_STRAIGHT");
     (TURN_RIGHT pc, "TURN_RIGHT"); (TURN_LEFT pc, "TURN_LEFT");
     (LANE_FOLLOW pc, "LANE_FOLLOW")]%string.

Definition command_ordinal_display : gmap string Z :=
  dict_display
    [("REACH_GOAL", 0); ("GO_STRAIGHT", 1); ("TURN_RIGHT", 2);
     ("TURN_LEFT", 3); ("LANE_FOLLOW", 4)]%string.

Definition env_config_display (server_map lane_keep : pyval)
  : gmap string pyval :=
  dict_display
    [("enable_planner", VBool true);
     ("use_depth_camera", VBool false);
     ("discrete_actions", VBool true);
     ("server_map", server_map);
     ("scenarios", VList [lane_keep]);
     ("framestack", VInt 2);
     ("early_terminate_on_collision", VBool true);
     ("verbose", VBool false);
     ("render_x_res", VInt 800);
     ("render_y_res", VInt 600);
     ("x_res", VInt 80);
     ("y_res", VInt 80);
     ("seed", VInt 1)]%string.

(** [d[k] = v] *)
Definition py_setitem (d : pyval) (k : string) (v : pyval) : Res pyval :=
  match d with
  | VDict m => Ok (VDict (<[k := v]> m))
  | _ => Err TypeError
  end.

(** The path the module takes for the simulator launcher. *)
Definition server_binary_path (h : Host) : string :=
  default (expanduser h "~/software/CARLA_0.8.2/CarlaUE4.sh")
          (h_environ h !! "CARLA_SERVER"%string).

(** The module body, statement by statement.  A failing statement ends the
    import with its exception and leaves no module behind. *)
Definition import_module (h : Host) : Res World :=
  let server_binary := server_binary_path h in
  let? _ := py_assert (bool_decide (server_binary ∈ h_paths h)) in
  let pc := h_planner_consts h in
  let commands_enum := commands_enum_display pc in
  let command_ordinal := command_ordinal_display in
  let? scenario_config0 := h_scenarios_json h in
  let? cities := py_getitem scenario_config0 "city" in
  let? city_v := py_index cities 1 in
  let? weather := py_getitem scenario_config0 "Weather" in
  let? wet_noon := py_getitem weather "WetNoon" in
  let? weather' := py_getitem scenario_config0 "Weather" in
  let? clear_sunset := py_getitem weather' "ClearSunset" in
  let weathers_v := [wet_noon; clear_sunset] in
  let? scenario_config1 :=
    py_setitem scenario_config0 "Weather_distribution" (VList weathers_v) in
  let? server_map := py_str_add "/Game/Maps/" city_v in
  let? lane_keep := py_getitem scenario_config1 "Lane_Keep_Town2" in
  let env_config := env_config_display server_map lane_keep in
  Ok {| w_host := h;
        w_glob := {| SERVER_BINARY := server_binary;
                     COMMANDS_ENUM := commands_enum;
                     COMMAND_ORDINAL := command_ordinal;
                     scenario_config := scenario_config1;
                     city := city_v;
                     weathers := weathers_v;
                     ENV_CONFIG := env_config;
                     atexit_hooks := [HookCleanup];
                     injected := ∅ |};
        live_carla_processes := ∅;
        w_heap := [];
        w_procs := h_procs h;
        w_nrand := 0;
        w_nspawn := 0;
        w_nconn := 0;
        w_trace := [] |}.

(** ** [cleanup] and the exit hook *)

Definition cleanup : M unit :=
  let* shown := read_live in
  emit (EvPrintKilling shown) ;;
  let* live := read_live in
  for_each (elements live) (λ pgid, killpg pgid SIGKILL).

Definition run_hook (hk : ExitHook) : M unit :=
  match hk with
  | HookCleanup => cleanup
  end.

(** ** [CarlaEnv.__init__] *)

(** [Planner(city)], the constructor of the Carla client package. *)
Definition Planner (city_name : string) : M string :=
  emit (EvPlanner city_name) ;;
  λ w, match h_planner (w_host w) city_name with
       | Some e => (Err e, w)
       | None => (Ok city_name, w)
       end.

(** The body of [__init__]: the values of the attributes in the order the
    source assigns them.  The object is built when the body has run to
    its end; an exception on the way leaves no object to refer to. *)
Definition __init__ (config : gmap string pyval) : M CarlaEnv :=
  let* server_map := lift (dict_getitem config "server_map") in
  let* city_name := lift (py_split_last server_map) in
  let* enable_planner := lift (dict_getitem config "enable_planner") in
  let* planner :=
    (if truthy enable_planner
     then let* p := Planner city_name in ret (Some p)
     else ret None) in
  let* use_depth_camera := lift (dict_getitem config "use_depth_camera") in
  let* image_space :=
    (if truthy use_depth_camera
     then
       let* y_res := lift (dict_getitem config "y_res") in
       let* x_res := lift (dict_getitem config "x_res") in
       let* framestack := lift (dict_getitem config "framestack") in
       let* channels := lift (py_int_mul 1 framestack) in
       ret (Box (-1) 1 [y_res; x_res; channels] float32)
     else
       let* y_res := lift (dict_getitem config "y_res") in
       let* x_res := lift (dict_getitem config "x_res") in
       let* framestack := lift (dict_getitem config "framestack") in
       let* channels := lift (py_int_mul 3 framestack) in
       ret (Box 0 255 [y_res; x_res; channels] float32)) in
  let* glob := globals in
  let observation_space :=
    Tuple [image_space;
           Discrete (Z.of_nat (size (COMMANDS_ENUM glob)));
           Box (-128) 128 [VInt 2] float32] in
  let* seed := lift (dict_getitem (ENV_CONFIG glob) "seed") in
  ret {| self_config := config;
         self_city := city_name;
         self_planner := planner;
         self_observation_space := observation_space;
         self__spec_id := "Carla-v0";
         self__seed := seed;
         self_server_port := None;
         self_server_process := None;
         self_client := None;
         self_num_steps := 0;
         self_total_reward := 0;
         self_prev_measurement := VNone;
         self_prev_image := VNone;
         self_episode_id := VNone;
         self_measurements_file := VNone;
         self_weather := VNone;
         self_scenario := VNone;
         self_start_pos := VNone;
         self_end_pos := VNone;
         self_start_coord := VNone;
         self_end_coord := VNone;
         self_last_obs := VNone |}.

(** [CarlaEnv(config)], and [CarlaEnv()] with the default argument
    [ENV_CONFIG]: a reference to the new object. *)
Definition CarlaEnv_call (config : option (gmap string pyval)) : M nat :=
  let* glob := globals in
  let* e := __init__ (default (ENV_CONFIG glob) config) in
  alloc e.

(** ** [CarlaEnv.init_server] *)

Fixpoint py_args (vs : list pyval) : Res (list string) :=
  match vs with
  | [] => Ok []
  | v :: rest =>
      let? s := py_arg v in
      let? ss := py_args rest in
      Ok (s :: ss)
  end.

(** [subprocess.Popen(args, preexec_fn=os.setsid, stdout=open(os.devnull, "w"))]
    on a list of Python values: a value that is no string is refused before
    anything is started. *)
Definition Popen (args : list pyval) : M Z :=
  let* argv := lift (py_args args) in
  Popen_setsid argv DevNull.

(** [CarlaClient(host, port)] *)
Definition CarlaClient (host : string) (port : option Z) : M Client :=
  emit (EvCarlaClient host port) ;;
  λ w, match h_client (w_host w) (w_nconn w) with
       | CtorRaises e => (Err e, with_nconn (S (w_nconn w)) w)
       | _ => (Ok {| cl_host := host; cl_port := port |}, w)
       end.

(** [client.connect()] *)
Definition client_connect (c : Client) : M pyval :=
  emit EvConnect ;;
  λ w, match h_client (w_host w) (w_nconn w) with
       | ConnectReturns v => (Ok v, with_nconn (S (w_nconn w)) w)
       | ConnectRaises e | CtorRaises e =>
           (Err e, with_nconn (S (w_nconn w)) w)
       end.

(** The [for] loop of [init_server] over the indices still to try.  The
    body of the [try] leaves the function with the value of [connect()];
    the handler lets the loop go on; after the last index the function
    ends without a [return], that is, with [None]. *)
Fixpoint connect_loop (self : nat) (indices : list Z) : M pyval :=
  match indices with
  | [] => ret VNone
  | i :: rest =>
      let* returned :=
        try_except
          (let* port := get_attr self self_server_port in
           let* c := CarlaClient "localhost" port in
           set_attr self (with_client (Some c)) ;;
           let* v := client_connect c in
           ret (Some v))
          (λ e, emit (EvPrintConnErr e i) ;;
                sleep 2 ;;
                ret None) in
      match returned with
      | Some v => ret v
      | None => connect_loop self rest
      end
  end.

Definition init_server (self : nat) : M pyval :=
  emit EvPrintInit ;;
  let* port := randint 10000 60000 in
  set_attr self (with_server_port (Some port)) ;;
  let* glob := globals in
  let* config := get_attr self self_config in
  let* server_map := lift (dict_getitem config "server_map") in
  let* server_port := get_attr self self_server_port in
  let* pid :=
    Popen [VStr (SERVER_BINARY glob); server_map;
           VStr "-windowed"; VStr "-ResX=400"; VStr "-ResY=300";
           VStr "-carla-server";
           VStr ("-carla-world-port=" +:+ py_format_port server_port)] in
  set_attr self (with_server_process (Some pid)) ;;
  let* process := get_attr self self_server_process in
  let* pgid := getpgid (default 0 process) in
  live_add pgid ;;
  let* retries := lookup_global "RETRIES_ON_ERROR" in
  let* indices := lift (py_range retries) in
  connect_loop self indices.

(** ** Programs over the module

    A client of the module constructs environments, calls [init_server]
    on them and, at interpreter exit, has the exit hooks run. *)
Inductive Op :=
  | CallCarlaEnv (config : option (gmap string pyval))
  | CallInitServer (self : nat)
  | CallCleanup
  | RunExitHooks.

Definition run_exit_hooks : M unit :=
  let* glob := globals in
  for_each (atexit_hooks glob) run_hook.

Definition run_op (o : Op) (w : World) : World :=
  match o with
  | CallCarlaEnv config => (CarlaEnv_call config w).2
  | CallInitServer self => (init_server self w).2
  | CallCleanup => (cleanup w).2
  | RunExitHooks => (run_exit_hooks w).2
  end.

Definition run_ops (ops : list Op) (w : World) : World :=
  foldl (λ w' o, run_op o w') w ops.

(** The events a computation adds to a trace that was [before]. *)
Definition new_events (before after : World) : list Event :=
  drop (length (w_trace before)) (w_trace after).

Definition is_popen (ev : Event) : bool :=
  match ev with EvPopen _ _ _ _ => true | _ => false end.

Definition is_client_event (ev : Event) : bool :=
  match ev with EvCarlaClient _ _ | EvConnect => true | _ => false end.

Definition is_ctor_event (ev : Event) : bool :=
  match ev with EvCarlaClient _ _ => true | _ => false end.

Definition is_sleep (ev : Event) : bool :=
  match ev with EvSleep _ => true | _ => false end.

Definition is_kill (ev : Event) : bool :=
  match ev with EvKillpg _ _ => true | _ => false end.

(** ** A concrete host for examples *)

Module Demo.

(** The command codes of Carla 0.8's planner. *)
Definition consts : PlannerConsts :=
  {| REACH_GOAL := 0; GO_STRAIGHT := 5; TURN_RIGHT := 4;
     TURN_LEFT := 3; LANE_FOLLOW := 2 |}.

Definition scenarios : pyval :=
  VDict (dict_display
    [("city", VList [VStr "Town01"; VStr "Town02"]);
     ("Weather", VDict (dict_display
        [("WetNoon", VList [VInt 3]); ("ClearSunset", VList [VInt 8])]));
     ("Lane_Keep_Town2", VDict (dict_display
        [("city", VStr "Town02"); ("max_steps", VInt 2000)]))]%string).

(** A host where the launcher exists at the path given in the
    environment, the simulator starts as process 4242, and the client
    fails with [fails] for every attempt before attempt [ok_at]. *)
Definition host (ok_at : nat) : Host :=
  {| h_environ := {[ "CARLA_SERVER"%string := "/opt/carla/CarlaUE4.sh"%string ]};
     h_home := "/home/user";
     h_paths := {[ "/opt/carla/CarlaUE4.sh"%string ]};
     h_planner_consts := consts;
     h_scenarios_json := Ok scenarios;
     h_planner := λ _, None;
     h_procs := ∅;
     h_entropy := λ n, 123456 + Z.of_nat n;
     h_popen := λ n, Ok (4242 + Z.of_nat n);
     h_client := λ n, if (n <? ok_at)%nat
                      then ConnectRaises (ClientError "refused")
                      else ConnectReturns VNone |}.

(** The same host without the launcher. *)
Definition host_no_binary : Host :=
  {| h_environ := ∅;
     h_home := "/home/user";
     h_paths := ∅;
     h_planner_consts := consts;
     h_scenarios_json := Ok scenarios;
     h_planner := λ _, None;
     h_procs := ∅;
     h_entropy := λ n, 0;
     h_popen := λ n, Ok 4242;
     h_client := λ n, ConnectReturns VNone |}.

(** The world a given world becomes when outside code binds [name] in
    the module's namespace. *)
Definition inject (name : string) (v : pyval) (w : World) : World :=
  with_glob
    {| SERVER_BINARY := SERVER_BINARY (w_glob w);
       COMMANDS_ENUM := COMMANDS_ENUM (w_glob w);
       COMMAND_ORDINAL := COMMAND_ORDINAL (w_glob w);
       scenario_config := scenario_config (w_glob w);
       city := city (w_glob w);
       weathers := weathers (w_glob w);
       ENV_CONFIG := ENV_CONFIG (w_glob w);
       atexit_hooks := atexit_hooks (w_glob w);
       injected := <[name := v]> (injected (w_glob w)) |} w.

(** A world without a module, for the case that the import fails. *)
Definition blank (h : Host) : World :=
  {| w_host := h;
     w_glob := {| SERVER_BINARY := ""; COMMANDS_ENUM := ∅;
                  COMMAND_ORDINAL := ∅; scenario_config := VNone;
                  city := VNone; weathers := []; ENV_CONFIG := ∅;
                  atexit_hooks := []; injected := ∅ |};
     live_carla_processes := ∅; w_heap := []; w_procs := ∅;
     w_nrand := 0; w_nspawn := 0; w_nconn := 0; w_trace := [] |}.

(** The world after [import carla_env]. *)
Definition imported (ok_at : nat) : World :=
  match import_module (host ok_at) with
  | Ok w => w
  | Err _ => blank (host ok_at)
  end.

(** The world after [import carla_env; env = CarlaEnv()]. *)
Definition world (ok_at : nat) : World :=
  run_op (CallCarlaEnv None) (imported ok_at).

(** The same, when outside code has set [RETRIES_ON_ERROR = n]. *)
Definition world_retries (ok_at : nat) (n : Z) : World :=
  inject "RETRIES_ON_ERROR" (VInt n) (world ok_at).

End Demo.

(** * Vocabulary of the statements *)

(** The process groups a list of events adds to the registry. *)
Definition registry_adds (evs : list Event) : gset Z :=
  foldr (λ ev acc, match ev with
                   | EvRegistryAdd pgid => {[pgid]} ∪ acc
                   | _ => acc
                   end) ∅ evs.

(** [frame ok w w']: from [w] to [w'] the host and the module's names are
    kept, the trace grows by events that satisfy [ok], and the registry
    grows by exactly the logged additions. *)
Definition frame (ok : Event → Prop) (w w' : World) : Prop :=
  w_host w' = w_host w ∧ w_glob w' = w_glob w ∧
  ∃ evs, w_trace w' = w_trace w ++ evs ∧ Forall ok evs ∧
         live_carla_processes w' = registry_adds evs ∪ live_carla_processes w.

Definition respects {A} (ok : Event → Prop) (c : M A) : Prop :=
  ∀ w, frame ok w (c w).2.

(** The port [init_server] draws in world [w]. *)
Definition drawn_port (w : World) : Z :=
  10000 + h_entropy (w_host w) (w_nrand w) `mod` (60000 - 10000 + 1).

(** The command line for a map and a port. *)
Definition spawn_argv (g : Globals) (server_map : string) (port : Z)
  : list string :=
  [SERVER_BINARY g; server_map; "-windowed"; "-ResX=400"; "-ResY=300";
   "-carla-server"; "-carla-world-port=" +:+ pretty port]%string.

(** The world when [self.server_port] has been assigned. *)
Definition after_port (self : nat) (e : CarlaEnv) (w : World) : World :=
  with_heap (<[self := with_server_port (Some (drawn_port w)) e]> (w_heap w))
    (with_nrand (S (w_nrand w)) (with_trace (w_trace w ++ [EvPrintInit]) w)).

(** The world when [Popen] has been called, with the result [r]. *)
Definition after_popen (self : nat) (e : CarlaEnv) (server_map : string)
    (r : Res Z) (w : World) : World :=
  let w1 := after_port self e w in
  with_nspawn (S (w_nspawn w))
    (with_trace
       (w_trace w1 ++
        [EvPopen (spawn_argv (w_glob w) server_map (drawn_port w))
                 true DevNull r]) w1).

(** The world when the new process group has been put in the registry. *)
Definition after_spawn (self : nat) (e : CarlaEnv) (server_map : string)
    (pid : Z) (w : World) : World :=
  let w2 := after_popen self e server_map (Ok pid) w in
  let e2 := with_server_process (Some pid)
              (with_server_port (Some (drawn_port w)) e) in
  with_trace (w_trace w2 ++ [EvRegistryAdd pid])
    (with_live ({[pid]} ∪ live_carla_processes w)
       (with_heap (<[self := e2]> (w_heap w))
          (with_procs (<[pid := pid]> (w_procs w)) w2))).

(** The last three statements of [init_server]. *)
Definition connect_phase (self : nat) : M pyval :=
  let* retries := lookup_global "RETRIES_ON_ERROR" in
  let* indices := lift (py_range retries) in
  connect_loop self indices.

Definition log (evs : list Event) (w : World) : World :=
  with_trace (w_trace w ++ evs) w.

(** The world when the body of the [try] has called the constructor. *)
Definition ctor_called (port : option Z) (w : World) : World :=
  log [EvCarlaClient "localhost" port] w.

(** The world when the body of the [try] has assigned [self.client] and
    called [connect()]. *)
Definition connect_called (self : nat) (e : CarlaEnv) (w : World) : World :=
  let port := self_server_port e in
  let c := {| cl_host := "localhost"; cl_port := port |} in
  with_nconn (S (w_nconn w))
    (log [EvConnect]
       (with_heap (<[self := with_client (Some c) e]> (w_heap w))
          (ctor_called port w))).

(** The world when the handler has run for the exception [ex]. *)
Definition handled (ex : exn) (i : Z) (w : World) : World :=
  log [EvSleep 2] (log [EvPrintConnErr ex i] w).

(** An outcome that sends the loop into its handler. *)
Definition caught (o : ConnOutcome) : bool :=
  match o with
  | CtorRaises ex | ConnectRaises ex => is_Exception ex
  | ConnectReturns _ => false
  end.

Definition count_ev (p : Event → bool) (evs : list Event) : nat :=
  length (List.filter p evs).

(** What every pass keeps: the object is there and its port is the same. *)
Definition has_port (self : nat) (port : option Z) (w : World) : Prop :=
  ∃ e, w_heap w !! self = Some e ∧ self_server_port e = port.

(** The loop touches neither the registry nor the process table and
    starts nothing. *)
Definition loop_event (ev : Event) : Prop :=
  match ev with
  | EvCarlaClient _ _ | EvConnect | EvPrintConnErr _ _ => True
  | EvSleep secs => secs = 2
  | _ => False
  end.

(** The three ways [init_server] can go: it fails before it starts
    anything; [Popen] fails; or the simulator is started and registered,
    and the connection phase runs. *)
Inductive init_server_outcome (self : nat) (w : World) : Prop :=
  | NothingStarted :
      new_events w (init_server self w).2 = [EvPrintInit] →
      is_Ok (init_server self w).1 = false →
      live_carla_processes (init_server self w).2 = live_carla_processes w →
      init_server_outcome self w
  | PopenFailed e server_map ex :
      w_heap w !! self = Some e →
      self_config e !! "server_map"%string = Some (VStr server_map) →
      new_events w (init_server self w).2 =
        [EvPrintInit;
         EvPopen (spawn_argv (w_glob w) server_map (drawn_port w))
                 true DevNull (Err ex)] →
      (init_server self w).1 = Err ex →
      live_carla_processes (init_server self w).2 = live_carla_processes w →
      init_server_outcome self w
  | Spawned e server_map pid evs :
      w_heap w !! self = Some e →
      self_config e !! "server_map"%string = Some (VStr server_map) →
      h_popen (w_host w) (w_nspawn w) = Ok pid →
      init_server self w =
        connect_phase self (after_spawn self e server_map pid w) →
      new_events w (init_server self w).2 =
        [EvPrintInit;
         EvPopen (spawn_argv (w_glob w) server_map (drawn_port w))
                 true DevNull (Ok pid);
         EvRegistryAdd pid] ++ evs →
      Forall loop_event evs →
      live_carla_processes (init_server self w).2
        = {[pid]} ∪ live_carla_processes w →
      init_server_outcome self w.

(** The events the module produces: a [Popen] is always the launcher's
    command line, in a new session, with its output discarded. *)
Definition module_event (g : Globals) (ev : Event) : Prop :=
  match ev with
  | EvPopen argv setsid out _ =>
      setsid = true ∧ out = DevNull ∧
      ∃ server_map port,
        10000 ≤ port ≤ 60000 ∧ argv = spawn_argv g server_map port
  | _ => True
  end.

Module CleanupDemo.

(** One simulator was started and is still running. *)
Definition running : World :=
  run_op (CallInitServer 0%nat) (Demo.world 0).

(** The simulator has exited and has been reaped: its process group is
    gone, its id is still in the registry. *)
Definition exited : World := with_procs ∅ running.

End CleanupDemo.

(** [self.config["server_map"]] of the object [self] refers to. *)
Definition server_map_of (self : nat) (w : World) : option pyval :=
  match w_heap w !! self with
  | Some e => self_config e !! "server_map"%string
  | None => None
  end.

(** [RETRIES_ON_ERROR] as the module's namespace has it. *)
Definition retries_bound (w : World) : option pyval :=
  injected (w_glob w) !! "RETRIES_ON_ERROR"%string.

(** The image space [__init__] builds for a depth-camera flag. *)
Definition image_box (depth : bool) (y_res x_res : pyval) (framestack : Z)
  : Space :=
  if depth then Box (-1) 1 [y_res; x_res; VInt (1 * framestack)] float32
  else Box 0 255 [y_res; x_res; VInt (3 * framestack)] float32.

(** Events of the operations that start nothing. *)
Definition quiet_event (ev : Event) : Prop :=
  match ev with
  | EvPlanner _ | EvPrintKilling _ | EvKillpg _ _ => True
  | _ => False
  end.

(** Two results of [__init__] agree on the seed: both are environments
    with the same [_seed], or both are the same exception. *)
Definition same_seed (r1 r2 : Res CarlaEnv * World) : Prop :=
  match r1.1, r2.1 with
  | Ok e1, Ok e2 => self__seed e1 = self__seed e2
  | Err x1, Err x2 => x1 = x2
  | _, _ => False
  end.

Definition planner_codes (pc : PlannerConsts) : list Z :=
  [REACH_GOAL pc; GO_STRAIGHT pc; TURN_RIGHT pc; TURN_LEFT pc; LANE_FOLLOW pc].

(** ** Vocabulary of the further properties *)

(** The process groups of the simulators a list of events started. *)
Definition spawned_pids (evs : list Event) : gset Z :=
  foldr (λ ev acc, match ev with
                   | EvPopen _ _ _ (Ok pid) => {[pid]} ∪ acc
                   | _ => acc
                   end) ∅ evs.

Module Faults.

(** As [Demo.host], but no process can be started. *)
Definition host_no_spawn : Host :=
  {| h_environ := h_environ (Demo.host 0);
     h_home := h_home (Demo.host 0);
     h_paths := h_paths (Demo.host 0);
     h_planner_consts := Demo.consts;
     h_scenarios_json := Ok Demo.scenarios;
     h_planner := λ _, None;
     h_procs := ∅;
     h_entropy := λ n, 123456 + Z.of_nat n;
     h_popen := λ n, Err OSError;
     h_client := λ n, ConnectReturns VNone |}.

(** As [Demo.host], but the second connection attempt is interrupted from
    the keyboard; the first one is refused. *)
Definition host_interrupted : Host :=
  {| h_environ := h_environ (Demo.host 0);
     h_home := h_home (Demo.host 0);
     h_paths := h_paths (Demo.host 0);
     h_planner_consts := Demo.consts;
     h_scenarios_json := Ok Demo.scenarios;
     h_planner := λ _, None;
     h_procs := ∅;
     h_entropy := λ n, 123456 + Z.of_nat n;
     h_popen := λ n, Ok (4242 + Z.of_nat n);
     h_client := λ n, match n with
                      | O => ConnectRaises (ClientError "refused")
                      | _ => ConnectRaises KeyboardInterrupt
                      end |}.

(** The world after [import carla_env; env = CarlaEnv()] on a host. *)
Definition world (h : Host) : World :=
  run_op (CallCarlaEnv None)
    (match import_module h with
     | Ok w => w
     | Err _ => Demo.blank h
     end).

End Faults.

(** A client event for the given port, or no client event. *)
Definition client_for (port : option Z) (ev : Event) : Prop :=
  match ev with
  | EvCarlaClient host p => host = "localhost"%string ∧ p = port
  | _ => True
  end.

(** The keys of the configuration that [__init__] reads. *)
Definition read_keys : list string :=
  ["server_map"; "enable_planner"; "use_depth_camera"; "y_res"; "x_res";
   "framestack"]%string.

Definition with_config (c : gmap string pyval) (e : CarlaEnv) : CarlaEnv :=
  {| self_config := c; self_city := self_city e;
     self_planner := self_planner e;
     self_observation_space := self_observation_space e;
     self__spec_id := self__spec_id e; self__seed := self__seed e;
     self_server_port := self_server_port e;
     self_server_process := self_server_process e;
     self_client := self_client e;
     self_num_steps := self_num_steps e;
     self_total_reward := self_total_reward e;
     self_prev_measurement := self_prev_measurement e;
     self_prev_image := self_prev_image e;
     self_episode_id := self_episode_id e;
     self_measurements_file := self_measurements_file e;
     self_weather := self_weather e; self_scenario := self_scenario e;
     self_start_pos := self_start_pos e; self_end_pos := self_end_pos e;
     self_start_coord := self_start_coord e;
     self_end_coord := self_end_coord e; self_last_obs := self_last_obs e |}.

(** Two results of [__init__] for the configurations [c1] and [c2] are
    the same but for the stored configuration. *)
Definition same_but_config (c1 c2 : gmap string pyval)
    (r1 r2 : Res CarlaEnv * World) : Prop :=
  r1.2 = r2.2 ∧
  match r1.1, r2.1 with
  | Ok e1, Ok e2 =>
      self_config e1 = c1 ∧ self_config e2 = c2 ∧ with_config c2 e1 = e2
  | Err x1, Err x2 => x1 = x2
  | _, _ => False
  end.

(** A string without the character ['/']. *)
Definition no_slash (s : string) : Prop :=
  ∀ a b, s ≠ a +:+ String "/"%char b.

(** What a part of [__init__] may end with as far as [KeyError] goes:
    none, or one for a key it reads and the configuration lacks. *)
Definition key_error_ok {A} (config : gmap string pyval)
    (r : Res A * World) : Prop :=
  match r.1 with
  | Err (KeyError k) => k ∈ read_keys ∧ config !! k = None
  | _ => True
  end.

(** [e'] is [e] up to the three attributes [init_server] assigns. *)
Definition same_but_server (e e' : CarlaEnv) : Prop :=
  with_client None (with_server_process None (with_server_port None e')) =
  with_client None (with_server_process None (with_server_port None e)).

(** Every object of [w] is still there in [w'], under the same reference
    and the same up to those three attributes. *)
Definition heap_stable (w w' : World) : Prop :=
  ∀ r e, w_heap w !! r = Some e →
         ∃ e', w_heap w' !! r = Some e' ∧ same_but_server e e'.

Definition keeps (R : World → World → Prop) {A} (c : M A) : Prop :=
  ∀ w, R w (c w).2.

(** A bound for which [range] is empty: zero, a negative integer or
    [False]. *)
Definition empty_bound (v : pyval) : bool :=
  match v with
  | VInt n => n <=? 0
  | VBool b => negb b
  | _ => false
  end.

(** A bound [range] does not accept. *)
Definition bad_bound (v : pyval) : bool :=
  match v with
  | VInt _ | VBool _ => false
  | _ => true
  end.

(** The object [self] holds a client for ["localhost"] and its port. *)
Definition client_set (self : nat) (port : option Z) (w : World) : Prop :=
  ∃ e, w_heap w !! self = Some e ∧ self_server_port e = port ∧
       self_client e = Some {| cl_host := "localhost"; cl_port := port |}.

(** The attempt indices the handler has printed, in order. *)
Definition printed_indices (evs : list Event) : list Z :=
  omap (λ ev, match ev with
              | EvPrintConnErr _ i => Some i
              | _ => None
              end) evs.

(** * Properties *)

(** ** Running the monad *)

Lemma bind_run {A B} (c : M A) (k : A → M B) (w : World) :
  bind c k w = match c w with
               | (Ok a, w') => k a w'
               | (Err e, w') => (Err e, w')
               end.
Proof. reflexivity. Qed.

Lemma bind_Ok {A B} (c : M A) (k : A → M B) w a w' :
  c w = (Ok a, w') → bind c k w = k a w'.
Proof. intros H. rewrite bind_run, H. reflexivity. Qed.

Lemma bind_Err {A B} (c : M A) (k : A → M B) w e w' :
  c w = (Err e, w') → bind c k w = (Err e, w').
Proof. intros H. rewrite bind_run, H. reflexivity. Qed.

Lemma new_events_app w w' evs :
  w_trace w' = w_trace w ++ evs → new_events w w' = evs.
Proof.
  intros H. unfold new_events. rewrite H. apply drop_app_length.
Qed.

(** ** What a computation may change *)

Lemma registry_adds_app evs1 evs2 :
  registry_adds (evs1 ++ evs2) = registry_adds evs1 ∪ registry_adds evs2.
Proof.
  induction evs1 as [|ev evs1 IH]; simpl.
  - set_solver.
  - destruct ev; rewrite ?IH; set_solver.
Qed.

Lemma frame_refl ok w : frame ok w w.
Proof.
  repeat split; try done. exists []. rewrite app_nil_r.
  repeat split; [constructor | simpl; set_solver].
Qed.

Lemma frame_trans ok w1 w2 w3 :
  frame ok w1 w2 → frame ok w2 w3 → frame ok w1 w3.
Proof.
  intros (Hh1 & Hg1 & evs1 & Ht1 & Hok1 & Hl1)
         (Hh2 & Hg2 & evs2 & Ht2 & Hok2 & Hl2).
  repeat split; try congruence.
  exists (evs1 ++ evs2). repeat split.
  - rewrite Ht2, Ht1. by rewrite app_assoc.
  - by apply Forall_app.
  - rewrite Hl2, Hl1, registry_adds_app. set_solver.
Qed.

Lemma frame_weaken (ok ok' : Event → Prop) w w' :
  (∀ ev, ok ev → ok' ev) → frame ok w w' → frame ok' w w'.
Proof.
  intros Himp (Hh & Hg & evs & Ht & Hok & Hl).
  repeat split; try done. exists evs. repeat split; try done.
  eapply Forall_impl; eauto.
Qed.

Section Respects.
Context (ok : Event → Prop).

Lemma respects_ret {A} (a : A) : respects ok (ret a).
Proof. intros w. apply frame_refl. Qed.

Lemma respects_raise {A} e : respects ok (raise (A:=A) e).
Proof. intros w. apply frame_refl. Qed.

Lemma respects_lift {A} (r : Res A) : respects ok (lift r).
Proof. intros w. apply frame_refl. Qed.

Lemma respects_bind {A B} (c : M A) (k : A → M B) :
  respects ok c → (∀ a, respects ok (k a)) → respects ok (bind c k).
Proof.
  intros Hc Hk w. rewrite bind_run. specialize (Hc w).
  destruct (c w) as [[a|e] w1]; simpl in *; [|done].
  eapply frame_trans; [exact Hc | apply Hk].
Qed.

Lemma respects_try_except {A} (body : M A) handler :
  respects ok body → (∀ e, respects ok (handler e)) →
  respects ok (try_except body handler).
Proof.
  intros Hb Hh w. unfold try_except. specialize (Hb w).
  destruct (body w) as [[a|e] w1]; simpl in *; [done|].
  destruct (is_Exception e); [|done].
  eapply frame_trans; [exact Hb | apply Hh].
Qed.

Lemma respects_for_each {A} (xs : list A) (body : A → M unit) :
  (∀ x, respects ok (body x)) → respects ok (for_each xs body).
Proof.
  intros Hb. induction xs as [|x xs IH]; simpl.
  - apply respects_ret.
  - apply respects_bind; [apply Hb | intros _; exact IH].
Qed.

Lemma respects_emit ev :
  ok ev → (∀ pgid, ev ≠ EvRegistryAdd pgid) → respects ok (emit ev).
Proof.
  intros Hok Hne w. split; [done|]. split; [done|].
  exists [ev]. split; [done|]. split; [(by repeat constructor)|].
  destruct ev; simpl; set_solver.
Qed.

Lemma respects_globals : respects ok globals.
Proof. intros w. apply frame_refl. Qed.

Lemma respects_read_live : respects ok read_live.
Proof. intros w. apply frame_refl. Qed.

Lemma respects_lookup_global name : respects ok (lookup_global name).
Proof.
  intros w. unfold lookup_global.
  destruct (injected (w_glob w) !! name); apply frame_refl.
Qed.

Lemma respects_get_attr {A} self (attr : CarlaEnv → A) :
  respects ok (get_attr self attr).
Proof.
  intros w. unfold get_attr. destruct (w_heap w !! self); apply frame_refl.
Qed.

Lemma respects_set_attr self upd : respects ok (set_attr self upd).
Proof.
  intros w. unfold set_attr. destruct (w_heap w !! self); simpl.
  - repeat split; try done. exists []. rewrite app_nil_r.
    repeat split; [constructor | simpl; set_solver].
  - apply frame_refl.
Qed.

Lemma respects_alloc e : respects ok (alloc e).
Proof.
  intros w. repeat split; try done. exists []. simpl. rewrite app_nil_r.
  repeat split; [constructor | set_solver].
Qed.

Lemma respects_randint a b : respects ok (randint a b).
Proof.
  intros w. repeat split; try done. exists []. simpl. rewrite app_nil_r.
  repeat split; [constructor | set_solver].
Qed.

Lemma respects_getpgid pid : respects ok (getpgid pid).
Proof.
  intros w. unfold getpgid. destruct (w_procs w !! pid); apply frame_refl.
Qed.

Lemma respects_killpg pgid sig :
  ok (EvKillpg pgid sig) → respects ok (killpg pgid sig).
Proof.
  intros Hok w. unfold killpg. destruct (group_exists w pgid).
  - by apply respects_emit.
  - apply frame_refl.
Qed.

Lemma respects_live_add pgid :
  ok (EvRegistryAdd pgid) → respects ok (live_add pgid).
Proof.
  intros Hok w. repeat split; try done. exists [EvRegistryAdd pgid].
  simpl. repeat split; [(by repeat constructor) | set_solver].
Qed.

Lemma respects_Planner c : ok (EvPlanner c) → respects ok (Planner c).
Proof.
  intros Hok. unfold Planner. apply respects_bind.
  - by apply respects_emit.
  - intros _ w. destruct (h_planner (w_host w) c); apply frame_refl.
Qed.

Lemma respects_CarlaClient host port :
  ok (EvCarlaClient host port) → respects ok (CarlaClient host port).
Proof.
  intros Hok. unfold CarlaClient. apply respects_bind.
  - by apply respects_emit.
  - intros _ w. destruct (h_client (w_host w) (w_nconn w)); simpl;
      repeat split; try done; exists []; rewrite app_nil_r;
      (repeat split; [constructor | simpl; set_solver]).
Qed.

Lemma respects_client_connect c :
  ok EvConnect → respects ok (client_connect c).
Proof.
  intros Hok. unfold client_connect. apply respects_bind.
  - by apply respects_emit.
  - intros _ w. destruct (h_client (w_host w) (w_nconn w)); simpl;
      repeat split; try done; exists []; rewrite app_nil_r;
      (repeat split; [constructor | simpl; set_solver]).
Qed.

End Respects.

(** ** [init_server], phase by phase *)

Lemma init_server_run self w :
  init_server self w =
  match w_heap w !! self with
  | None =>
      (Err AttributeError,
       with_nrand (S (w_nrand w)) (with_trace (w_trace w ++ [EvPrintInit]) w))
  | Some e =>
      match self_config e !! "server_map"%string with
      | None => (Err (KeyError "server_map"), after_port self e w)
      | Some (VStr server_map) =>
          match h_popen (w_host w) (w_nspawn w) with
          | Ok pid => connect_phase self (after_spawn self e server_map pid w)
          | Err ex => (Err ex, after_popen self e server_map (Err ex) w)
          end
      | Some _ => (Err TypeError, after_port self e w)
      end
  end.
Proof.
  unfold init_server.
  rewrite bind_run; simpl. rewrite bind_run; simpl.
  rewrite bind_run. unfold set_attr at 1; simpl.
  destruct (w_heap w !! self) as [e|] eqn:Hheap; [|reflexivity].
  assert (Hlt : (self < length (w_heap w))%nat)
    by (eapply lookup_lt_Some; eauto).
  rewrite bind_run; simpl. rewrite bind_run.
  unfold get_attr at 1; simpl.
  rewrite list_lookup_insert_eq by done.
  rewrite bind_run. unfold lift at 1, dict_getitem at 1; simpl.
  destruct (self_config e !! "server_map"%string) as [smv|] eqn:Hmap;
    [|reflexivity].
  rewrite bind_run. unfold get_attr at 1; simpl.
  rewrite list_lookup_insert_eq by done. simpl.
  rewrite bind_run. unfold Popen at 1. rewrite bind_run.
  unfold lift at 1. simpl.
  destruct smv as [| | |server_map| |]; try reflexivity.
  simpl. unfold Popen_setsid at 1. simpl.
  destruct (h_popen (w_host w) (w_nspawn w)) as [pid|ex] eqn:Hpopen;
    [|reflexivity].
  rewrite bind_run. unfold set_attr at 1; simpl.
  rewrite list_lookup_insert_eq by done.
  rewrite bind_run. unfold get_attr at 1; simpl.
  rewrite list_lookup_insert_eq by (by rewrite length_insert).
  rewrite bind_run. unfold getpgid at 1; simpl.
  rewrite lookup_insert_eq.
  rewrite bind_run. unfold live_add at 1. rewrite bind_run. simpl.
  rewrite list_insert_insert_eq.
  unfold connect_phase, after_spawn, after_popen, after_port, drawn_port,
    spawn_argv. simpl.
  reflexivity.
Qed.

(** ** The retry loop, one pass at a time *)

Lemma connect_loop_cons self i rest w e :
  w_heap w !! self = Some e →
  connect_loop self (i :: rest) w =
  match h_client (w_host w) (w_nconn w) with
  | CtorRaises ex =>
      let w1 := with_nconn (S (w_nconn w))
                  (ctor_called (self_server_port e) w) in
      if is_Exception ex then connect_loop self rest (handled ex i w1)
      else (Err ex, w1)
  | ConnectRaises ex =>
      let w1 := connect_called self e w in
      if is_Exception ex then connect_loop self rest (handled ex i w1)
      else (Err ex, w1)
  | ConnectReturns v => (Ok v, connect_called self e w)
  end.
Proof.
  intros Hheap. simpl. rewrite bind_run. unfold try_except at 1.
  rewrite bind_run. unfold get_attr at 1. rewrite Hheap.
  rewrite bind_run. unfold CarlaClient at 1. rewrite bind_run. simpl.
  destruct (h_client (w_host w) (w_nconn w)) as [ex|ex|v] eqn:Hout; simpl.
  - destruct (is_Exception ex); reflexivity.
  - rewrite bind_run. unfold set_attr at 1. simpl. rewrite Hheap.
    rewrite bind_run. unfold client_connect at 1. rewrite bind_run. simpl.
    rewrite Hout. destruct (is_Exception ex); reflexivity.
  - rewrite bind_run. unfold set_attr at 1. simpl. rewrite Hheap.
    rewrite bind_run. unfold client_connect at 1. rewrite bind_run. simpl.
    rewrite Hout. reflexivity.
Qed.

Lemma count_ev_app p evs1 evs2 :
  count_ev p (evs1 ++ evs2) = (count_ev p evs1 + count_ev p evs2)%nat.
Proof. unfold count_ev. by rewrite List.filter_app, length_app. Qed.

Lemma count_ev_cons p ev evs :
  count_ev p (ev :: evs) = ((if p ev then 1 else 0) + count_ev p evs)%nat.
Proof. unfold count_ev. simpl. by destruct (p ev). Qed.

Lemma count_ev_nil p : count_ev p [] = 0%nat.
Proof. reflexivity. Qed.

Lemma has_port_handled self port ex i w :
  has_port self port w → has_port self port (handled ex i w).
Proof. intros (e & He & Hp). by exists e. Qed.

Lemma has_port_ctor self port w :
  has_port self port w →
  has_port self port (with_nconn (S (w_nconn w)) (ctor_called port w)).
Proof. intros (e & He & Hp). by exists e. Qed.

Lemma has_port_connect self port e w :
  w_heap w !! self = Some e → self_server_port e = port →
  has_port self port (connect_called self e w).
Proof.
  intros He Hp.
  exists (with_client (Some {| cl_host := "localhost"; cl_port := port |}) e).
  simpl. split; [|done]. rewrite Hp.
  apply list_lookup_insert_eq. eapply lookup_lt_Some; eauto.
Qed.

(** Every pass fails in a way the handler catches: the loop runs through
    all its indices and the function ends with [None]. *)
Lemma connect_loop_all_caught self port indices : ∀ w,
  has_port self port w →
  (∀ k, (k < length indices)%nat →
        caught (h_client (w_host w) (w_nconn w + k)) = true) →
  ∃ w' evs,
    connect_loop self indices w = (Ok VNone, w') ∧
    w_trace w' = w_trace w ++ evs ∧
    w_nconn w' = (w_nconn w + length indices)%nat ∧
    count_ev is_ctor_event evs = length indices ∧
    count_ev is_sleep evs = length indices ∧
    w_host w' = w_host w.
Proof.
  induction indices as [|i rest IH]; intros w Hport Hall.
  - exists w, []. simpl. rewrite app_nil_r, Nat.add_0_r. done.
  - destruct Hport as (e & He & Hp).
    assert (H0 := Hall 0%nat ltac:(simpl; lia)).
    rewrite Nat.add_0_r in H0.
    rewrite (connect_loop_cons _ _ _ _ _ He).
    destruct (h_client (w_host w) (w_nconn w)) as [ex|ex|v] eqn:Hout;
      simpl in H0; [| |done]; rewrite H0.
    + edestruct (IH (handled ex i (with_nconn (S (w_nconn w))
                       (ctor_called (self_server_port e) w))))
        as (w' & evs & Hrun & Htr & Hn & Hc & Hs & Hh).
      { apply has_port_handled. rewrite <- Hp. apply has_port_ctor.
        by exists e. }
      { intros k Hk. specialize (Hall (S k) ltac:(simpl; lia)).
        rewrite Nat.add_succ_r in Hall. exact Hall. }
      exists w', ([EvCarlaClient "localhost" (self_server_port e);
                   EvPrintConnErr ex i; EvSleep 2] ++ evs).
      split; [exact Hrun|]. simpl in Htr, Hn, Hh.
      split; [rewrite Htr; by rewrite <- !app_assoc|].
      split; [simpl; lia|].
      rewrite !count_ev_app. rewrite Hc, Hs. done.
    + edestruct (IH (handled ex i (connect_called self e w)))
        as (w' & evs & Hrun & Htr & Hn & Hc & Hs & Hh).
      { apply has_port_handled. by apply has_port_connect. }
      { intros k Hk. specialize (Hall (S k) ltac:(simpl; lia)).
        rewrite Nat.add_succ_r in Hall. exact Hall. }
      exists w', ([EvCarlaClient "localhost" (self_server_port e); EvConnect;
                   EvPrintConnErr ex i; EvSleep 2] ++ evs).
      split; [exact Hrun|]. simpl in Htr, Hn, Hh.
      split; [rewrite Htr; by rewrite <- !app_assoc|].
      split; [simpl; lia|].
      rewrite !count_ev_app. rewrite Hc, Hs. done.
Qed.

(** The first [k] passes fail in a way the handler catches and pass [k]
    connects: the function returns what [connect()] returned. *)
Lemma connect_loop_first_success self port indices : ∀ w k v,
  has_port self port w →
  (k < length indices)%nat →
  (∀ j, (j < k)%nat → caught (h_client (w_host w) (w_nconn w + j)) = true) →
  h_client (w_host w) (w_nconn w + k) = ConnectReturns v →
  ∃ w' evs,
    connect_loop self indices w = (Ok v, w') ∧
    w_trace w' = w_trace w ++ evs ∧
    w_nconn w' = (w_nconn w + S k)%nat ∧
    count_ev is_ctor_event evs = S k ∧
    count_ev is_sleep evs = k ∧
    ∃ e', w_heap w' !! self = Some e' ∧
          self_client e' = Some {| cl_host := "localhost"; cl_port := port |}.
Proof.
  induction indices as [|i rest IH]; intros w k v Hport Hk Hbefore Hat.
  - simpl in Hk. lia.
  - destruct Hport as (e & He & Hp).
    rewrite (connect_loop_cons _ _ _ _ _ He).
    destruct k as [|k].
    + rewrite Nat.add_0_r in Hat. rewrite Hat.
      exists (connect_called self e w),
             [EvCarlaClient "localhost" (self_server_port e); EvConnect].
      split; [done|]. simpl.
      split; [by rewrite <- app_assoc|].
      split; [lia|]. split; [done|]. split; [done|].
      eexists. split.
      * apply list_lookup_insert_eq. eapply lookup_lt_Some; eauto.
      * simpl. by rewrite Hp.
    + assert (H0 := Hbefore 0%nat ltac:(lia)).
      rewrite Nat.add_0_r in H0.
      assert (Hbefore' : ∀ j, (j < k)%nat →
                caught (h_client (w_host w) (S (w_nconn w) + j)) = true).
      { intros j Hj. specialize (Hbefore (S j) ltac:(lia)).
        rewrite Nat.add_succ_r in Hbefore. exact Hbefore. }
      assert (Hat' : h_client (w_host w) (S (w_nconn w) + k)
                     = ConnectReturns v).
      { rewrite Nat.add_succ_r in Hat. exact Hat. }
      simpl in Hk.
      destruct (h_client (w_host w) (w_nconn w)) as [ex|ex|v0] eqn:Hout;
        simpl in H0; [| |done]; rewrite H0.
      * edestruct (IH (handled ex i (with_nconn (S (w_nconn w))
                         (ctor_called (self_server_port e) w))) k v)
          as (w' & evs & Hrun & Htr & Hn & Hc & Hs & Hcl);
          [ apply has_port_handled; rewrite <- Hp; apply has_port_ctor;
            by exists e
          | lia | exact Hbefore' | exact Hat' | ].
        exists w', ([EvCarlaClient "localhost" (self_server_port e);
                     EvPrintConnErr ex i; EvSleep 2] ++ evs).
        split; [exact Hrun|]. simpl in Htr, Hn.
        split; [rewrite Htr; by rewrite <- !app_assoc|].
        split; [simpl; lia|].
        rewrite !count_ev_app. rewrite Hc, Hs. done.
      * edestruct (IH (handled ex i (connect_called self e w)) k v)
          as (w' & evs & Hrun & Htr & Hn & Hc & Hs & Hcl);
          [ apply has_port_handled; by apply has_port_connect
          | lia | exact Hbefore' | exact Hat' | ].
        exists w', ([EvCarlaClient "localhost" (self_server_port e);
                     EvConnect; EvPrintConnErr ex i; EvSleep 2] ++ evs).
        split; [exact Hrun|]. simpl in Htr, Hn.
        split; [rewrite Htr; by rewrite <- !app_assoc|].
        split; [simpl; lia|].
        rewrite !count_ev_app. rewrite Hc, Hs. done.
Qed.

(** Whatever the client does, the loop makes no more passes than it has
    indices; every pass calls the constructor once, and there is at most
    one sleep per pass. *)
Lemma connect_loop_bounded self port indices : ∀ w,
  has_port self port w →
  ∃ evs,
    w_trace (connect_loop self indices w).2 = w_trace w ++ evs ∧
    (count_ev is_ctor_event evs ≤ length indices)%nat ∧
    (count_ev is_sleep evs ≤ count_ev is_ctor_event evs)%nat ∧
    w_nconn (connect_loop self indices w).2
      = (w_nconn w + count_ev is_ctor_event evs)%nat.
Proof.
  induction indices as [|i rest IH]; intros w Hport.
  - exists []. simpl. rewrite app_nil_r.
    repeat split; try done; unfold count_ev; simpl; lia.
  - destruct Hport as (e & He & Hp).
    rewrite (connect_loop_cons _ _ _ _ _ He).
    destruct (h_client (w_host w) (w_nconn w)) as [ex|ex|v] eqn:Hout.
    + cbv zeta. destruct (is_Exception ex).
      * edestruct (IH (handled ex i (with_nconn (S (w_nconn w))
                         (ctor_called (self_server_port e) w))))
          as (evs & Htr & Hc & Hs & Hn);
          [ apply has_port_handled; rewrite <- Hp; apply has_port_ctor;
            by exists e | ].
        exists ([EvCarlaClient "localhost" (self_server_port e);
                 EvPrintConnErr ex i; EvSleep 2] ++ evs).
        simpl in Htr, Hn.
        split; [rewrite Htr; by rewrite <- !app_assoc|].
        rewrite !count_ev_app, !count_ev_cons, !count_ev_nil, Hn.
        cbn [is_ctor_event is_sleep length]. repeat split; lia.
      * exists [EvCarlaClient "localhost" (self_server_port e)].
        simpl. unfold count_ev; simpl. repeat split; lia.
    + cbv zeta. destruct (is_Exception ex).
      * edestruct (IH (handled ex i (connect_called self e w)))
          as (evs & Htr & Hc & Hs & Hn);
          [ apply has_port_handled; by apply has_port_connect | ].
        exists ([EvCarlaClient "localhost" (self_server_port e); EvConnect;
                 EvPrintConnErr ex i; EvSleep 2] ++ evs).
        simpl in Htr, Hn.
        split; [rewrite Htr; by rewrite <- !app_assoc|].
        rewrite !count_ev_app, !count_ev_cons, !count_ev_nil, Hn.
        cbn [is_ctor_event is_sleep length]. repeat split; lia.
      * exists [EvCarlaClient "localhost" (self_server_port e); EvConnect].
        simpl. unfold count_ev; simpl.
        split; [by rewrite <- app_assoc|]. repeat split; lia.
    + exists [EvCarlaClient "localhost" (self_server_port e); EvConnect].
      simpl. unfold count_ev; simpl.
      split; [by rewrite <- app_assoc|]. repeat split; lia.
Qed.

Lemma respects_connect_loop (ok : Event → Prop) self indices :
  (∀ ev, loop_event ev → ok ev) →
  respects ok (connect_loop self indices).
Proof.
  intros Hok. induction indices as [|i rest IH]; simpl.
  - apply respects_ret.
  - apply respects_bind.
    + apply respects_try_except.
      * apply respects_bind; [apply respects_get_attr|]. intros port.
        apply respects_bind; [apply respects_CarlaClient; by apply Hok|].
        intros c. apply respects_bind; [apply respects_set_attr|].
        intros _. apply respects_bind;
          [apply respects_client_connect; by apply Hok|].
        intros v. apply respects_ret.
      * intros e. apply respects_bind;
          [apply respects_emit; [by apply Hok | done]|].
        intros _. apply respects_bind;
          [apply respects_emit; [by apply Hok | done]|].
        intros _. apply respects_ret.
    + intros [v|]; [apply respects_ret | exact IH].
Qed.

Lemma respects_connect_phase (ok : Event → Prop) self :
  (∀ ev, loop_event ev → ok ev) →
  respects ok (connect_phase self).
Proof.
  intros Hok. unfold connect_phase.
  apply respects_bind; [apply respects_lookup_global|]. intros retries.
  apply respects_bind; [apply respects_lift|]. intros indices.
  by apply respects_connect_loop.
Qed.

Lemma procs_connect_loop self indices : ∀ w,
  w_procs (connect_loop self indices w).2 = w_procs w.
Proof.
  induction indices as [|i rest IH]; intros w; [done|].
  simpl. rewrite bind_run. unfold try_except.
  rewrite bind_run. unfold get_attr at 1.
  destruct (w_heap w !! self) as [e|] eqn:He; simpl.
  - rewrite bind_run. unfold CarlaClient at 1. rewrite bind_run. simpl.
    destruct (h_client (w_host w) (w_nconn w)) as [ex|ex|v] eqn:Hout; simpl.
    + destruct (is_Exception ex); simpl; [|done]. by rewrite IH.
    + rewrite bind_run. unfold set_attr at 1. simpl. rewrite He.
      rewrite bind_run. unfold client_connect at 1. rewrite bind_run. simpl.
      rewrite Hout. destruct (is_Exception ex); simpl; [|done].
      by rewrite IH.
    + rewrite bind_run. unfold set_attr at 1. simpl. rewrite He.
      rewrite bind_run. unfold client_connect at 1. rewrite bind_run. simpl.
      rewrite Hout. done.
  - by rewrite IH.
Qed.

(** ** What each operation of the module may do *)

Lemma frame_live_mono ok w w' :
  frame ok w w' → live_carla_processes w ⊆ live_carla_processes w'.
Proof. intros (_ & _ & evs & _ & _ & Hl). rewrite Hl. set_solver. Qed.

Lemma registry_adds_none evs :
  Forall (λ ev, ∀ pgid, ev ≠ EvRegistryAdd pgid) evs → registry_adds evs = ∅.
Proof.
  induction 1 as [|ev evs Hev _ IH]; simpl; [done|].
  destruct ev; try exact IH. by destruct (Hev pgid).
Qed.

Lemma frame_live_same (ok : Event → Prop) w w' :
  (∀ ev, ok ev → ∀ pgid, ev ≠ EvRegistryAdd pgid) →
  frame ok w w' → live_carla_processes w' = live_carla_processes w.
Proof.
  intros Hok (_ & _ & evs & _ & Hall & Hl). rewrite Hl.
  rewrite registry_adds_none; [set_solver|].
  eapply Forall_impl; eauto.
Qed.

Lemma frame_new_events ok w w' :
  frame ok w w' → Forall ok (new_events w w').
Proof.
  intros (_ & _ & evs & Ht & Hall & _). by rewrite (new_events_app _ _ _ Ht).
Qed.

Lemma respects_cleanup (ok : Event → Prop) :
  (∀ s, ok (EvPrintKilling s)) → (∀ g, ok (EvKillpg g SIGKILL)) →
  respects ok cleanup.
Proof.
  intros Hp Hk. unfold cleanup.
  apply respects_bind; [apply respects_read_live|]. intros shown.
  apply respects_bind; [by apply respects_emit|]. intros _.
  apply respects_bind; [apply respects_read_live|]. intros live.
  apply respects_for_each. intros g. by apply respects_killpg.
Qed.

Lemma respects_init (ok : Event → Prop) config :
  (∀ c, ok (EvPlanner c)) → respects ok (__init__ config).
Proof.
  intros Hp. unfold __init__.
  apply respects_bind; [apply respects_lift|]. intros server_map.
  apply respects_bind; [apply respects_lift|]. intros city_name.
  apply respects_bind; [apply respects_lift|]. intros enable_planner.
  apply respects_bind.
  { destruct (truthy enable_planner); [|apply respects_ret].
    apply respects_bind; [by apply respects_Planner|].
    intros p. apply respects_ret. }
  intros planner.
  apply respects_bind; [apply respects_lift|]. intros use_depth_camera.
  apply respects_bind.
  { destruct (truthy use_depth_camera);
      (apply respects_bind; [apply respects_lift|]; intros y_res;
       apply respects_bind; [apply respects_lift|]; intros x_res;
       apply respects_bind; [apply respects_lift|]; intros framestack;
       apply respects_bind; [apply respects_lift|]; intros channels;
       apply respects_ret). }
  intros image_space.
  apply respects_bind; [apply respects_globals|]. intros glob.
  apply respects_bind; [apply respects_lift|]. intros seed.
  apply respects_ret.
Qed.

Lemma respects_CarlaEnv_call (ok : Event → Prop) config :
  (∀ c, ok (EvPlanner c)) → respects ok (CarlaEnv_call config).
Proof.
  intros Hp. unfold CarlaEnv_call.
  apply respects_bind; [apply respects_globals|]. intros glob.
  apply respects_bind; [by apply respects_init|]. intros e.
  apply respects_alloc.
Qed.

Lemma respects_run_exit_hooks (ok : Event → Prop) :
  (∀ s, ok (EvPrintKilling s)) → (∀ g, ok (EvKillpg g SIGKILL)) →
  respects ok run_exit_hooks.
Proof.
  intros Hp Hk. unfold run_exit_hooks.
  apply respects_bind; [apply respects_globals|]. intros glob.
  apply respects_for_each. intros []. by apply respects_cleanup.
Qed.

Lemma drawn_port_range w : 10000 ≤ drawn_port w ≤ 60000.
Proof.
  unfold drawn_port.
  pose proof (Z.mod_pos_bound (h_entropy (w_host w) (w_nrand w))
                (60000 - 10000 + 1) ltac:(lia)).
  lia.
Qed.

Lemma init_server_outcomes self w : init_server_outcome self w.
Proof.
  pose proof (init_server_run self w) as Hrun.
  destruct (w_heap w !! self) as [e|] eqn:Hheap.
  2:{ apply NothingStarted; rewrite Hrun; simpl; try done.
      by apply new_events_app. }
  destruct (self_config e !! "server_map"%string) as [smv|] eqn:Hmap.
  2:{ apply NothingStarted; rewrite Hrun; simpl; try done.
      by apply new_events_app. }
  destruct smv as [| | |server_map| |];
    try (apply NothingStarted; rewrite Hrun; simpl; try done;
         by apply new_events_app).
  destruct (h_popen (w_host w) (w_nspawn w)) as [pid|ex] eqn:Hpopen.
  - pose proof (respects_connect_phase loop_event self ltac:(done)
                  (after_spawn self e server_map pid w))
      as (Hh & Hg & evs & Ht & Hall & Hl).
    rewrite <- Hrun in Ht, Hl.
    eapply (Spawned _ _ e server_map pid evs); try done.
    + apply new_events_app. rewrite Ht. simpl. by rewrite <- !app_assoc.
    + rewrite Hl. simpl.
      rewrite (registry_adds_none evs); [set_solver|].
      eapply Forall_impl; [exact Hall|]. by intros [] ?.
  - eapply (PopenFailed _ _ e server_map ex); try done;
      rewrite Hrun; simpl; try done.
    apply new_events_app. simpl. by rewrite <- !app_assoc.
Qed.

Lemma init_server_frame self w :
  frame (module_event (w_glob w)) w (init_server self w).2.
Proof.
  pose proof (init_server_run self w) as Hrun.
  assert (Hquiet : ∀ evs w1, w_host w1 = w_host w → w_glob w1 = w_glob w →
            live_carla_processes w1 = live_carla_processes w →
            w_trace w1 = w_trace w ++ evs →
            Forall (module_event (w_glob w)) evs →
            registry_adds evs = ∅ →
            frame (module_event (w_glob w)) w w1).
  { intros evs w1 Hh Hg Hl Ht Hall Hadds. repeat split; try done.
    exists evs. repeat split; try done. rewrite Hadds, Hl. set_solver. }
  destruct (w_heap w !! self) as [e|] eqn:Hheap.
  2:{ rewrite Hrun. simpl. apply (Hquiet [EvPrintInit]); try done.
      by repeat constructor. }
  destruct (self_config e !! "server_map"%string) as [smv|] eqn:Hmap.
  2:{ rewrite Hrun. simpl. apply (Hquiet [EvPrintInit]); try done.
      by repeat constructor. }
  destruct smv as [| | |server_map| |];
    try (rewrite Hrun; simpl;
         apply (Hquiet [EvPrintInit]); try done;
         by repeat constructor).
  assert (Hpopen_ok : ∀ r, module_event (w_glob w)
            (EvPopen (spawn_argv (w_glob w) server_map (drawn_port w))
                     true DevNull r)).
  { intros r. simpl. repeat split; try done.
    exists server_map, (drawn_port w). split; [apply drawn_port_range|done]. }
  destruct (h_popen (w_host w) (w_nspawn w)) as [pid|ex] eqn:Hpopen.
  - rewrite Hrun. eapply frame_trans.
    2:{ apply (respects_connect_phase (module_event (w_glob w)) self).
        by intros []. }
    repeat split; try done.
    exists [EvPrintInit;
            EvPopen (spawn_argv (w_glob w) server_map (drawn_port w))
                    true DevNull (Ok pid);
            EvRegistryAdd pid].
    repeat split.
    + simpl. by rewrite <- !app_assoc.
    + constructor; [done|]. constructor; [apply Hpopen_ok|].
      constructor; [done|]. constructor.
    + simpl. set_solver.
  - rewrite Hrun. simpl.
    apply (Hquiet
             [EvPrintInit;
              EvPopen (spawn_argv (w_glob w) server_map (drawn_port w))
                      true DevNull (Err ex)]); try done.
    + simpl. by rewrite <- !app_assoc.
    + constructor; [done|]. constructor; [apply Hpopen_ok|]. constructor.
Qed.

Lemma run_op_frame o w : frame (module_event (w_glob w)) w (run_op o w).
Proof.
  destruct o as [config|self| |]; simpl.
  - by apply respects_CarlaEnv_call.
  - apply init_server_frame.
  - by apply respects_cleanup.
  - by apply respects_run_exit_hooks.
Qed.

Lemma run_ops_frame ops : ∀ w,
  frame (module_event (w_glob w)) w (run_ops ops w).
Proof.
  induction ops as [|o ops IH]; intros w; [apply frame_refl|].
  simpl. eapply frame_trans; [apply run_op_frame|].
  pose proof (run_op_frame o w) as (_ & Hg & _).
  specialize (IH (run_op o w)). by rewrite Hg in IH.
Qed.

(** * The claims *)

Lemma run_ops_live_mono ops w :
  live_carla_processes w ⊆ live_carla_processes (run_ops ops w).
Proof. eapply frame_live_mono, run_ops_frame. Qed.

Lemma loop_event_not_popen evs argv setsid out r :
  Forall loop_event evs → ¬ In (EvPopen argv setsid out r) evs.
Proof.
  intros Hall Hin. rewrite Forall_forall in Hall.
  apply list_elem_of_In in Hin. exact (Hall _ Hin).
Qed.

(** C1.  Whenever a call of [init_server] starts a simulator process, the
    events of the call begin with the print, the [Popen] and, right after
    it, the addition of the new process group to [live_carla_processes]:
    the group is registered immediately after the spawn and before the
    first connection attempt.  The group is in the registry when the call
    ends, and it is still there after any further operations of the
    module, [cleanup] and the exit hooks included: nothing removes it. *)
Theorem init_server_registers_spawned_group self w argv setsid out pid :
  In (EvPopen argv setsid out (Ok pid))
     (new_events w (init_server self w).2) →
  (∃ rest, new_events w (init_server self w).2 =
             [EvPrintInit; EvPopen argv setsid out (Ok pid);
              EvRegistryAdd pid] ++ rest ∧
           Forall loop_event rest) ∧
  pid ∈ live_carla_processes (init_server self w).2 ∧
  ∀ ops, pid ∈ live_carla_processes (run_ops ops (init_server self w).2).
Proof.
  intros Hin.
  destruct (init_server_outcomes self w)
    as [Hev _ _ | e sm ex _ _ Hev _ _ | e sm pid0 evs _ _ _ _ Hev Hloop Hlive].
  - rewrite Hev in Hin. simpl in Hin. destruct Hin as [Heq|[]]. discriminate.
  - rewrite Hev in Hin. simpl in Hin.
    destruct Hin as [Heq|[Heq|[]]]; discriminate.
  - rewrite Hev in Hin. simpl in Hin.
    destruct Hin as [Heq|[Heq|[Heq|Hin]]]; try discriminate.
    2:{ by destruct (loop_event_not_popen _ _ _ _ _ Hloop Hin). }
    injection Heq as <- <- <- <-.
    assert (Hreg : pid0 ∈ live_carla_processes (init_server self w).2)
      by (rewrite Hlive; set_solver).
    split; [exists evs; by rewrite Hev|].
    split; [exact Hreg|].
    intros ops. by apply (run_ops_live_mono ops).
Qed.

Lemma init_server_registers_spawned_group_witness :
  let w := Demo.world_retries 1 3 in
  let argv := ["/opt/carla/CarlaUE4.sh"; "/Game/Maps/Town02"; "-windowed";
               "-ResX=400"; "-ResY=300"; "-carla-server";
               "-carla-world-port=33454"]%string in
  (∃ rest, new_events w (init_server 0%nat w).2 =
             [EvPrintInit; EvPopen argv true DevNull (Ok 4242);
              EvRegistryAdd 4242] ++ rest ∧
           Forall loop_event rest) ∧
  4242 ∈ live_carla_processes (init_server 0%nat w).2 ∧
  ∀ ops, 4242 ∈ live_carla_processes (run_ops ops (init_server 0%nat w).2).
Proof.
  intros w argv.
  apply (init_server_registers_spawned_group 0%nat w argv true DevNull 4242).
  vm_compute. right. left. reflexivity.
Defined.

(** ** [cleanup] *)

Lemma group_exists_log evs w g : group_exists (log evs w) g = group_exists w g.
Proof. reflexivity. Qed.

(** Signalling a list of groups that all exist: every one is signalled, in
    order, and nothing but the trace changes. *)
Lemma kill_all_existing gs : ∀ w,
  (∀ g, g ∈ gs → group_exists w g = true) →
  (for_each gs (λ g, killpg g SIGKILL) w).1 = Ok tt ∧
  w_trace (for_each gs (λ g, killpg g SIGKILL) w).2
    = w_trace w ++ ((λ g, EvKillpg g SIGKILL) <$> gs) ∧
  w_procs (for_each gs (λ g, killpg g SIGKILL) w).2 = w_procs w.
Proof.
  induction gs as [|g gs IH]; intros w Hall.
  - simpl. by rewrite app_nil_r.
  - assert (Hstep : for_each (g :: gs) (λ g, killpg g SIGKILL) w =
                    for_each gs (λ g, killpg g SIGKILL)
                      (log [EvKillpg g SIGKILL] w)).
    { simpl. rewrite bind_run. unfold killpg at 1.
      rewrite (Hall g) by set_solver. reflexivity. }
    rewrite Hstep.
    destruct (IH (log [EvKillpg g SIGKILL] w)) as (Hr & Ht & Hp).
    { intros g' Hg'. rewrite group_exists_log. apply Hall. set_solver. }
    split; [exact Hr|]. split; [|exact Hp].
    rewrite Ht. simpl. by rewrite <- app_assoc.
Qed.

(** Signalling a list that holds a group that is gone ends with
    [ProcessLookupError]. *)
Lemma kill_missing_raises gs : ∀ w g,
  g ∈ gs → group_exists w g = false →
  (for_each gs (λ g, killpg g SIGKILL) w).1 = Err ProcessLookupError.
Proof.
  induction gs as [|g0 gs IH]; intros w g Hin Hgone.
  - by apply elem_of_nil in Hin.
  - simpl. rewrite bind_run. unfold killpg at 1.
    destruct (group_exists w g0) eqn:Hg0; [|done]. simpl.
    apply elem_of_cons in Hin as [->|Hin]; [congruence|].
    by apply (IH _ g).
Qed.

Lemma cleanup_run w :
  cleanup w =
  for_each (elements (live_carla_processes w)) (λ g, killpg g SIGKILL)
    (log [EvPrintKilling (live_carla_processes w)] w).
Proof. reflexivity. Qed.

Lemma cleanup_keeps_registry w :
  live_carla_processes (cleanup w).2 = live_carla_processes w.
Proof.
  apply (frame_live_same
           (λ ev, match ev with
                  | EvPrintKilling _ | EvKillpg _ _ => True
                  | _ => False
                  end)).
  - by intros [] ? ?.
  - apply respects_cleanup; done.
Qed.

Lemma cleanup_raises_when_group_gone w g :
  g ∈ live_carla_processes w → group_exists w g = false →
  (cleanup w).1 = Err ProcessLookupError.
Proof.
  intros Hin Hgone. rewrite cleanup_run.
  apply (kill_missing_raises _ _ g); [|done].
  by apply elem_of_elements.
Qed.

(** C2, as the code has it.  When every registered process group still
    exists, [cleanup] prints the registry, sends [SIGKILL] to every
    registered group, each exactly once, and returns normally.  It leaves
    the registry as it was: nothing is removed from it. *)
Theorem cleanup_signals_every_registered_group w :
  (∀ g, g ∈ live_carla_processes w → group_exists w g = true) →
  (cleanup w).1 = Ok tt ∧
  new_events w (cleanup w).2 =
    EvPrintKilling (live_carla_processes w) ::
    ((λ g, EvKillpg g SIGKILL) <$> elements (live_carla_processes w)) ∧
  NoDup (elements (live_carla_processes w)) ∧
  (∀ g, g ∈ live_carla_processes w ↔
        In (EvKillpg g SIGKILL) (new_events w (cleanup w).2)) ∧
  live_carla_processes (cleanup w).2 = live_carla_processes w.
Proof.
  intros Hall.
  destruct (kill_all_existing (elements (live_carla_processes w))
              (log [EvPrintKilling (live_carla_processes w)] w))
    as (Hr & Ht & _).
  { intros g Hg. rewrite group_exists_log. apply Hall.
    by apply elem_of_elements. }
  rewrite <- cleanup_run in Hr, Ht.
  assert (Hev : new_events w (cleanup w).2 =
            EvPrintKilling (live_carla_processes w) ::
            ((λ g, EvKillpg g SIGKILL) <$> elements (live_carla_processes w))).
  { apply new_events_app. rewrite Ht. simpl. by rewrite <- app_assoc. }
  split; [exact Hr|]. split; [exact Hev|].
  split; [apply NoDup_elements|].
  split; [|apply cleanup_keeps_registry].
  intros g. rewrite Hev. simpl. split.
  - intros Hg. right. apply list_elem_of_In, list_elem_of_fmap.
    exists g. split; [done|]. by apply elem_of_elements.
  - intros [Heq|Hin]; [discriminate|].
    apply list_elem_of_In, list_elem_of_fmap in Hin as (g' & Heq & Hg').
    injection Heq as ->. by apply elem_of_elements.
Qed.

Lemma cleanup_signals_every_registered_group_witness :
  (cleanup CleanupDemo.running).1 = Ok tt ∧
  new_events CleanupDemo.running (cleanup CleanupDemo.running).2 =
    EvPrintKilling (live_carla_processes CleanupDemo.running) ::
    ((λ g, EvKillpg g SIGKILL)
       <$> elements (live_carla_processes CleanupDemo.running)) ∧
  NoDup (elements (live_carla_processes CleanupDemo.running)) ∧
  (∀ g, g ∈ live_carla_processes CleanupDemo.running ↔
        In (EvKillpg g SIGKILL)
           (new_events CleanupDemo.running (cleanup CleanupDemo.running).2)) ∧
  live_carla_processes (cleanup CleanupDemo.running).2
    = live_carla_processes CleanupDemo.running.
Proof.
  apply (cleanup_signals_every_registered_group CleanupDemo.running).
  intros g Hg.
  assert (Hlive : live_carla_processes CleanupDemo.running = {[4242]})
    by (vm_compute; reflexivity).
  rewrite Hlive in Hg. apply elem_of_singleton in Hg as ->.
  vm_compute. reflexivity.
Defined.

(** C2 as stated fails on the code.  With one running simulator
    registered, [cleanup] signals it and returns, and the registry still
    holds its group: it is not emptied.  With a registered group that has
    already exited, [cleanup] does not get past it: [os.killpg] raises
    [ProcessLookupError], nothing catches it, and no signal is sent. *)
Lemma cleanup_leaves_registry_and_raises :
  live_carla_processes CleanupDemo.running = {[4242]} ∧
  (cleanup CleanupDemo.running).1 = Ok tt ∧
  live_carla_processes (cleanup CleanupDemo.running).2 = {[4242]} ∧
  live_carla_processes (cleanup CleanupDemo.running).2 ≠ ∅ ∧
  live_carla_processes CleanupDemo.exited = {[4242]} ∧
  group_exists CleanupDemo.exited 4242 = false ∧
  (cleanup CleanupDemo.exited).1 = Err ProcessLookupError ∧
  count_ev is_kill
    (new_events CleanupDemo.exited (cleanup CleanupDemo.exited).2) = 0%nat.
Proof.
  assert (Hlive : live_carla_processes (cleanup CleanupDemo.running).2
                  = {[4242]}) by (vm_compute; reflexivity).
  repeat split; try (vm_compute; reflexivity).
  rewrite Hlive. intros Hempty.
  assert (H : (4242 : Z) ∈ (∅ : gset Z))
    by (rewrite <- Hempty; by apply elem_of_singleton).
  exact (not_elem_of_empty _ H).
Qed.

(** ** The connection phase with a bound for the retries *)

Lemma connect_phase_bound self w n :
  retries_bound w = Some (VInt n) →
  connect_phase self w =
  connect_loop self (Z.of_nat <$> seq 0 (Z.to_nat n)) w.
Proof.
  unfold retries_bound. intros Hn. unfold connect_phase.
  rewrite bind_run. unfold lookup_global at 1. rewrite Hn.
  rewrite bind_run. reflexivity.
Qed.

Lemma connect_phase_unbound self w :
  retries_bound w = None →
  connect_phase self w = (Err (NameError "RETRIES_ON_ERROR"), w).
Proof.
  unfold retries_bound. intros Hn. unfold connect_phase.
  rewrite bind_run. unfold lookup_global at 1. by rewrite Hn.
Qed.

Lemma after_spawn_trace self e server_map pid w :
  w_trace (after_spawn self e server_map pid w) =
  w_trace w ++
  [EvPrintInit;
   EvPopen (spawn_argv (w_glob w) server_map (drawn_port w))
           true DevNull (Ok pid);
   EvRegistryAdd pid].
Proof. simpl. by rewrite <- !app_assoc. Qed.

Lemma after_spawn_has_port self e server_map pid w :
  w_heap w !! self = Some e →
  has_port self (Some (drawn_port w)) (after_spawn self e server_map pid w).
Proof.
  intros He. eexists. split.
  - simpl. apply list_lookup_insert_eq. eapply lookup_lt_Some; eauto.
  - reflexivity.
Qed.

Lemma init_server_spawned self w server_map pid :
  server_map_of self w = Some (VStr server_map) →
  h_popen (w_host w) (w_nspawn w) = Ok pid →
  ∃ e, w_heap w !! self = Some e ∧
       init_server self w =
       connect_phase self (after_spawn self e server_map pid w).
Proof.
  unfold server_map_of. intros Hmap Hpopen.
  destruct (w_heap w !! self) as [e|] eqn:He; [|done].
  exists e. split; [done|].
  rewrite init_server_run, He, Hmap, Hpopen. reflexivity.
Qed.

(** C3, as the code has it.  Let the simulator be started, and let
    [RETRIES_ON_ERROR] be bound to the integer [n].  Then [init_server]
    makes at most [n] connection attempts, each one a call of the
    [CarlaClient] constructor; it sleeps at most once per attempt, always
    for 2 seconds.  If every one of the [n] attempts raises an exception
    of class [Exception], the call makes exactly [n] attempts, sleeps
    after each, and returns [None]: no exception and no failure value
    comes out.  If the attempts before attempt [k] raise such exceptions
    and attempt [k] connects, the call makes exactly [k+1] attempts,
    sleeps [k] times, leaves the client in [self.client] and returns
    what [connect()] returned. *)
Theorem init_server_bounded_retry self w server_map pid n :
  server_map_of self w = Some (VStr server_map) →
  h_popen (w_host w) (w_nspawn w) = Ok pid →
  retries_bound w = Some (VInt n) →
  let outcome k := h_client (w_host w) (w_nconn w + k) in
  let r := (init_server self w).1 in
  let w' := (init_server self w).2 in
  let attempts := count_ev is_ctor_event (new_events w w') in
  let sleeps := count_ev is_sleep (new_events w w') in
  (attempts ≤ Z.to_nat n)%nat ∧
  w_nconn w' = (w_nconn w + attempts)%nat ∧
  (sleeps ≤ attempts)%nat ∧
  (∀ secs, In (EvSleep secs) (new_events w w') → secs = 2) ∧
  ((∀ k, (k < Z.to_nat n)%nat → caught (outcome k) = true) →
   r = Ok VNone ∧ attempts = Z.to_nat n ∧ sleeps = Z.to_nat n) ∧
  (∀ k v, (k < Z.to_nat n)%nat →
     (∀ j, (j < k)%nat → caught (outcome j) = true) →
     outcome k = ConnectReturns v →
     r = Ok v ∧ attempts = S k ∧ sleeps = k ∧
     ∃ e', w_heap w' !! self = Some e' ∧
           self_client e' = Some {| cl_host := "localhost";
                                    cl_port := Some (drawn_port w) |}).
Proof.
  intros Hmap Hpopen Hn outcome r w' attempts sleeps.
  destruct (init_server_spawned self w server_map pid Hmap Hpopen)
    as (e & He & Hrun).
  set (W := after_spawn self e server_map pid w) in *.
  assert (HnW : retries_bound W = Some (VInt n)) by exact Hn.
  rewrite (connect_phase_bound _ _ _ HnW) in Hrun.
  set (indices := Z.of_nat <$> seq 0 (Z.to_nat n)) in *.
  assert (Hlen : length indices = Z.to_nat n)
    by (unfold indices; by rewrite length_fmap, length_seq).
  assert (Hport : has_port self (Some (drawn_port w)) W)
    by (by apply after_spawn_has_port).
  assert (Hprefix : ∀ evs,
            w_trace w' = w_trace W ++ evs →
            new_events w w' =
              [EvPrintInit;
               EvPopen (spawn_argv (w_glob w) server_map (drawn_port w))
                       true DevNull (Ok pid);
               EvRegistryAdd pid] ++ evs).
  { intros evs Ht. apply new_events_app. rewrite Ht.
    unfold W. rewrite after_spawn_trace. by rewrite <- app_assoc. }
  assert (Hcount : ∀ evs,
            w_trace w' = w_trace W ++ evs →
            attempts = count_ev is_ctor_event evs ∧
            sleeps = count_ev is_sleep evs).
  { intros evs Ht. unfold attempts, sleeps.
    rewrite (Hprefix evs Ht), !count_ev_app. done. }
  unfold r, w' in *. rewrite Hrun in *.
  destruct (connect_loop_bounded self _ indices W Hport)
    as (evs & Ht & Hc & Hs & Hnc).
  destruct (Hcount evs Ht) as (Ha & Hsl).
  split; [rewrite Ha; lia|].
  split; [rewrite Ha, Hnc; done|].
  split; [rewrite Ha, Hsl; done|].
  split.
  { intros secs Hin. rewrite (Hprefix evs Ht) in Hin.
    apply in_app_or in Hin as [Hin|Hin].
    - simpl in Hin. destruct Hin as [?|[?|[?|[]]]]; discriminate.
    - pose proof (respects_connect_loop loop_event self indices
                    ltac:(done) W) as (_ & _ & evs2 & Ht2 & Hall & _).
      rewrite Ht in Ht2. apply app_inv_head in Ht2. subst evs2.
      rewrite Forall_forall in Hall.
      apply list_elem_of_In in Hin. exact (Hall _ Hin). }
  split.
  - intros Hall.
    destruct (connect_loop_all_caught self _ indices W Hport)
      as (w2 & evs2 & Hrun2 & Ht2 & _ & Hc2 & Hs2 & _).
    { intros k Hk. rewrite Hlen in Hk. exact (Hall k Hk). }
    rewrite Hrun2 in *. simpl in *.
    destruct (Hcount evs2 Ht2) as (-> & ->).
    rewrite Hc2, Hs2, Hlen. done.
  - intros k v Hk Hbefore Hat.
    destruct (connect_loop_first_success self _ indices W k v Hport)
      as (w2 & evs2 & Hrun2 & Ht2 & _ & Hc2 & Hs2 & Hcl);
      [by rewrite Hlen | exact Hbefore | exact Hat |].
    rewrite Hrun2 in *. simpl in *.
    destruct (Hcount evs2 Ht2) as (-> & ->).
    rewrite Hc2, Hs2. done.
Qed.

Lemma init_server_bounded_retry_witness :
  let w := Demo.world_retries 1 3 in
  let outcome k := h_client (w_host w) (w_nconn w + k) in
  let r := (init_server 0%nat w).1 in
  let w' := (init_server 0%nat w).2 in
  let attempts := count_ev is_ctor_event (new_events w w') in
  let sleeps := count_ev is_sleep (new_events w w') in
  (attempts ≤ Z.to_nat 3)%nat ∧
  w_nconn w' = (w_nconn w + attempts)%nat ∧
  (sleeps ≤ attempts)%nat ∧
  (∀ secs, In (EvSleep secs) (new_events w w') → secs = 2) ∧
  ((∀ k, (k < Z.to_nat 3)%nat → caught (outcome k) = true) →
   r = Ok VNone ∧ attempts = Z.to_nat 3 ∧ sleeps = Z.to_nat 3) ∧
  (∀ k v, (k < Z.to_nat 3)%nat →
     (∀ j, (j < k)%nat → caught (outcome j) = true) →
     outcome k = ConnectReturns v →
     r = Ok v ∧ attempts = S k ∧ sleeps = k ∧
     ∃ e', w_heap w' !! 0%nat = Some e' ∧
           self_client e' = Some {| cl_host := "localhost";
                                    cl_port := Some (drawn_port w) |}).
Proof.
  intros w.
  apply (init_server_bounded_retry 0%nat w "/Game/Maps/Town02" 4242 3).
  - vm_compute. reflexivity.
  - vm_compute. reflexivity.
  - vm_compute. reflexivity.
Defined.

(** C3 as stated fails on the code.  With [RETRIES_ON_ERROR] bound to 2
    and a client that fails on every attempt, [init_server] makes its two
    attempts and then returns [None]: the last exception is not raised
    and no failure is reported.  In the module as it is imported the
    name is not bound at all: with a simulator that would accept the
    first connection, [init_server] ends with [NameError] and has made
    no attempt. *)
Lemma init_server_exhausted_returns_None :
  (let w := Demo.world_retries 5 2 in
   caught (h_client (w_host w) 0) = true ∧
   caught (h_client (w_host w) 1) = true ∧
   (init_server 0%nat w).1 = Ok VNone ∧
   count_ev is_ctor_event (new_events w (init_server 0%nat w).2) = 2%nat ∧
   count_ev is_sleep (new_events w (init_server 0%nat w).2) = 2%nat) ∧
  (let w := Demo.world 0 in
   h_client (w_host w) 0 = ConnectReturns VNone ∧
   (init_server 0%nat w).1 = Err (NameError "RETRIES_ON_ERROR") ∧
   count_ev is_ctor_event (new_events w (init_server 0%nat w).2) = 0%nat).
Proof. repeat split; vm_compute; reflexivity. Qed.

(** ** [__init__] *)

Lemma init_runs config w server_map city_name ep d y x n seed :
  config !! "server_map"%string = Some server_map →
  py_split_last server_map = Ok city_name →
  config !! "enable_planner"%string = Some ep →
  (truthy ep = true → h_planner (w_host w) city_name = None) →
  config !! "use_depth_camera"%string = Some d →
  config !! "y_res"%string = Some y →
  config !! "x_res"%string = Some x →
  config !! "framestack"%string = Some (VInt n) →
  ENV_CONFIG (w_glob w) !! "seed"%string = Some seed →
  ∃ env w',
    __init__ config w = (Ok env, w') ∧
    self_observation_space env =
      Tuple [image_box (truthy d) y x n;
             Discrete (Z.of_nat (size (COMMANDS_ENUM (w_glob w))));
             Box (-128) 128 [VInt 2] float32] ∧
    self__seed env = seed ∧
    self_config env = config ∧
    self_city env = city_name.
Proof.
  intros Hsm Hcity Hep Hplanner Hd Hy Hx Hfs Hseed.
  unfold __init__.
  rewrite bind_run. unfold lift at 1, dict_getitem at 1. rewrite Hsm.
  rewrite bind_run. unfold lift at 1. rewrite Hcity.
  rewrite bind_run. unfold lift at 1, dict_getitem at 1. rewrite Hep.
  rewrite bind_run.
  destruct (truthy ep) eqn:Htruthy.
  - rewrite bind_run. unfold Planner at 1. rewrite bind_run.
    unfold emit at 1. cbv beta iota.
    change (w_host (with_trace (w_trace w ++ [EvPlanner city_name]) w))
      with (w_host w).
    rewrite (Hplanner eq_refl). unfold ret at 1.
    rewrite bind_run. unfold lift at 1, dict_getitem at 1. rewrite Hd.
    rewrite bind_run.
    destruct (truthy d);
      (rewrite bind_run; unfold lift at 1, dict_getitem at 1; rewrite Hy;
       rewrite bind_run; unfold lift at 1, dict_getitem at 1; rewrite Hx;
       rewrite bind_run; unfold lift at 1, dict_getitem at 1; rewrite Hfs;
       rewrite bind_run; unfold lift at 1, py_int_mul at 1;
       unfold ret at 1;
       rewrite bind_run; unfold globals at 1;
       rewrite bind_run; unfold lift at 1, dict_getitem at 1;
       change (w_glob (with_trace (w_trace w ++ [EvPlanner city_name]) w))
         with (w_glob w);
       rewrite Hseed; unfold ret;
       eexists _, _; split; [reflexivity|]; done).
  - unfold ret at 1.
    rewrite bind_run. unfold lift at 1, dict_getitem at 1. rewrite Hd.
    rewrite bind_run.
    destruct (truthy d);
      (rewrite bind_run; unfold lift at 1, dict_getitem at 1; rewrite Hy;
       rewrite bind_run; unfold lift at 1, dict_getitem at 1; rewrite Hx;
       rewrite bind_run; unfold lift at 1, dict_getitem at 1; rewrite Hfs;
       rewrite bind_run; unfold lift at 1, py_int_mul at 1;
       unfold ret at 1;
       rewrite bind_run; unfold globals at 1;
       rewrite bind_run; unfold lift at 1, dict_getitem at 1;
       rewrite Hseed; unfold ret;
       eexists _, _; split; [reflexivity|]; done).
Qed.

(** What a returning [__init__] has done: the only thing it can have done
    to the world is the call of [Planner]. *)
Lemma init_inv config w env w' :
  __init__ config w = (Ok env, w') →
  self_config env = config ∧
  self_server_port env = None ∧
  self_server_process env = None ∧
  self_client env = None ∧
  self_num_steps env = 0 ∧
  self_total_reward env = 0 ∧
  ENV_CONFIG (w_glob w) !! "seed"%string = Some (self__seed env) ∧
  (∃ image, self_observation_space env =
      Tuple [image;
             Discrete (Z.of_nat (size (COMMANDS_ENUM (w_glob w))));
             Box (-128) 128 [VInt 2] float32]) ∧
  (w' = w ∨ ∃ c, w' = log [EvPlanner c] w).
Proof.
  unfold __init__. intros H.
  rewrite bind_run in H. unfold lift at 1 in H.
  destruct (dict_getitem config "server_map") as [server_map|];
    [|discriminate].
  rewrite bind_run in H. unfold lift at 1 in H.
  destruct (py_split_last server_map) as [city_name|]; [|discriminate].
  rewrite bind_run in H. unfold lift at 1 in H.
  destruct (dict_getitem config "enable_planner") as [ep|]; [|discriminate].
  rewrite bind_run in H.
  assert (Hrest : ∀ planner w1,
    (w1 = w ∨ ∃ c, w1 = log [EvPlanner c] w) →
    (let* use_depth_camera := lift (dict_getitem config "use_depth_camera") in
     let* image_space :=
       (if truthy use_depth_camera
        then
          let* y_res := lift (dict_getitem config "y_res") in
          let* x_res := lift (dict_getitem config "x_res") in
          let* framestack := lift (dict_getitem config "framestack") in
          let* channels := lift (py_int_mul 1 framestack) in
          ret (Box (-1) 1 [y_res; x_res; channels] float32)
        else
          let* y_res := lift (dict_getitem config "y_res") in
          let* x_res := lift (dict_getitem config "x_res") in
          let* framestack := lift (dict_getitem config "framestack") in
          let* channels := lift (py_int_mul 3 framestack) in
          ret (Box 0 255 [y_res; x_res; channels] float32)) in
     let* glob := globals in
     let observation_space :=
       Tuple [image_space;
              Discrete (Z.of_nat (size (COMMANDS_ENUM glob)));
              Box (-128) 128 [VInt 2] float32] in
     let* seed := lift (dict_getitem (ENV_CONFIG glob) "seed") in
     ret {| self_config := config;
            self_city := city_name;
            self_planner := planner;
            self_observation_space := observation_space;
            self__spec_id := "Carla-v0";
            self__seed := seed;
            self_server_port := None;
            self_server_process := None;
            self_client := None;
            self_num_steps := 0;
            self_total_reward := 0;
            self_prev_measurement := VNone;
            self_prev_image := VNone;
            self_episode_id := VNone;
            self_measurements_file := VNone;
            self_weather := VNone;
            self_scenario := VNone;
            self_start_pos := VNone;
            self_end_pos := VNone;
            self_start_coord := VNone;
            self_end_coord := VNone;
            self_last_obs := VNone |}) w1 = (Ok env, w') →
    self_config env = config ∧
    self_server_port env = None ∧
    self_server_process env = None ∧
    self_client env = None ∧
    self_num_steps env = 0 ∧
    self_total_reward env = 0 ∧
    ENV_CONFIG (w_glob w) !! "seed"%string = Some (self__seed env) ∧
    (∃ image, self_observation_space env =
        Tuple [image;
               Discrete (Z.of_nat (size (COMMANDS_ENUM (w_glob w))));
               Box (-128) 128 [VInt 2] float32]) ∧
    (w' = w ∨ ∃ c, w' = log [EvPlanner c] w)).
  { clear H. intros planner w1 Hw1 H.
    assert (Hg : w_glob w1 = w_glob w)
      by (destruct Hw1 as [->|(c & ->)]; reflexivity).
    rewrite bind_run in H. unfold lift at 1 in H.
    destruct (dict_getitem config "use_depth_camera") as [d|];
      [|discriminate].
    rewrite bind_run in H.
    assert (Himg : ∃ image,
      (if truthy d
       then
         let* y_res := lift (dict_getitem config "y_res") in
         let* x_res := lift (dict_getitem config "x_res") in
         let* framestack := lift (dict_getitem config "framestack") in
         let* channels := lift (py_int_mul 1 framestack) in
         ret (Box (-1) 1 [y_res; x_res; channels] float32)
       else
         let* y_res := lift (dict_getitem config "y_res") in
         let* x_res := lift (dict_getitem config "x_res") in
         let* framestack := lift (dict_getitem config "framestack") in
         let* channels := lift (py_int_mul 3 framestack) in
         ret (Box 0 255 [y_res; x_res; channels] float32)) w1
      = (image, w1)).
    { destruct (truthy d);
        unfold bind, lift, ret;
        destruct (dict_getitem config "y_res");
        destruct (dict_getitem config "x_res");
        destruct (dict_getitem config "framestack");
        try destruct (py_int_mul _ _); eauto. }
    destruct Himg as (image & Himg). rewrite Himg in H.
    destruct image as [image|]; [|discriminate].
    rewrite bind_run in H. unfold globals at 1 in H.
    rewrite bind_run in H. unfold lift at 1, dict_getitem at 1 in H.
    rewrite Hg in H.
    destruct (ENV_CONFIG (w_glob w) !! "seed"%string) as [seed|] eqn:Hseed;
      [|discriminate].
    unfold ret in H. injection H as <- <-. simpl.
    repeat split; try done. by exists image. }
  destruct (truthy ep).
  - rewrite bind_run in H. unfold Planner at 1 in H.
    rewrite bind_run in H. unfold emit at 1 in H. cbv beta iota in H.
    destruct (h_planner _ city_name); [discriminate|].
    unfold ret at 1 in H.
    eapply Hrest; [|exact H]. right. by exists city_name.
  - unfold ret at 1 in H. eapply Hrest; [|exact H]. by left.
Qed.



Lemma new_events_same w : new_events w w = [].
Proof. unfold new_events. by rewrite drop_all. Qed.

(** C7.  When [__init__] returns, the new environment has its
    observation space (a tuple of the image box, the command space and
    the measurement box) and its counters at zero; [server_port],
    [server_process] and [client] are [None]; the registry and the
    process table are what they were, no [Popen] has been called and no
    client has been constructed or connected. *)
Theorem init_spawns_nothing config w env w' :
  __init__ config w = (Ok env, w') →
  self_server_port env = None ∧
  self_server_process env = None ∧
  self_client env = None ∧
  self_num_steps env = 0 ∧
  self_total_reward env = 0 ∧
  (∃ image, self_observation_space env =
      Tuple [image;
             Discrete (Z.of_nat (size (COMMANDS_ENUM (w_glob w))));
             Box (-128) 128 [VInt 2] float32]) ∧
  live_carla_processes w' = live_carla_processes w ∧
  w_procs w' = w_procs w ∧
  w_nspawn w' = w_nspawn w ∧
  w_nconn w' = w_nconn w ∧
  Forall (λ ev, is_popen ev = false ∧ is_client_event ev = false)
         (new_events w w').
Proof.
  intros H.
  destruct (init_inv _ _ _ _ H)
    as (_ & Hport & Hproc & Hcl & Hsteps & Hrew & _ & Hobs & Hw).
  repeat (split; [done|]).
  destruct Hw as [->|(c & ->)].
  - repeat (split; [done|]). rewrite new_events_same. constructor.
  - repeat (split; [done|]).
    rewrite (new_events_app w _ [EvPlanner c]) by done.
    by repeat constructor.
Qed.

Lemma init_spawns_nothing_witness :
  let w := Demo.imported 0 in
  let r := __init__ (ENV_CONFIG (w_glob w)) w in
  ∃ env,
    r.1 = Ok env ∧
    self_server_port env = None ∧
    self_server_process env = None ∧
    self_client env = None ∧
    self_num_steps env = 0 ∧
    self_total_reward env = 0 ∧
    (∃ image, self_observation_space env =
        Tuple [image;
               Discrete (Z.of_nat (size (COMMANDS_ENUM (w_glob w))));
               Box (-128) 128 [VInt 2] float32]) ∧
    live_carla_processes r.2 = live_carla_processes w ∧
    w_procs r.2 = w_procs w ∧
    w_nspawn r.2 = w_nspawn w ∧
    w_nconn r.2 = w_nconn w ∧
    Forall (λ ev, is_popen ev = false ∧ is_client_event ev = false)
           (new_events w r.2).
Proof.
  intros w r.
  destruct r as [[env|ex] w'] eqn:Hr.
  - exists env. split; [reflexivity|].
    exact (init_spawns_nothing (ENV_CONFIG (w_glob w)) w env w' Hr).
  - exfalso.
    assert (Hok : is_Ok (__init__ (ENV_CONFIG (w_glob w)) w).1 = true)
      by (vm_compute; reflexivity).
    unfold r in Hr. rewrite Hr in Hok. discriminate Hok.
Defined.

(** ** The import *)

Lemma import_inv h w0 :
  import_module h = Ok w0 →
  server_binary_path h ∈ h_paths h ∧
  w_host w0 = h ∧
  SERVER_BINARY (w_glob w0) = server_binary_path h ∧
  COMMANDS_ENUM (w_glob w0) = commands_enum_display (h_planner_consts h) ∧
  COMMAND_ORDINAL (w_glob w0) = command_ordinal_display ∧
  (∃ server_map lane_keep,
     ENV_CONFIG (w_glob w0) = env_config_display server_map lane_keep) ∧
  atexit_hooks (w_glob w0) = [HookCleanup] ∧
  injected (w_glob w0) = ∅ ∧
  live_carla_processes w0 = ∅ ∧
  w_trace w0 = [].
Proof.
  unfold import_module. intros H.
  unfold rbind at 1 in H. unfold py_assert in H.
  destruct (bool_decide (server_binary_path h ∈ h_paths h)) eqn:Hbin;
    [|discriminate].
  apply bool_decide_eq_true_1 in Hbin.
  repeat match type of H with
         | rbind ?r _ = _ =>
             destruct r; unfold rbind at 1 in H; [|discriminate]
         end.
  injection H as <-. simpl. repeat split; try done. eauto.
Qed.

Lemma import_fails_without_binary h :
  server_binary_path h ∉ h_paths h → import_module h = Err AssertionError.
Proof.
  intros Hno. unfold import_module.
  by rewrite (bool_decide_eq_false_2 _ Hno).
Qed.

Lemma run_ops_glob ops w : w_glob (run_ops ops w) = w_glob w.
Proof. by destruct (run_ops_frame ops w) as (_ & Hg & _). Qed.

Lemma run_ops_host ops w : w_host (run_ops ops w) = w_host w.
Proof. by destruct (run_ops_frame ops w) as (Hh & _). Qed.

(** The trace of a program that starts at the import holds nothing but
    events of the module. *)
Lemma run_ops_trace h w0 ops :
  import_module h = Ok w0 →
  Forall (module_event (w_glob w0)) (w_trace (run_ops ops w0)).
Proof.
  intros Himp.
  destruct (import_inv _ _ Himp) as (_ & _ & _ & _ & _ & _ & _ & _ & _ & Ht).
  destruct (run_ops_frame ops w0) as (_ & _ & evs & Hev & Hall & _).
  rewrite Hev, Ht. exact Hall.
Qed.

Lemma demo_import_ok n : import_module (Demo.host n) = Ok (Demo.imported n).
Proof.
  unfold Demo.imported.
  destruct (import_module (Demo.host n)) as [w|ex] eqn:H; [reflexivity|].
  assert (Hok : is_Ok (import_module (Demo.host n)) = true)
    by (vm_compute; reflexivity).
  rewrite H in Hok. discriminate Hok.
Qed.

(** C5.  When the path taken for the simulator launcher does not exist,
    the import of the module fails with [AssertionError]: no module
    comes into being, so nothing of it can be called.  Conversely, when
    the import has succeeded the path existed, and every [Popen] of any
    program over the module has that path as the program to run. *)
Theorem import_requires_server_binary :
  (∀ h, server_binary_path h ∉ h_paths h →
        import_module h = Err AssertionError) ∧
  (∀ h w0 ops argv setsid out r,
     import_module h = Ok w0 →
     In (EvPopen argv setsid out r) (w_trace (run_ops ops w0)) →
     server_binary_path h ∈ h_paths h ∧
     ∃ args, argv = server_binary_path h :: args).
Proof.
  split; [exact import_fails_without_binary|].
  intros h w0 ops argv setsid out r Himp Hin.
  destruct (import_inv _ _ Himp) as (Hbin & _ & Hsb & _).
  split; [exact Hbin|].
  pose proof (run_ops_trace h w0 ops Himp) as Hall.
  rewrite Forall_forall in Hall.
  apply list_elem_of_In in Hin. specialize (Hall _ Hin). simpl in Hall.
  destruct Hall as (_ & _ & sm & port & _ & ->).
  unfold spawn_argv. rewrite Hsb. eauto.
Qed.

Lemma import_requires_server_binary_witness :
  import_module Demo.host_no_binary = Err AssertionError ∧
  (let ops := [CallCarlaEnv None; CallInitServer 0%nat] in
   server_binary_path (Demo.host 0) ∈ h_paths (Demo.host 0) ∧
   ∃ args,
     ["/opt/carla/CarlaUE4.sh"; "/Game/Maps/Town02"; "-windowed";
      "-ResX=400"; "-ResY=300"; "-carla-server";
      "-carla-world-port=33454"]%string
     = server_binary_path (Demo.host 0) :: args).
Proof.
  destruct import_requires_server_binary as [Hfail Hspawn].
  split.
  - apply (Hfail Demo.host_no_binary). simpl. apply not_elem_of_empty.
  - intros ops.
    apply (Hspawn (Demo.host 0) (Demo.imported 0) ops _ true DevNull
             (Ok 4242)).
    + apply demo_import_ok.
    + vm_compute. right. right. left. reflexivity.
Defined.

(** ** Spawns *)

Lemma quiet_ops_start_nothing o w argv setsid out r :
  (∀ self, o ≠ CallInitServer self) →
  ¬ In (EvPopen argv setsid out r) (new_events w (run_op o w)).
Proof.
  intros Hne Hin.
  assert (Hframe : frame quiet_event w (run_op o w)).
  { destruct o as [config|self| |]; simpl.
    - by apply respects_CarlaEnv_call.
    - by destruct (Hne self).
    - by apply respects_cleanup.
    - by apply respects_run_exit_hooks. }
  apply frame_new_events in Hframe. rewrite Forall_forall in Hframe.
  apply list_elem_of_In in Hin. exact (Hframe _ Hin).
Qed.

Lemma server_map_of_Some self w e v :
  w_heap w !! self = Some e → self_config e !! "server_map"%string = Some v →
  server_map_of self w = Some v.
Proof. unfold server_map_of. by intros -> ->. Qed.

(** C6.  Every [Popen] that an operation of the module performs is
    performed by [init_server]; the child is made the leader of a new
    session (and so of a new process group), its standard output goes to
    the null device, and its command line is the launcher's path, the
    map of the environment's configuration, [-windowed], [-ResX=400],
    [-ResY=300], [-carla-server] and [-carla-world-port=] followed by the
    port drawn for this call, an integer from 10000 to 60000.  Every port
    of that range is drawn for some answer of the random source. *)
Theorem spawn_command_line o w argv setsid out r :
  In (EvPopen argv setsid out r) (new_events w (run_op o w)) →
  ∃ self server_map,
    o = CallInitServer self ∧
    server_map_of self w = Some (VStr server_map) ∧
    setsid = true ∧ out = DevNull ∧
    10000 ≤ drawn_port w ≤ 60000 ∧
    argv = [SERVER_BINARY (w_glob w); server_map; "-windowed"; "-ResX=400";
            "-ResY=300"; "-carla-server";
            "-carla-world-port=" +:+ pretty (drawn_port w)]%string ∧
    ∀ port, 10000 ≤ port ≤ 60000 →
            h_entropy (w_host w) (w_nrand w) = port - 10000 →
            drawn_port w = port.
Proof.
  intros Hin.
  destruct o as [config|self| |];
    try (exfalso; eapply quiet_ops_start_nothing; [|exact Hin]; done).
  simpl in Hin. exists self.
  assert (Hcover : ∀ port, 10000 ≤ port ≤ 60000 →
            h_entropy (w_host w) (w_nrand w) = port - 10000 →
            drawn_port w = port).
  { intros port Hrange Hent. unfold drawn_port. rewrite Hent.
    rewrite Z.mod_small by lia. lia. }
  destruct (init_server_outcomes self w)
    as [Hev _ _ | e sm ex He Hsm Hev _ _ | e sm pid evs He Hsm _ _ Hev Hloop _].
  - rewrite Hev in Hin. simpl in Hin. destruct Hin as [Heq|[]]. discriminate.
  - rewrite Hev in Hin. simpl in Hin.
    destruct Hin as [Heq|[Heq|[]]]; [discriminate|].
    injection Heq as <- <- <- <-. exists sm.
    split; [done|]. split; [by eapply server_map_of_Some|].
    split; [done|]. split; [done|].
    split; [apply drawn_port_range|]. split; [done|]. exact Hcover.
  - rewrite Hev in Hin. simpl in Hin.
    destruct Hin as [Heq|[Heq|[Heq|Hin]]]; try discriminate.
    2:{ by destruct (loop_event_not_popen _ _ _ _ _ Hloop Hin). }
    injection Heq as <- <- <- <-. exists sm.
    split; [done|]. split; [by eapply server_map_of_Some|].
    split; [done|]. split; [done|].
    split; [apply drawn_port_range|]. split; [done|]. exact Hcover.
Qed.

Lemma spawn_command_line_witness :
  let w := Demo.world 0 in
  let argv := ["/opt/carla/CarlaUE4.sh"; "/Game/Maps/Town02"; "-windowed";
               "-ResX=400"; "-ResY=300"; "-carla-server";
               "-carla-world-port=33454"]%string in
  ∃ self server_map,
    CallInitServer 0%nat = CallInitServer self ∧
    server_map_of self w = Some (VStr server_map) ∧
    true = true ∧ DevNull = DevNull ∧
    10000 ≤ drawn_port w ≤ 60000 ∧
    argv = [SERVER_BINARY (w_glob w); server_map; "-windowed"; "-ResX=400";
            "-ResY=300"; "-carla-server";
            "-carla-world-port=" +:+ pretty (drawn_port w)]%string ∧
    ∀ port, 10000 ≤ port ≤ 60000 →
            h_entropy (w_host w) (w_nrand w) = port - 10000 →
            drawn_port w = port.
Proof.
  intros w argv.
  apply (spawn_command_line (CallInitServer 0%nat) w argv true DevNull
           (Ok 4242)).
  vm_compute. right. left. reflexivity.
Defined.

(** ** The unbound name *)

Lemma retries_unbound_after_import h w0 ops :
  import_module h = Ok w0 → retries_bound (run_ops ops w0) = None.
Proof.
  intros Himp. unfold retries_bound. rewrite run_ops_glob.
  destruct (import_inv _ _ Himp) as (_ & _ & _ & _ & _ & _ & _ & -> & _).
  apply lookup_empty.
Qed.

(** C8.  [RETRIES_ON_ERROR] is not among the names the module binds.  In
    every world a program over the imported module can reach, a call of
    [init_server] never returns normally and never constructs or
    connects a client; and when it has started the simulator, it ends
    with [NameError] for [RETRIES_ON_ERROR], its events being the print,
    the [Popen] and the addition of the new process group to the
    registry, where the group then is. *)
Theorem init_server_raises_NameError h w0 ops self :
  import_module h = Ok w0 →
  let w := run_ops ops w0 in
  ("RETRIES_ON_ERROR"%string ∉ module_names) ∧
  is_Ok (init_server self w).1 = false ∧
  count_ev is_client_event (new_events w (init_server self w).2) = 0%nat ∧
  ∀ server_map pid,
    server_map_of self w = Some (VStr server_map) →
    h_popen (w_host w) (w_nspawn w) = Ok pid →
    (init_server self w).1 = Err (NameError "RETRIES_ON_ERROR") ∧
    new_events w (init_server self w).2 =
      [EvPrintInit;
       EvPopen (spawn_argv (w_glob w) server_map (drawn_port w))
               true DevNull (Ok pid);
       EvRegistryAdd pid] ∧
    pid ∈ live_carla_processes (init_server self w).2.
Proof.
  intros Himp w.
  pose proof (retries_unbound_after_import h w0 ops Himp) as Hunbound.
  fold w in Hunbound.
  split.
  { unfold module_names. intros Hin.
    repeat (apply elem_of_cons in Hin as [Heq|Hin]; [discriminate Heq|]).
    by apply elem_of_nil in Hin. }
  assert (Hspawned : ∀ e sm pid,
            init_server self w =
              connect_phase self (after_spawn self e sm pid w) →
            (init_server self w).1 = Err (NameError "RETRIES_ON_ERROR") ∧
            new_events w (init_server self w).2 =
              [EvPrintInit;
               EvPopen (spawn_argv (w_glob w) sm (drawn_port w))
                       true DevNull (Ok pid);
               EvRegistryAdd pid] ∧
            pid ∈ live_carla_processes (init_server self w).2).
  { intros e sm pid Hrun. rewrite Hrun.
    rewrite connect_phase_unbound by exact Hunbound.
    split; [done|]. split.
    - apply new_events_app. cbn [snd]. apply after_spawn_trace.
    - simpl. set_solver. }
  destruct (init_server_outcomes self w)
    as [Hev Hr _ | e sm ex He Hsm Hev Hr _ | e sm pid evs He Hsm Hp Hrun _ _ _].
  - split; [exact Hr|]. split; [by rewrite Hev|].
    intros sm pid Hmap Hpopen.
    destruct (init_server_spawned self w sm pid Hmap Hpopen)
      as (e & _ & Hrun).
    by apply (Hspawned e sm pid).
  - split; [by rewrite Hr|]. split; [by rewrite Hev|].
    intros sm' pid Hmap Hpopen.
    destruct (init_server_spawned self w sm' pid Hmap Hpopen)
      as (e' & _ & Hrun).
    by apply (Hspawned e' sm' pid).
  - destruct (Hspawned e sm pid Hrun) as (Hr & Hev & Hlive).
    split; [by rewrite Hr|]. split; [by rewrite Hev|].
    intros sm' pid' Hmap Hpopen.
    destruct (init_server_spawned self w sm' pid' Hmap Hpopen)
      as (e' & _ & Hrun').
    by apply (Hspawned e' sm' pid').
Qed.

Lemma init_server_raises_NameError_witness :
  let w := run_ops [CallCarlaEnv None] (Demo.imported 0) in
  ("RETRIES_ON_ERROR"%string ∉ module_names) ∧
  is_Ok (init_server 0%nat w).1 = false ∧
  count_ev is_client_event (new_events w (init_server 0%nat w).2) = 0%nat ∧
  ∀ server_map pid,
    server_map_of 0%nat w = Some (VStr server_map) →
    h_popen (w_host w) (w_nspawn w) = Ok pid →
    (init_server 0%nat w).1 = Err (NameError "RETRIES_ON_ERROR") ∧
    new_events w (init_server 0%nat w).2 =
      [EvPrintInit;
       EvPopen (spawn_argv (w_glob w) server_map (drawn_port w))
               true DevNull (Ok pid);
       EvRegistryAdd pid] ∧
    pid ∈ live_carla_processes (init_server 0%nat w).2.
Proof.
  apply (init_server_raises_NameError (Demo.host 0) (Demo.imported 0)
           [CallCarlaEnv None] 0%nat).
  apply demo_import_ok.
Defined.

(** ** The seed *)

Lemma same_seed_bind {A} (c : M A) (k1 k2 : A → M CarlaEnv) w :
  (∀ a w1, same_seed (k1 a w1) (k2 a w1)) →
  same_seed (bind c k1 w) (bind c k2 w).
Proof.
  intros Hk. rewrite !bind_run.
  destruct (c w) as [[a|ex] w1]; [apply Hk | done].
Qed.

Lemma dict_getitem_except_seed c1 c2 k :
  delete "seed"%string c1 = delete "seed"%string c2 →
  k ≠ "seed"%string →
  dict_getitem c1 k = dict_getitem c2 k.
Proof.
  intros Heq Hk. unfold dict_getitem.
  rewrite <- (lookup_delete_ne c1 "seed"%string k) by done.
  rewrite <- (lookup_delete_ne c2 "seed"%string k) by done.
  by rewrite Heq.
Qed.

(** C9.  Take two configurations that differ at most in what they have
    under ["seed"].  In the same world both construct an environment or
    both fail with the same exception; the two environments store the
    same [_seed], and it is the value [ENV_CONFIG] has under ["seed"],
    not one of the configurations' values. *)
Theorem seed_taken_from_ENV_CONFIG w c1 c2 :
  delete "seed"%string c1 = delete "seed"%string c2 →
  match (__init__ c1 w).1, (__init__ c2 w).1 with
  | Ok e1, Ok e2 =>
      self__seed e1 = self__seed e2 ∧
      ENV_CONFIG (w_glob w) !! "seed"%string = Some (self__seed e1)
  | Err x1, Err x2 => x1 = x2
  | _, _ => False
  end.
Proof.
  intros Heq.
  assert (Hsame : same_seed (__init__ c1 w) (__init__ c2 w)).
  { unfold __init__.
    rewrite !(dict_getitem_except_seed c1 c2 _ Heq) by done.
    apply same_seed_bind; intros server_map w1.
    apply same_seed_bind; intros city_name w2.
    apply same_seed_bind; intros ep w3.
    apply same_seed_bind; intros planner w4.
    apply same_seed_bind; intros d w5.
    apply same_seed_bind; intros image w6.
    apply same_seed_bind; intros glob w7.
    apply same_seed_bind; intros seed w8.
    reflexivity. }
  unfold same_seed in Hsame.
  destruct (__init__ c1 w) as [[e1|x1] w1] eqn:H1;
    destruct (__init__ c2 w) as [[e2|x2] w2] eqn:H2; simpl in *; try done.
  split; [exact Hsame|].
  by destruct (init_inv _ _ _ _ H1) as (_ & _ & _ & _ & _ & _ & Hseed & _).
Qed.

Lemma seed_taken_from_ENV_CONFIG_witness :
  let w := Demo.imported 0 in
  let c1 := <["seed"%string := VInt 7]> (ENV_CONFIG (w_glob w)) in
  let c2 := <["seed"%string := VInt 99]> (ENV_CONFIG (w_glob w)) in
  is_Ok (__init__ c1 w).1 = true ∧
  match (__init__ c1 w).1, (__init__ c2 w).1 with
  | Ok e1, Ok e2 =>
      self__seed e1 = self__seed e2 ∧
      ENV_CONFIG (w_glob w) !! "seed"%string = Some (self__seed e1)
  | Err x1, Err x2 => x1 = x2
  | _, _ => False
  end.
Proof.
  intros w c1 c2. split; [vm_compute; reflexivity|].
  apply (seed_taken_from_ENV_CONFIG w c1 c2).
  unfold c1, c2. by rewrite !delete_insert_eq.
Defined.

(** In a world reached from the import, that value is the [1] of the
    module's dictionary display. *)
Lemma seed_after_import h w0 ops :
  import_module h = Ok w0 →
  ENV_CONFIG (w_glob (run_ops ops w0)) !! "seed"%string = Some (VInt 1).
Proof.
  intros Himp. rewrite run_ops_glob.
  destruct (import_inv _ _ Himp)
    as (_ & _ & _ & _ & _ & (sm & lk & ->) & _).
  unfold env_config_display, dict_display. simpl.
  apply lookup_insert_eq.
Qed.

(** ** The command tables *)

Lemma commands_enum_lookup pc k name :
  commands_enum_display pc !! k = Some name →
  (k = REACH_GOAL pc ∧ name = "REACH_GOAL"%string) ∨
  (k = GO_STRAIGHT pc ∧ name = "GO_STRAIGHT"%string) ∨
  (k = TURN_RIGHT pc ∧ name = "TURN_RIGHT"%string) ∨
  (k = TURN_LEFT pc ∧ name = "TURN_LEFT"%string) ∨
  (k = LANE_FOLLOW pc ∧ name = "LANE_FOLLOW"%string).
Proof.
  unfold commands_enum_display, dict_display. simpl. intros H.
  rewrite !lookup_insert in H.
  repeat case_decide; simplify_eq; eauto 10.
Qed.

Lemma planner_codes_distinct pc :
  NoDup (planner_codes pc) →
  REACH_GOAL pc ≠ GO_STRAIGHT pc ∧ REACH_GOAL pc ≠ TURN_RIGHT pc ∧
  REACH_GOAL pc ≠ TURN_LEFT pc ∧ REACH_GOAL pc ≠ LANE_FOLLOW pc ∧
  GO_STRAIGHT pc ≠ TURN_RIGHT pc ∧ GO_STRAIGHT pc ≠ TURN_LEFT pc ∧
  GO_STRAIGHT pc ≠ LANE_FOLLOW pc ∧ TURN_RIGHT pc ≠ TURN_LEFT pc ∧
  TURN_RIGHT pc ≠ LANE_FOLLOW pc ∧ TURN_LEFT pc ≠ LANE_FOLLOW pc.
Proof.
  unfold planner_codes. rewrite !NoDup_cons, !not_elem_of_cons.
  naive_solver.
Qed.

Lemma commands_enum_size pc :
  NoDup (planner_codes pc) → size (commands_enum_display pc) = 5%nat.
Proof.
  intros Hnd. apply planner_codes_distinct in Hnd.
  destruct Hnd as (H1 & H2 & H3 & H4 & H5 & H6 & H7 & H8 & H9 & H10).
  unfold commands_enum_display, dict_display. simpl.
  rewrite !map_size_insert_None, map_size_empty; [done|..];
    rewrite ?lookup_insert_ne by done; apply lookup_empty.
Qed.

Lemma commands_enum_entries pc :
  NoDup (planner_codes pc) →
  commands_enum_display pc !! REACH_GOAL pc = Some "REACH_GOAL"%string ∧
  commands_enum_display pc !! GO_STRAIGHT pc = Some "GO_STRAIGHT"%string ∧
  commands_enum_display pc !! TURN_RIGHT pc = Some "TURN_RIGHT"%string ∧
  commands_enum_display pc !! TURN_LEFT pc = Some "TURN_LEFT"%string ∧
  commands_enum_display pc !! LANE_FOLLOW pc = Some "LANE_FOLLOW"%string.
Proof.
  intros Hnd. apply planner_codes_distinct in Hnd.
  destruct Hnd as (H1 & H2 & H3 & H4 & H5 & H6 & H7 & H8 & H9 & H10).
  unfold commands_enum_display, dict_display. simpl.
  repeat split;
    rewrite ?lookup_insert_ne by done; apply lookup_insert_eq.
Qed.

Lemma command_ordinal_entries :
  command_ordinal_display !! "REACH_GOAL"%string = Some 0 ∧
  command_ordinal_display !! "GO_STRAIGHT"%string = Some 1 ∧
  command_ordinal_display !! "TURN_RIGHT"%string = Some 2 ∧
  command_ordinal_display !! "TURN_LEFT"%string = Some 3 ∧
  command_ordinal_display !! "LANE_FOLLOW"%string = Some 4.
Proof. repeat split; vm_compute; reflexivity. Qed.

(** C10.  Let the five command codes of the planner be distinct.  In the
    imported module [COMMANDS_ENUM] has five entries, and on the names it
    yields [COMMAND_ORDINAL] is defined, takes values from [0] to
    [len(COMMANDS_ENUM) - 1], takes different values on different names,
    and takes every one of these values: each planner command has an
    index that is a value of [Discrete(len(COMMANDS_ENUM))]. *)
Theorem command_ordinal_indexes_commands h w0 :
  import_module h = Ok w0 →
  NoDup (planner_codes (h_planner_consts h)) →
  let enum := COMMANDS_ENUM (w_glob w0) in
  let ordinal := COMMAND_ORDINAL (w_glob w0) in
  size enum = 5%nat ∧
  (∀ k name, enum !! k = Some name →
     ∃ i, ordinal !! name = Some i ∧ 0 ≤ i < Z.of_nat (size enum)) ∧
  (∀ k1 k2 name1 name2 i,
     enum !! k1 = Some name1 → enum !! k2 = Some name2 →
     ordinal !! name1 = Some i → ordinal !! name2 = Some i →
     name1 = name2 ∧ k1 = k2) ∧
  (∀ i, 0 ≤ i < Z.of_nat (size enum) →
     ∃ k name, enum !! k = Some name ∧ ordinal !! name = Some i).
Proof.
  intros Himp Hnd enum ordinal.
  destruct (import_inv _ _ Himp) as (_ & _ & _ & Henum & Hord & _).
  unfold enum, ordinal. rewrite Henum, Hord. clear enum ordinal Henum Hord.
  set (pc := h_planner_consts h) in *.
  pose proof (commands_enum_size pc Hnd) as Hsize.
  pose proof (commands_enum_entries pc Hnd) as (E0 & E1 & E2 & E3 & E4).
  pose proof command_ordinal_entries as (O0 & O1 & O2 & O3 & O4).
  rewrite Hsize.
  split; [done|]. split; [|split].
  - intros k name Hk.
    destruct (commands_enum_lookup pc k name Hk)
      as [[_ ->]|[[_ ->]|[[_ ->]|[[_ ->]|[_ ->]]]]];
      eexists; (split; [eassumption|simpl; lia]).
  - intros k1 k2 name1 name2 i Hk1 Hk2 Hi1 Hi2.
    destruct (commands_enum_lookup pc k1 name1 Hk1)
      as [[-> ->]|[[-> ->]|[[-> ->]|[[-> ->]|[-> ->]]]]];
      destruct (commands_enum_lookup pc k2 name2 Hk2)
        as [[-> ->]|[[-> ->]|[[-> ->]|[[-> ->]|[-> ->]]]]];
      rewrite ?O0, ?O1, ?O2, ?O3, ?O4 in Hi1, Hi2;
      first [split; reflexivity | congruence].
  - intros i Hi.
    assert (Hcases : i = 0 ∨ i = 1 ∨ i = 2 ∨ i = 3 ∨ i = 4) by (simpl in Hi; lia).
    destruct Hcases as [->|[->|[->|[->| ->]]]]; eauto.
Qed.

Lemma command_ordinal_indexes_commands_witness :
  let enum := COMMANDS_ENUM (w_glob (Demo.imported 0)) in
  let ordinal := COMMAND_ORDINAL (w_glob (Demo.imported 0)) in
  size enum = 5%nat ∧
  (∀ k name, enum !! k = Some name →
     ∃ i, ordinal !! name = Some i ∧ 0 ≤ i < Z.of_nat (size enum)) ∧
  (∀ k1 k2 name1 name2 i,
     enum !! k1 = Some name1 → enum !! k2 = Some name2 →
     ordinal !! name1 = Some i → ordinal !! name2 = Some i →
     name1 = name2 ∧ k1 = k2) ∧
  (∀ i, 0 ≤ i < Z.of_nat (size enum) →
     ∃ k name, enum !! k = Some name ∧ ordinal !! name = Some i).
Proof.
  apply (command_ordinal_indexes_commands (Demo.host 0) (Demo.imported 0)).
  - apply demo_import_ok.
  - unfold planner_codes. simpl.
    rewrite !NoDup_cons, !not_elem_of_cons.
    repeat split; try lia; try apply not_elem_of_nil. apply NoDup_nil_2.
Defined.

(** * Further properties of the module *)

(** ** [cleanup] in general *)



(** ** The registry and the simulators started *)

Lemma spawned_pids_app evs1 evs2 :
  spawned_pids (evs1 ++ evs2) = spawned_pids evs1 ∪ spawned_pids evs2.
Proof.
  induction evs1 as [|ev evs1 IH]; simpl.
  - set_solver.
  - destruct ev as [| | | |argv ss out [pid|ex]| | | | |];
      rewrite ?IH; set_solver.
Qed.

Lemma elem_of_spawned_pids pid evs :
  pid ∈ spawned_pids evs ↔
  ∃ argv setsid out, In (EvPopen argv setsid out (Ok pid)) evs.
Proof.
  induction evs as [|ev evs IH]; simpl.
  - split; [set_solver|]. by intros (? & ? & ? & []).
  - split.
    + intros Hin.
      destruct ev as [| | | |argv ss out [pid'|ex]| | | | |];
        try (apply IH in Hin as (a & s & o & Hin); by eauto 6).
      apply elem_of_union in Hin as [Hin|Hin].
      * apply elem_of_singleton in Hin as ->. eauto 6.
      * apply IH in Hin as (a & s & o & Hin). eauto 6.
    + intros (a & s & o & [Heq|Hin]).
      * subst ev. set_solver.
      * assert (Hrec : pid ∈ spawned_pids evs) by (apply IH; eauto).
        destruct ev as [| | | |argv ss out [pid'|ex]| | | | |]; set_solver.
Qed.

Lemma spawned_pids_none (ok : Event → Prop) evs :
  (∀ ev, ok ev → is_popen ev = false) →
  Forall ok evs → spawned_pids evs = ∅.
Proof.
  intros Hok. induction 1 as [|ev evs Hev _ IH]; simpl; [done|].
  apply Hok in Hev. by destruct ev as [| | | |argv ss out [pid|ex]| | | | |].
Qed.

(** Each operation adds to the registry exactly the simulators it starts. *)
Lemma run_op_registry o w :
  ∃ evs,
    w_trace (run_op o w) = w_trace w ++ evs ∧
    live_carla_processes (run_op o w)
      = spawned_pids evs ∪ live_carla_processes w.
Proof.
  assert (Hquiet : ∀ w', frame quiet_event w w' →
            ∃ evs, w_trace w' = w_trace w ++ evs ∧
                   live_carla_processes w'
                     = spawned_pids evs ∪ live_carla_processes w).
  { intros w' (_ & _ & evs & Ht & Hall & Hl). exists evs. split; [done|].
    rewrite Hl.
    rewrite (registry_adds_none evs)
      by (eapply Forall_impl; [exact Hall|]; by intros [] ? ?).
    rewrite (spawned_pids_none quiet_event evs); [done| |done].
    by intros []. }
  destruct o as [config|self| |]; simpl.
  - apply Hquiet. by apply respects_CarlaEnv_call.
  - destruct (init_server_frame self w) as (_ & _ & evs & Ht & _ & _).
    exists evs. split; [exact Ht|].
    pose proof (new_events_app _ _ _ Ht) as Hnew.
    destruct (init_server_outcomes self w)
      as [Hev _ Hl | e sm ex _ _ Hev _ Hl | e sm pid evs2 _ _ _ _ Hev Hloop Hl];
      rewrite <- Hnew, Hev, Hl; simpl.
    + set_solver.
    + set_solver.
    + rewrite (spawned_pids_none loop_event evs2); [set_solver| |done].
      by intros [].
  - apply Hquiet. by apply respects_cleanup.
  - apply Hquiet. by apply respects_run_exit_hooks.
Qed.

Lemma run_ops_registry ops : ∀ w,
  ∃ evs,
    w_trace (run_ops ops w) = w_trace w ++ evs ∧
    live_carla_processes (run_ops ops w)
      = spawned_pids evs ∪ live_carla_processes w.
Proof.
  induction ops as [|o ops IH]; intros w.
  - exists []. simpl. rewrite app_nil_r. split; [done|]. set_solver.
  - simpl. destruct (run_op_registry o w) as (evs1 & Ht1 & Hl1).
    destruct (IH (run_op o w)) as (evs2 & Ht2 & Hl2).
    exists (evs1 ++ evs2). split.
    + rewrite Ht2, Ht1. by rewrite app_assoc.
    + rewrite Hl2, Hl1, spawned_pids_app. set_solver.
Qed.

Lemma registry_after_import h w0 ops :
  import_module h = Ok w0 →
  live_carla_processes (run_ops ops w0)
    = spawned_pids (w_trace (run_ops ops w0)).
Proof.
  intros Himp.
  destruct (import_inv _ _ Himp)
    as (_ & _ & _ & _ & _ & _ & _ & _ & Hl & Ht).
  destruct (run_ops_registry ops w0) as (evs & Hev & Hlive).
  rewrite Hlive, Hev, Hl, Ht. simpl. set_solver.
Qed.

(** X2.  In any world a program over the imported module reaches, the
    registry holds exactly the process groups of the simulators that a
    [Popen] of the program has started: every started simulator is
    registered, and nothing else ever is. *)
Theorem registry_is_the_set_of_started_simulators h w0 ops g :
  import_module h = Ok w0 →
  g ∈ live_carla_processes (run_ops ops w0) ↔
  ∃ argv setsid out,
    In (EvPopen argv setsid out (Ok g)) (w_trace (run_ops ops w0)).
Proof.
  intros Himp. rewrite (registry_after_import h w0 ops Himp).
  apply elem_of_spawned_pids.
Qed.

Lemma registry_is_the_set_of_started_simulators_witness :
  let ops := [CallCarlaEnv None; CallInitServer 0%nat; CallCleanup;
              CallInitServer 0%nat] in
  4243 ∈ live_carla_processes (run_ops ops (Demo.imported 0)) ↔
  ∃ argv setsid out,
    In (EvPopen argv setsid out (Ok 4243))
       (w_trace (run_ops ops (Demo.imported 0))).
Proof.
  intros ops.
  apply (registry_is_the_set_of_started_simulators (Demo.host 0)
           (Demo.imported 0) ops 4243).
  apply demo_import_ok.
Defined.

(** ** The exit hook *)





(** ** Hosts on which something goes wrong *)

(** ** [init_server] when the process cannot be started *)

(** X4.  When [Popen] raises, [init_server] ends with that exception.
    Nothing has been added to the registry or to the process table and no
    client has been constructed; but the port drawn for the call is
    already stored in [self.server_port], while [self.server_process] and
    [self.client] are what they were before the call. *)
Theorem init_server_popen_failure self w server_map ex :
  server_map_of self w = Some (VStr server_map) →
  h_popen (w_host w) (w_nspawn w) = Err ex →
  (init_server self w).1 = Err ex ∧
  new_events w (init_server self w).2 =
    [EvPrintInit;
     EvPopen [SERVER_BINARY (w_glob w); server_map; "-windowed"; "-ResX=400";
              "-ResY=300"; "-carla-server";
              "-carla-world-port=" +:+ pretty (drawn_port w)]%string
             true DevNull (Err ex)] ∧
  live_carla_processes (init_server self w).2 = live_carla_processes w ∧
  w_procs (init_server self w).2 = w_procs w ∧
  ∃ e e', w_heap w !! self = Some e ∧
          w_heap (init_server self w).2 !! self = Some e' ∧
          self_server_port e' = Some (drawn_port w) ∧
          self_server_process e' = self_server_process e ∧
          self_client e' = self_client e.
Proof.
  unfold server_map_of. intros Hmap Hpopen.
  destruct (w_heap w !! self) as [e|] eqn:He; [|done].
  rewrite init_server_run, He, Hmap, Hpopen.
  split; [done|]. split.
  { apply new_events_app. simpl. by rewrite <- !app_assoc. }
  split; [done|]. split; [done|].
  exists e, (with_server_port (Some (drawn_port w)) e).
  split; [done|]. split; [|done].
  simpl. apply list_lookup_insert_eq. eapply lookup_lt_Some; eauto.
Qed.

Lemma init_server_popen_failure_witness :
  let w := Faults.world Faults.host_no_spawn in
  (init_server 0%nat w).1 = Err OSError ∧
  new_events w (init_server 0%nat w).2 =
    [EvPrintInit;
     EvPopen [SERVER_BINARY (w_glob w); "/Game/Maps/Town02"; "-windowed";
              "-ResX=400"; "-ResY=300"; "-carla-server";
              "-carla-world-port=" +:+ pretty (drawn_port w)]%string
             true DevNull (Err OSError)] ∧
  live_carla_processes (init_server 0%nat w).2 = live_carla_processes w ∧
  w_procs (init_server 0%nat w).2 = w_procs w ∧
  ∃ e e', w_heap w !! 0%nat = Some e ∧
          w_heap (init_server 0%nat w).2 !! 0%nat = Some e' ∧
          self_server_port e' = Some (drawn_port w) ∧
          self_server_process e' = self_server_process e ∧
          self_client e' = self_client e.
Proof.
  intros w.
  apply (init_server_popen_failure 0%nat w "/Game/Maps/Town02" OSError).
  - vm_compute. reflexivity.
  - vm_compute. reflexivity.
Defined.

(** ** [init_server] called again *)

Lemma after_spawn_lookup self e server_map pid w :
  w_heap w !! self = Some e →
  w_heap (after_spawn self e server_map pid w) !! self =
    Some (with_server_process (Some pid)
            (with_server_port (Some (drawn_port w)) e)).
Proof.
  intros He. simpl. apply list_lookup_insert_eq.
  eapply lookup_lt_Some; eauto.
Qed.

(** In the module as it is imported a call that starts the simulator
    ends in the world where the new group has just been registered. *)
Lemma init_server_unbound_run self w server_map pid :
  retries_bound w = None →
  server_map_of self w = Some (VStr server_map) →
  h_popen (w_host w) (w_nspawn w) = Ok pid →
  ∃ e, w_heap w !! self = Some e ∧
       init_server self w =
         (Err (NameError "RETRIES_ON_ERROR"),
          after_spawn self e server_map pid w).
Proof.
  intros Hunbound Hmap Hpopen.
  destruct (init_server_spawned self w server_map pid Hmap Hpopen)
    as (e & He & Hrun).
  exists e. split; [done|].
  rewrite Hrun. by apply connect_phase_unbound.
Qed.

(** X5.  [init_server] does not look whether the environment already has
    a simulator.  In the imported module, two calls in a row on the same
    environment, each of whose [Popen] succeeds, start two processes and
    register both groups; no signal is sent to the first one;
    [self.server_process] and [self.server_port] refer to the second one
    only, and the first stays in the registry. *)
Theorem init_server_twice_starts_two_simulators h w0 ops self server_map p1 p2 :
  import_module h = Ok w0 →
  server_map_of self (run_ops ops w0) = Some (VStr server_map) →
  h_popen h (w_nspawn (run_ops ops w0)) = Ok p1 →
  h_popen h (S (w_nspawn (run_ops ops w0))) = Ok p2 →
  let w := run_ops ops w0 in
  let w2 := run_ops [CallInitServer self; CallInitServer self] w in
  count_ev is_popen (new_events w w2) = 2%nat ∧
  count_ev is_kill (new_events w w2) = 0%nat ∧
  live_carla_processes w2 = {[p2]} ∪ ({[p1]} ∪ live_carla_processes w) ∧
  ∃ e2, w_heap w2 !! self = Some e2 ∧
        self_server_process e2 = Some p2 ∧
        self_server_port e2 = Some (drawn_port (run_op (CallInitServer self) w)).
Proof.
  intros Himp Hmap Hp1 Hp2 w w2.
  assert (Hhost : w_host w = h).
  { unfold w. rewrite run_ops_host.
    by destruct (import_inv _ _ Himp) as (_ & -> & _). }
  pose proof (retries_unbound_after_import h w0 ops Himp) as Hunbound.
  fold w in Hunbound, Hmap, Hp1, Hp2.
  destruct (init_server_unbound_run self w server_map p1 Hunbound Hmap)
    as (e & He & Hrun1); [by rewrite Hhost|].
  set (w1 := after_spawn self e server_map p1 w) in *.
  set (e1 := with_server_process (Some p1)
               (with_server_port (Some (drawn_port w)) e)).
  assert (He1 : w_heap w1 !! self = Some e1)
    by (by apply after_spawn_lookup).
  assert (Hmap1 : server_map_of self w1 = Some (VStr server_map)).
  { unfold server_map_of in *. rewrite He1. by rewrite He in Hmap. }
  destruct (init_server_unbound_run self w1 server_map p2)
    as (e1' & He1' & Hrun2); [done | done | simpl; by rewrite Hhost |].
  rewrite He1 in He1'. injection He1' as <-.
  assert (Hw1 : run_op (CallInitServer self) w = w1)
    by (simpl; by rewrite Hrun1).
  assert (Hw2 : w2 = after_spawn self e1 server_map p2 w1).
  { unfold w2. simpl. rewrite Hrun1. simpl. by rewrite Hrun2. }
  rewrite Hw1, Hw2.
  assert (Hev : new_events w (after_spawn self e1 server_map p2 w1) =
            [EvPrintInit;
             EvPopen (spawn_argv (w_glob w) server_map (drawn_port w))
                     true DevNull (Ok p1);
             EvRegistryAdd p1;
             EvPrintInit;
             EvPopen (spawn_argv (w_glob w1) server_map (drawn_port w1))
                     true DevNull (Ok p2);
             EvRegistryAdd p2]).
  { apply new_events_app. rewrite after_spawn_trace. unfold w1 at 1.
    rewrite after_spawn_trace. by rewrite <- app_assoc. }
  rewrite Hev. split; [done|]. split; [done|]. split; [done|].
  eexists. split; [by apply after_spawn_lookup|]. done.
Qed.

Lemma init_server_twice_starts_two_simulators_witness :
  let w := run_ops [CallCarlaEnv None] (Demo.imported 0) in
  let w2 := run_ops [CallInitServer 0%nat; CallInitServer 0%nat] w in
  count_ev is_popen (new_events w w2) = 2%nat ∧
  count_ev is_kill (new_events w w2) = 0%nat ∧
  live_carla_processes w2 = {[4243]} ∪ ({[4242]} ∪ live_carla_processes w) ∧
  ∃ e2, w_heap w2 !! 0%nat = Some e2 ∧
        self_server_process e2 = Some 4243 ∧
        self_server_port e2
          = Some (drawn_port (run_op (CallInitServer 0%nat) w)).
Proof.
  apply (init_server_twice_starts_two_simulators (Demo.host 0)
           (Demo.imported 0) [CallCarlaEnv None] 0%nat "/Game/Maps/Town02"
           4242 4243).
  - apply demo_import_ok.
  - vm_compute. reflexivity.
  - vm_compute. reflexivity.
  - vm_compute. reflexivity.
Defined.

(** ** The port of the client *)

Lemma connect_loop_client_port self port indices : ∀ w,
  has_port self port w →
  ∃ evs,
    w_trace (connect_loop self indices w).2 = w_trace w ++ evs ∧
    Forall (client_for port) evs.
Proof.
  induction indices as [|i rest IH]; intros w Hport.
  - exists []. simpl. by rewrite app_nil_r.
  - destruct Hport as (e & He & Hp).
    rewrite (connect_loop_cons _ _ _ _ _ He).
    destruct (h_client (w_host w) (w_nconn w)) as [ex|ex|v] eqn:Hout.
    + cbv zeta. destruct (is_Exception ex).
      * edestruct (IH (handled ex i (with_nconn (S (w_nconn w))
                         (ctor_called (self_server_port e) w))))
          as (evs & Htr & Hall);
          [ apply has_port_handled; rewrite <- Hp; apply has_port_ctor;
            by exists e | ].
        exists ([EvCarlaClient "localhost" (self_server_port e);
                 EvPrintConnErr ex i; EvSleep 2] ++ evs).
        simpl in Htr.
        split; [rewrite Htr; by rewrite <- !app_assoc|].
        apply Forall_app. split; [|done].
        repeat constructor; done.
      * exists [EvCarlaClient "localhost" (self_server_port e)].
        split; [done|]. repeat constructor; done.
    + cbv zeta. destruct (is_Exception ex).
      * edestruct (IH (handled ex i (connect_called self e w)))
          as (evs & Htr & Hall);
          [ apply has_port_handled; by apply has_port_connect | ].
        exists ([EvCarlaClient "localhost" (self_server_port e); EvConnect;
                 EvPrintConnErr ex i; EvSleep 2] ++ evs).
        simpl in Htr.
        split; [rewrite Htr; by rewrite <- !app_assoc|].
        apply Forall_app. split; [|done].
        repeat constructor; done.
      * exists [EvCarlaClient "localhost" (self_server_port e); EvConnect].
        split; [simpl; by rewrite <- app_assoc|].
        repeat constructor; done.
    + exists [EvCarlaClient "localhost" (self_server_port e); EvConnect].
      split; [simpl; by rewrite <- app_assoc|].
      repeat constructor; done.
Qed.

Lemma connect_phase_client_port self port w :
  has_port self port w →
  ∃ evs,
    w_trace (connect_phase self w).2 = w_trace w ++ evs ∧
    Forall (client_for port) evs.
Proof.
  intros Hport. unfold connect_phase.
  rewrite bind_run. unfold lookup_global at 1.
  destruct (injected (w_glob w) !! "RETRIES_ON_ERROR"%string) as [v|].
  2:{ exists []. simpl. by rewrite app_nil_r. }
  rewrite bind_run. unfold lift at 1.
  destruct (py_range v) as [indices|ex].
  2:{ exists []. simpl. by rewrite app_nil_r. }
  by apply connect_loop_client_port.
Qed.

Lemma connect_loop_keeps_port self port indices : ∀ w,
  has_port self port w → has_port self port (connect_loop self indices w).2.
Proof.
  induction indices as [|i rest IH]; intros w Hport; [done|].
  destruct Hport as (e & He & Hp).
  rewrite (connect_loop_cons _ _ _ _ _ He).
  destruct (h_client (w_host w) (w_nconn w)) as [ex|ex|v];
    cbv zeta; try destruct (is_Exception ex).
  - apply IH. apply has_port_handled. rewrite <- Hp.
    apply has_port_ctor. by exists e.
  - by exists e.
  - apply IH. apply has_port_handled. by apply has_port_connect.
  - by apply has_port_connect.
  - by apply has_port_connect.
Qed.

Lemma connect_phase_keeps_port self port w :
  has_port self port w → has_port self port (connect_phase self w).2.
Proof.
  intros Hport. unfold connect_phase.
  rewrite bind_run. unfold lookup_global at 1.
  destruct (injected (w_glob w) !! "RETRIES_ON_ERROR"%string) as [v|];
    [|done].
  rewrite bind_run. unfold lift at 1.
  destruct (py_range v) as [indices|ex]; [|done].
  by apply connect_loop_keeps_port.
Qed.

(** X6.  Whenever [init_server] constructs a client, it is a client for
    ["localhost"] and for the port of this call: the port that was drawn
    and stored in [self.server_port], and the one the simulator started
    by the same call was given in its [-carla-world-port=] argument. *)
Theorem client_uses_the_port_of_the_server self w host port :
  In (EvCarlaClient host port) (new_events w (init_server self w).2) →
  host = "localhost"%string ∧
  port = Some (drawn_port w) ∧
  10000 ≤ drawn_port w ≤ 60000 ∧
  (∃ argv args pid,
     In (EvPopen argv true DevNull (Ok pid))
        (new_events w (init_server self w).2) ∧
     argv = args ++ ["-carla-world-port=" +:+ pretty (drawn_port w)]%string) ∧
  ∃ e', w_heap (init_server self w).2 !! self = Some e' ∧
        self_server_port e' = Some (drawn_port w).
Proof.
  intros Hin.
  destruct (init_server_outcomes self w)
    as [Hev _ _ | e sm ex _ _ Hev _ _ | e sm pid evs He _ _ Hrun Hev _ _].
  - rewrite Hev in Hin. simpl in Hin. destruct Hin as [Heq|[]]. discriminate.
  - rewrite Hev in Hin. simpl in Hin.
    destruct Hin as [Heq|[Heq|[]]]; discriminate.
  - pose proof (after_spawn_has_port self e sm pid w He) as Hport.
    destruct (connect_phase_client_port self _ _ Hport)
      as (evs' & Ht & Hall).
    rewrite <- Hrun in Ht.
    assert (Hevs : evs' = evs).
    { rewrite after_spawn_trace, <- app_assoc in Ht.
      pose proof (new_events_app w _ _ Ht) as Hnew.
      rewrite Hev in Hnew. by apply app_inv_head in Hnew. }
    subst evs'.
    assert (Hcl : host = "localhost"%string ∧ port = Some (drawn_port w)).
    { rewrite Hev in Hin. simpl in Hin.
      destruct Hin as [Heq|[Heq|[Heq|Hin]]]; try discriminate.
      rewrite Forall_forall in Hall.
      apply list_elem_of_In in Hin. exact (Hall _ Hin). }
    destruct Hcl as (-> & ->).
    split; [done|]. split; [done|]. split; [apply drawn_port_range|].
    split.
    + exists (spawn_argv (w_glob w) sm (drawn_port w)),
             [SERVER_BINARY (w_glob w); sm; "-windowed"; "-ResX=400";
              "-ResY=300"; "-carla-server"]%string, pid.
      split; [|done]. rewrite Hev. right. left. done.
    + rewrite Hrun. destruct (connect_phase_keeps_port self _ _ Hport)
        as (e' & He' & Hp'). by exists e'.
Qed.

Lemma client_uses_the_port_of_the_server_witness :
  let w := Demo.world_retries 1 3 in
  "localhost"%string = "localhost"%string ∧
  Some 33454 = Some (drawn_port w) ∧
  10000 ≤ drawn_port w ≤ 60000 ∧
  (∃ argv args pid,
     In (EvPopen argv true DevNull (Ok pid))
        (new_events w (init_server 0%nat w).2) ∧
     argv = args ++ ["-carla-world-port=" +:+ pretty (drawn_port w)]%string) ∧
  ∃ e', w_heap (init_server 0%nat w).2 !! 0%nat = Some e' ∧
        self_server_port e' = Some (drawn_port w).
Proof.
  intros w.
  apply (client_uses_the_port_of_the_server 0%nat w "localhost" (Some 33454)).
  vm_compute. do 3 right. left. reflexivity.
Defined.

(** ** Exceptions the handler does not catch *)

(** The first [k] passes fail in a way the handler catches and pass [k]
    raises an exception that is no [Exception]: it leaves the loop, and
    with it the function, at once. *)
Lemma connect_loop_uncaught self port indices : ∀ w k ex,
  has_port self port w →
  (k < length indices)%nat →
  (∀ j, (j < k)%nat → caught (h_client (w_host w) (w_nconn w + j)) = true) →
  (h_client (w_host w) (w_nconn w + k) = CtorRaises ex ∨
   h_client (w_host w) (w_nconn w + k) = ConnectRaises ex) →
  is_Exception ex = false →
  ∃ w' evs,
    connect_loop self indices w = (Err ex, w') ∧
    w_trace w' = w_trace w ++ evs ∧
    count_ev is_ctor_event evs = S k ∧
    count_ev is_sleep evs = k.
Proof.
  induction indices as [|i rest IH]; intros w k ex Hport Hk Hbefore Hat Hex.
  - simpl in Hk. lia.
  - destruct Hport as (e & He & Hp).
    rewrite (connect_loop_cons _ _ _ _ _ He).
    destruct k as [|k].
    + rewrite Nat.add_0_r in Hat. destruct Hat as [Hat|Hat]; rewrite Hat.
      * cbv zeta. rewrite Hex.
        exists (with_nconn (S (w_nconn w))
                  (ctor_called (self_server_port e) w)),
               [EvCarlaClient "localhost" (self_server_port e)].
        done.
      * cbv zeta. rewrite Hex.
        exists (connect_called self e w),
               [EvCarlaClient "localhost" (self_server_port e); EvConnect].
        split; [done|]. split; [simpl; by rewrite <- app_assoc|]. done.
    + assert (H0 := Hbefore 0%nat ltac:(lia)).
      rewrite Nat.add_0_r in H0.
      assert (Hbefore' : ∀ j, (j < k)%nat →
                caught (h_client (w_host w) (S (w_nconn w) + j)) = true).
      { intros j Hj. specialize (Hbefore (S j) ltac:(lia)).
        rewrite Nat.add_succ_r in Hbefore. exact Hbefore. }
      assert (Hat' : h_client (w_host w) (S (w_nconn w) + k) = CtorRaises ex ∨
                     h_client (w_host w) (S (w_nconn w) + k) = ConnectRaises ex).
      { rewrite Nat.add_succ_r in Hat. exact Hat. }
      simpl in Hk.
      destruct (h_client (w_host w) (w_nconn w)) as [ex0|ex0|v0] eqn:Hout;
        simpl in H0; [| |done]; rewrite H0.
      * edestruct (IH (handled ex0 i (with_nconn (S (w_nconn w))
                         (ctor_called (self_server_port e) w))) k ex)
          as (w' & evs & Hrun & Htr & Hc & Hs);
          [ apply has_port_handled; rewrite <- Hp; apply has_port_ctor;
            by exists e
          | lia | exact Hbefore' | exact Hat' | exact Hex | ].
        exists w', ([EvCarlaClient "localhost" (self_server_port e);
                     EvPrintConnErr ex0 i; EvSleep 2] ++ evs).
        split; [exact Hrun|]. simpl in Htr.
        split; [rewrite Htr; by rewrite <- !app_assoc|].
        rewrite !count_ev_app. rewrite Hc, Hs. done.
      * edestruct (IH (handled ex0 i (connect_called self e w)) k ex)
          as (w' & evs & Hrun & Htr & Hc & Hs);
          [ apply has_port_handled; by apply has_port_connect
          | lia | exact Hbefore' | exact Hat' | exact Hex | ].
        exists w', ([EvCarlaClient "localhost" (self_server_port e);
                     EvConnect; EvPrintConnErr ex0 i; EvSleep 2] ++ evs).
        split; [exact Hrun|]. simpl in Htr.
        split; [rewrite Htr; by rewrite <- !app_assoc|].
        rewrite !count_ev_app. rewrite Hc, Hs. done.
Qed.

(** With the simulator started and the bound set, [init_server] is the
    retry loop run in the world after the spawn. *)
Lemma init_server_is_loop self w server_map pid n :
  server_map_of self w = Some (VStr server_map) →
  h_popen (w_host w) (w_nspawn w) = Ok pid →
  retries_bound w = Some (VInt n) →
  ∃ e,
    w_heap w !! self = Some e ∧
    init_server self w =
      connect_loop self (Z.of_nat <$> seq 0 (Z.to_nat n))
        (after_spawn self e server_map pid w) ∧
    has_port self (Some (drawn_port w)) (after_spawn self e server_map pid w) ∧
    ∀ evs,
      w_trace (init_server self w).2 =
        w_trace (after_spawn self e server_map pid w) ++ evs →
      new_events w (init_server self w).2 =
        [EvPrintInit;
         EvPopen (spawn_argv (w_glob w) server_map (drawn_port w))
                 true DevNull (Ok pid);
         EvRegistryAdd pid] ++ evs.
Proof.
  intros Hmap Hpopen Hn.
  destruct (init_server_spawned self w server_map pid Hmap Hpopen)
    as (e & He & Hrun).
  exists e. split; [done|].
  assert (HnW : retries_bound (after_spawn self e server_map pid w)
                = Some (VInt n)) by exact Hn.
  rewrite (connect_phase_bound _ _ _ HnW) in Hrun.
  split; [exact Hrun|]. split; [by apply after_spawn_has_port|].
  intros evs Ht. apply new_events_app. rewrite Ht.
  rewrite after_spawn_trace. by rewrite <- app_assoc.
Qed.

(** X7.  The handler of the retry loop is [except Exception].  When an
    attempt raises an exception that is not of class [Exception], such as
    [KeyboardInterrupt], and the attempts before it were caught,
    [init_server] ends with that exception at once: no further attempt
    is made and no sleep follows it.  The simulator started by the call
    stays registered. *)
Theorem init_server_lets_other_exceptions_through
    self w server_map pid n k ex :
  server_map_of self w = Some (VStr server_map) →
  h_popen (w_host w) (w_nspawn w) = Ok pid →
  retries_bound w = Some (VInt n) →
  (k < Z.to_nat n)%nat →
  (∀ j, (j < k)%nat → caught (h_client (w_host w) (w_nconn w + j)) = true) →
  (h_client (w_host w) (w_nconn w + k) = CtorRaises ex ∨
   h_client (w_host w) (w_nconn w + k) = ConnectRaises ex) →
  is_Exception ex = false →
  (init_server self w).1 = Err ex ∧
  count_ev is_ctor_event (new_events w (init_server self w).2) = S k ∧
  count_ev is_sleep (new_events w (init_server self w).2) = k ∧
  pid ∈ live_carla_processes (init_server self w).2.
Proof.
  intros Hmap Hpopen Hn Hk Hbefore Hat Hex.
  destruct (init_server_is_loop self w server_map pid n Hmap Hpopen Hn)
    as (e & He & Hrun & Hport & Hprefix).
  set (W := after_spawn self e server_map pid w) in *.
  destruct (connect_loop_uncaught self _ (Z.of_nat <$> seq 0 (Z.to_nat n))
              W k ex Hport)
    as (w' & evs & Hloop & Ht & Hc & Hs);
    [by rewrite length_fmap, length_seq | exact Hbefore | exact Hat
    | exact Hex |].
  assert (Hlive : live_carla_processes (init_server self w).2
                  = live_carla_processes W).
  { rewrite Hrun.
    apply (frame_live_same loop_event); [by intros [] ? ?|].
    by apply respects_connect_loop. }
  rewrite Hrun, Hloop in Hprefix. rewrite Hrun, Hloop in Hlive.
  rewrite Hrun, Hloop. cbn [fst snd] in *.
  rewrite (Hprefix evs Ht), !count_ev_app, Hc, Hs, Hlive.
  repeat split; try done. simpl. set_solver.
Qed.

Lemma init_server_lets_other_exceptions_through_witness :
  let w := Demo.inject "RETRIES_ON_ERROR" (VInt 4)
             (Faults.world Faults.host_interrupted) in
  (init_server 0%nat w).1 = Err KeyboardInterrupt ∧
  count_ev is_ctor_event (new_events w (init_server 0%nat w).2) = 2%nat ∧
  count_ev is_sleep (new_events w (init_server 0%nat w).2) = 1%nat ∧
  4242 ∈ live_carla_processes (init_server 0%nat w).2.
Proof.
  intros w.
  apply (init_server_lets_other_exceptions_through 0%nat w
           "/Game/Maps/Town02" 4242 4 1 KeyboardInterrupt).
  - vm_compute. reflexivity.
  - vm_compute. reflexivity.
  - vm_compute. reflexivity.
  - vm_compute. lia.
  - intros j Hj. assert (j = 0%nat) as -> by lia. vm_compute. reflexivity.
  - right. vm_compute. reflexivity.
  - reflexivity.
Defined.

(** ** What [__init__] reads *)

Lemma same_but_config_bind {A} c1 c2 (c : M A) (k1 k2 : A → M CarlaEnv) w :
  (∀ a w1, same_but_config c1 c2 (k1 a w1) (k2 a w1)) →
  same_but_config c1 c2 (bind c k1 w) (bind c k2 w).
Proof.
  intros Hk. rewrite !bind_run.
  destruct (c w) as [[a|ex] w1]; [apply Hk | done].
Qed.

(** X8.  [__init__] reads six keys of the configuration and no other.
    Two configurations that agree on [server_map], [enable_planner],
    [use_depth_camera], [y_res], [x_res] and [framestack] behave alike in
    the same world: both raise the same exception or both construct
    environments that differ in nothing but the configuration stored in
    [self.config], and the world afterwards is the same. *)
Theorem init_depends_on_six_keys w c1 c2 :
  (∀ k, k ∈ read_keys → c1 !! k = c2 !! k) →
  (__init__ c1 w).2 = (__init__ c2 w).2 ∧
  match (__init__ c1 w).1, (__init__ c2 w).1 with
  | Ok e1, Ok e2 =>
      self_config e1 = c1 ∧ self_config e2 = c2 ∧ with_config c2 e1 = e2
  | Err x1, Err x2 => x1 = x2
  | _, _ => False
  end.
Proof.
  intros Hkeys.
  assert (Hget : ∀ k, k ∈ read_keys → dict_getitem c1 k = dict_getitem c2 k).
  { intros k Hk. unfold dict_getitem. by rewrite (Hkeys k Hk). }
  change (same_but_config c1 c2 (__init__ c1 w) (__init__ c2 w)).
  unfold __init__.
  rewrite !(Hget "server_map"%string), !(Hget "enable_planner"%string),
    !(Hget "use_depth_camera"%string), !(Hget "y_res"%string),
    !(Hget "x_res"%string), !(Hget "framestack"%string)
    by (unfold read_keys; set_solver).
  apply same_but_config_bind; intros server_map w1.
  apply same_but_config_bind; intros city_name w2.
  apply same_but_config_bind; intros ep w3.
  apply same_but_config_bind; intros planner w4.
  apply same_but_config_bind; intros d w5.
  apply same_but_config_bind; intros image w6.
  apply same_but_config_bind; intros glob w7.
  apply same_but_config_bind; intros seed w8.
  done.
Qed.

Lemma init_depends_on_six_keys_witness :
  let w := Demo.imported 0 in
  let c1 := ENV_CONFIG (w_glob w) in
  let c2 := <["verbose"%string := VBool true]>
              (delete "scenarios"%string (delete "seed"%string c1)) in
  is_Ok (__init__ c1 w).1 = true ∧
  (__init__ c1 w).2 = (__init__ c2 w).2 ∧
  match (__init__ c1 w).1, (__init__ c2 w).1 with
  | Ok e1, Ok e2 =>
      self_config e1 = c1 ∧ self_config e2 = c2 ∧ with_config c2 e1 = e2
  | Err x1, Err x2 => x1 = x2
  | _, _ => False
  end.
Proof.
  intros w c1 c2. split; [vm_compute; reflexivity|].
  apply (init_depends_on_six_keys w c1 c2).
  intros k Hk. unfold c2.
  rewrite lookup_insert_ne, !lookup_delete_ne;
    [done|..]; intros <-; unfold read_keys in Hk;
    repeat (apply elem_of_cons in Hk as [Hk|Hk]; [discriminate Hk|]);
    by apply elem_of_nil in Hk.
Defined.

(** ** The city *)

Lemma no_slash_cons ch s :
  ch ≠ "/"%char → no_slash s → no_slash (String ch s).
Proof.
  intros Hch Hs [|ch' a] b Heq; simpl in Heq.
  - injection Heq as -> _. done.
  - injection Heq as _ Heq. by apply (Hs a b).
Qed.

(** The last piece of [s.split("/")] has no slash, and [s] is that piece
    alone or a directory, a slash and that piece. *)
Lemma str_split_last_spec s :
  no_slash (List.last (str_split "/" s) "") ∧
  ((str_split "/" s = [s] ∧ List.last (str_split "/" s) "" = s) ∨
   (∃ dir piece rest,
      str_split "/" s = piece :: rest ∧ rest ≠ [] ∧
      s = dir +:+ String "/"%char (List.last (str_split "/" s) ""))).
Proof.
  induction s as [|ch s IH].
  - simpl. split; [by intros [|? ?] ?|]. by left.
  - destruct IH as (Hns & Hshape). simpl.
    destruct (Ascii.eqb ch "/") eqn:Hch.
    + apply Ascii.eqb_eq in Hch as ->.
      assert (Hlast : List.last ("" :: str_split "/" s) ""
                      = List.last (str_split "/" s) "").
      { destruct Hshape as [[Hs _]|(dir & piece & rest & Hs & _ & _)];
          by rewrite Hs. }
      rewrite Hlast. split; [exact Hns|]. right.
      destruct Hshape as [[Hs Hl]|(dir & piece & rest & Hs & Hrest & Heq)].
      * exists ""%string, ""%string, [s]. rewrite Hs.
        split; [done|]. split; [done|]. done.
      * exists (String "/" dir), ""%string, (piece :: rest).
        split; [by rewrite Hs|]. split; [done|].
        rewrite Heq at 1. reflexivity.
    + apply Ascii.eqb_neq in Hch.
      destruct Hshape as [[Hs Hl]|(dir & piece & rest & Hs & Hrest & Heq)].
      * rewrite Hs. simpl. split.
        -- apply no_slash_cons; [done|]. by rewrite <- Hl.
        -- by left.
      * rewrite Hs in *.
        assert (Hlast : List.last (String ch piece :: rest) ""
                        = List.last (piece :: rest) "").
        { destruct rest; [done|reflexivity]. }
        rewrite Hlast. split; [exact Hns|]. right.
        exists (String ch dir), (String ch piece), rest.
        split; [done|]. split; [done|].
        rewrite Heq at 1. reflexivity.
Qed.

(** A predicate on the outcome of a computation holds after a [bind] when
    it holds for the failure of the first part and for the second part in
    the world the first part leaves. *)
Lemma bind_cases {A B} (P : Res B * World → Prop) (c : M A) (k : A → M B) w :
  (∀ e w1, c w = (Err e, w1) → P (Err e, w1)) →
  (∀ a w1, c w = (Ok a, w1) → P (k a w1)) →
  P (bind c k w).
Proof.
  intros Herr Hok. rewrite bind_run.
  destruct (c w) as [[a|e] w1]; [by apply Hok | by apply Herr].
Qed.

Lemma lift_inv {A} (r : Res A) w x w1 :
  lift r w = (x, w1) → x = r ∧ w1 = w.
Proof. unfold lift. by intros [= <- <-]. Qed.

(** X9.  The city of a new environment is the part of
    [config["server_map"]] after its last slash: it contains no slash,
    and the map is the city alone or some directory, a slash and the
    city.  The planner is built for that city, once, when
    [enable_planner] is true; when it is false [__init__] calls nothing
    and leaves [self.planner] unset. *)
Theorem init_city_is_last_segment config w env w' server_map ep :
  __init__ config w = (Ok env, w') →
  config !! "server_map"%string = Some (VStr server_map) →
  config !! "enable_planner"%string = Some ep →
  no_slash (self_city env) ∧
  (server_map = self_city env ∨
   ∃ dir, server_map = dir +:+ "/" +:+ self_city env) ∧
  self_planner env = (if truthy ep then Some (self_city env) else None) ∧
  new_events w w' = (if truthy ep then [EvPlanner (self_city env)] else []).
Proof.
  intros Hrun Hsm Hep.
  set (city := List.last (str_split "/" server_map) "").
  assert (Hgoal :
    (λ r : Res CarlaEnv * World,
       match r.1 with
       | Ok env =>
           self_city env = city ∧
           self_planner env = (if truthy ep then Some city else None) ∧
           new_events w r.2 = (if truthy ep then [EvPlanner city] else [])
       | Err _ => True
       end) (__init__ config w)).
  { unfold __init__.
    apply bind_cases; [done|]. intros sm w1 [Heq ->]%lift_inv.
    unfold dict_getitem in Heq. rewrite Hsm in Heq. injection Heq as ->.
    apply bind_cases; [done|]. intros city_name w1 [Heq ->]%lift_inv.
    injection Heq as ->. fold city.
    apply bind_cases; [done|]. intros ep' w1 [Heq ->]%lift_inv.
    unfold dict_getitem in Heq. rewrite Hep in Heq. injection Heq as ->.
    apply bind_cases; [done|]. intros planner w1 Hplanner.
    assert (Hp : planner = (if truthy ep then Some city else None) ∧
                 new_events w w1 = (if truthy ep then [EvPlanner city] else [])).
    { destruct (truthy ep).
      - rewrite bind_run in Hplanner. unfold Planner at 1 in Hplanner.
        rewrite bind_run in Hplanner. unfold emit at 1 in Hplanner.
        cbv beta iota in Hplanner.
        destruct (h_planner _ city); [discriminate|].
        unfold ret in Hplanner. injection Hplanner as <- <-.
        split; [done|]. by apply new_events_app.
      - unfold ret in Hplanner. injection Hplanner as <- <-.
        split; [done|]. apply new_events_same. }
    destruct Hp as (-> & Hev).
    apply bind_cases; [done|]. intros d w2 [_ ->]%lift_inv.
    apply bind_cases; [done|]. intros image w2 Himage.
    assert (w2 = w1) as ->.
    { destruct (truthy d);
        unfold bind, lift, ret in Himage;
        destruct (dict_getitem config "y_res");
        destruct (dict_getitem config "x_res");
        destruct (dict_getitem config "framestack");
        try destruct (py_int_mul _ _); by injection Himage. }
    apply bind_cases; [done|]. intros glob w2 Hglob.
    unfold globals in Hglob. injection Hglob as _ <-.
    apply bind_cases; [done|]. intros seed w2 [_ ->]%lift_inv.
    simpl. done. }
  cbv beta in Hgoal. rewrite Hrun in Hgoal. simpl in Hgoal.
  destruct Hgoal as (Hcity & Hplanner & Hev).
  rewrite Hcity. split; [apply str_split_last_spec|].
  split; [|done].
  destruct (str_split_last_spec server_map)
    as (_ & [[_ Hl]|(dir & _ & _ & _ & _ & Heq)]).
  - left. by rewrite <- Hl at 1.
  - right. exists dir. exact Heq.
Qed.

Lemma init_city_is_last_segment_witness :
  let w := Demo.imported 0 in
  let r := __init__ (ENV_CONFIG (w_glob w)) w in
  ∃ env,
    r.1 = Ok env ∧
    no_slash (self_city env) ∧
    ("/Game/Maps/Town02"%string = self_city env ∨
     ∃ dir, "/Game/Maps/Town02"%string = dir +:+ "/" +:+ self_city env) ∧
    self_planner env
      = (if truthy (VBool true) then Some (self_city env) else None) ∧
    new_events w r.2
      = (if truthy (VBool true) then [EvPlanner (self_city env)] else []).
Proof.
  intros w r.
  destruct r as [[env|ex] w'] eqn:Hr.
  - exists env. split; [reflexivity|].
    apply (init_city_is_last_segment (ENV_CONFIG (w_glob w)) w env w'
             "/Game/Maps/Town02" (VBool true) Hr).
    + vm_compute. reflexivity.
    + vm_compute. reflexivity.
  - exfalso.
    assert (Hok : is_Ok (__init__ (ENV_CONFIG (w_glob w)) w).1 = true)
      by (vm_compute; reflexivity).
    unfold r in Hr. rewrite Hr in Hok. discriminate Hok.
Defined.

(** ** The default configuration *)

Lemma import_env_config h w0 :
  import_module h = Ok w0 →
  ∃ c lane_keep,
    city (w_glob w0) = VStr c ∧
    ENV_CONFIG (w_glob w0)
      = env_config_display (VStr ("/Game/Maps/" +:+ c)) lane_keep.
Proof.
  unfold import_module. intros H.
  unfold rbind at 1 in H. unfold py_assert in H.
  destruct (bool_decide (server_binary_path h ∈ h_paths h)); [|discriminate].
  repeat match type of H with
         | rbind ?r _ = _ =>
             destruct r eqn:?; unfold rbind at 1 in H; [|discriminate]
         end.
  injection H as <-. simpl.
  match goal with
  | Hadd : py_str_add _ ?v = Ok _ |- _ =>
      destruct v; try discriminate Hadd; injection Hadd as <-
  end.
  eauto.
Qed.

Lemma env_config_lookups server_map lane_keep :
  let c := env_config_display server_map lane_keep in
  c !! "server_map"%string = Some server_map ∧
  c !! "enable_planner"%string = Some (VBool true) ∧
  c !! "use_depth_camera"%string = Some (VBool false) ∧
  c !! "y_res"%string = Some (VInt 80) ∧
  c !! "x_res"%string = Some (VInt 80) ∧
  c !! "framestack"%string = Some (VInt 2) ∧
  c !! "seed"%string = Some (VInt 1).
Proof.
  unfold env_config_display, dict_display. simpl.
  repeat split; rewrite ?lookup_insert_ne by done; apply lookup_insert_eq.
Qed.

Lemma init_keeps_heap config w :
  w_heap (__init__ config w).2 = w_heap w.
Proof.
  pattern (__init__ config w). unfold __init__.
  apply bind_cases; [by intros ? ? [_ ->]%lift_inv|].
  intros sm ? [_ ->]%lift_inv.
  apply bind_cases; [by intros ? ? [_ ->]%lift_inv|].
  intros city_name ? [_ ->]%lift_inv.
  apply bind_cases; [by intros ? ? [_ ->]%lift_inv|].
  intros ep ? [_ ->]%lift_inv.
  assert (Hplanner : ∀ x w1,
            (if truthy ep
             then let* p := Planner city_name in ret (Some p)
             else ret None) w = (x, w1) → w_heap w1 = w_heap w).
  { intros x w1. destruct (truthy ep).
    - rewrite bind_run. unfold Planner at 1. rewrite bind_run.
      unfold emit at 1. cbv beta iota.
      destruct (h_planner _ city_name); by intros [= <- <-].
    - by intros [= <- <-]. }
  apply bind_cases; [intros e w1 Hp; by apply Hplanner in Hp|].
  intros planner w1 Hp. apply Hplanner in Hp. rewrite <- Hp.
  apply bind_cases; [by intros ? ? [_ ->]%lift_inv|].
  intros d ? [_ ->]%lift_inv.
  assert (Himage : ∀ x w2,
            (if truthy d
             then
               let* y_res := lift (dict_getitem config "y_res") in
               let* x_res := lift (dict_getitem config "x_res") in
               let* framestack := lift (dict_getitem config "framestack") in
               let* channels := lift (py_int_mul 1 framestack) in
               ret (Box (-1) 1 [y_res; x_res; channels] float32)
             else
               let* y_res := lift (dict_getitem config "y_res") in
               let* x_res := lift (dict_getitem config "x_res") in
               let* framestack := lift (dict_getitem config "framestack") in
               let* channels := lift (py_int_mul 3 framestack) in
               ret (Box 0 255 [y_res; x_res; channels] float32)) w1
            = (x, w2) → w2 = w1).
  { intros x w2. destruct (truthy d);
      unfold bind, lift, ret;
      destruct (dict_getitem config "y_res");
      destruct (dict_getitem config "x_res");
      destruct (dict_getitem config "framestack");
      try destruct (py_int_mul _ _); by intros [= <- <-]. }
  apply bind_cases; [intros e w2 Hi; by apply Himage in Hi as ->|].
  intros image w2 Hi. apply Himage in Hi as ->.
  apply bind_cases; [by intros ? ? [= _ <-]|].
  intros glob ? [= _ <-].
  apply bind_cases; [by intros ? ? [_ ->]%lift_inv|].
  by intros seed ? [_ ->]%lift_inv.
Qed.

(** X10.  The default configuration fits the constructor.  In any world
    reached from the import, [CarlaEnv()] without an argument constructs
    an environment whenever the planner can be built for the city of the
    default map: the new object gets the next free reference and the
    objects already there stay as they are; its configuration is
    [ENV_CONFIG], its image space is the box [(80, 80, 6)] over [0..255],
    its seed is [1], and it has no server process. *)
Theorem default_environment_constructs h w0 ops :
  import_module h = Ok w0 →
  (∀ server_map,
     ENV_CONFIG (w_glob w0) !! "server_map"%string = Some (VStr server_map) →
     h_planner h (List.last (str_split "/" server_map) "") = None) →
  let w := run_ops ops w0 in
  ∃ env,
    (CarlaEnv_call None w).1 = Ok (length (w_heap w)) ∧
    w_heap (CarlaEnv_call None w).2 = w_heap w ++ [env] ∧
    self_config env = ENV_CONFIG (w_glob w) ∧
    self_observation_space env =
      Tuple [Box 0 255 [VInt 80; VInt 80; VInt 6] float32;
             Discrete (Z.of_nat (size (COMMANDS_ENUM (w_glob w))));
             Box (-128) 128 [VInt 2] float32] ∧
    self__seed env = VInt 1 ∧
    self_server_port env = None ∧
    self_server_process env = None ∧
    self_client env = None.
Proof.
  intros Himp Hplanner w.
  destruct (import_env_config _ _ Himp) as (c & lk & _ & Hcfg).
  assert (Hg : w_glob w = w_glob w0) by apply run_ops_glob.
  assert (Hh : w_host w = h).
  { unfold w. rewrite run_ops_host.
    by destruct (import_inv _ _ Himp) as (_ & -> & _). }
  destruct (env_config_lookups (VStr ("/Game/Maps/" +:+ c)) lk)
    as (Lsm & Lep & Ld & Ly & Lx & Lfs & Lseed).
  rewrite <- Hcfg, <- Hg in Lsm, Lep, Ld, Ly, Lx, Lfs, Lseed.
  destruct (init_runs (ENV_CONFIG (w_glob w)) w _ _ _ _ _ _ _ _
              Lsm eq_refl Lep
              ltac:(intros _; rewrite Hh; apply Hplanner;
                    by rewrite <- Hg) Ld Ly Lx Lfs Lseed)
    as (env & w' & Hrun & Hobs & Hseed & Hconfig & _).
  destruct (init_inv _ _ _ _ Hrun)
    as (_ & Hport & Hproc & Hcl & _).
  pose proof (init_keeps_heap (ENV_CONFIG (w_glob w)) w) as Hheap.
  rewrite Hrun in Hheap. simpl in Hheap.
  exists env.
  assert (Hcall : CarlaEnv_call None w =
            (Ok (length (w_heap w)), with_heap (w_heap w ++ [env]) w')).
  { unfold CarlaEnv_call. rewrite bind_run. unfold globals at 1. simpl.
    rewrite bind_run, Hrun. unfold alloc. by rewrite Hheap. }
  rewrite Hcall. simpl. repeat split; done.
Qed.

Lemma default_environment_constructs_witness :
  let w := run_ops [CallCarlaEnv None; CallInitServer 0%nat]
             (Demo.imported 0) in
  ∃ env,
    (CarlaEnv_call None w).1 = Ok (length (w_heap w)) ∧
    w_heap (CarlaEnv_call None w).2 = w_heap w ++ [env] ∧
    self_config env = ENV_CONFIG (w_glob w) ∧
    self_observation_space env =
      Tuple [Box 0 255 [VInt 80; VInt 80; VInt 6] float32;
             Discrete (Z.of_nat (size (COMMANDS_ENUM (w_glob w))));
             Box (-128) 128 [VInt 2] float32] ∧
    self__seed env = VInt 1 ∧
    self_server_port env = None ∧
    self_server_process env = None ∧
    self_client env = None.
Proof.
  apply (default_environment_constructs (Demo.host 0) (Demo.imported 0)
           [CallCarlaEnv None; CallInitServer 0%nat]).
  - apply demo_import_ok.
  - intros server_map _. reflexivity.
Defined.

(** ** Missing keys *)

Lemma key_error_ok_getitem {A} config key w x w1 :
  key ∈ read_keys →
  lift (dict_getitem config key) w = (Err x, w1) →
  key_error_ok (A:=A) config (Err x, w1).
Proof.
  intros Hkey [Heq _]%lift_inv. unfold dict_getitem in Heq.
  destruct (config !! key) eqn:Hk; [discriminate|].
  injection Heq as ->. by split.
Qed.

Lemma read_keys_spec key :
  key ∈ read_keys ↔
  key = "server_map"%string ∨ key = "enable_planner"%string ∨
  key = "use_depth_camera"%string ∨ key = "y_res"%string ∨
  key = "x_res"%string ∨ key = "framestack"%string.
Proof.
  unfold read_keys. rewrite !elem_of_cons, elem_of_nil. naive_solver.
Qed.

(** The shape expression of either branch: three lookups and a product. *)
Lemma key_error_ok_shape config (factor low high : Z) w :
  key_error_ok config
    ((let* y_res := lift (dict_getitem config "y_res") in
      let* x_res := lift (dict_getitem config "x_res") in
      let* framestack := lift (dict_getitem config "framestack") in
      let* channels := lift (py_int_mul factor framestack) in
      ret (Box low high [y_res; x_res; channels] float32)) w).
Proof.
  apply bind_cases;
    [intros x w1; apply key_error_ok_getitem, read_keys_spec; tauto|].
  intros y ? [_ ->]%lift_inv.
  apply bind_cases;
    [intros x w1; apply key_error_ok_getitem, read_keys_spec; tauto|].
  intros x ? [_ ->]%lift_inv.
  apply bind_cases;
    [intros ex w1; apply key_error_ok_getitem, read_keys_spec; tauto|].
  intros fs ? [_ ->]%lift_inv.
  apply bind_cases; [|done].
  intros ex w1 [Heq _]%lift_inv. by destruct fs; inversion Heq.
Qed.

(** X11.  In the imported module, when the planner's constructor raises
    no [KeyError] of its own, a [KeyError] out of [__init__] always names
    one of the six keys [__init__] reads, and that key is missing from
    the configuration passed in. *)
Theorem init_KeyError_names_missing_key h w0 ops config k :
  import_module h = Ok w0 →
  (∀ c k', h_planner h c ≠ Some (KeyError k')) →
  (__init__ config (run_ops ops w0)).1 = Err (KeyError k) →
  k ∈ read_keys ∧ config !! k = None.
Proof.
  intros Himp Hplanner Herr.
  set (w := run_ops ops w0) in *.
  assert (Hh : w_host w = h).
  { unfold w. rewrite run_ops_host.
    by destruct (import_inv _ _ Himp) as (_ & -> & _). }
  pose proof (seed_after_import h w0 ops Himp) as Hseed. fold w in Hseed.
  assert (Hgoal : key_error_ok config (__init__ config w)).
  { unfold __init__.
    apply bind_cases;
      [intros x w1; apply key_error_ok_getitem, read_keys_spec; tauto|].
    intros sm ? [_ ->]%lift_inv.
    apply bind_cases.
    { intros x w1 [Heq _]%lift_inv. by destruct sm; inversion Heq. }
    intros city_name ? [_ ->]%lift_inv.
    apply bind_cases;
      [intros x w1; apply key_error_ok_getitem, read_keys_spec; tauto|].
    intros ep ? [_ ->]%lift_inv.
    assert (Hp : ∀ x w1,
              (if truthy ep
               then let* p := Planner city_name in ret (Some p)
               else ret None) w = (x, w1) →
              w_glob w1 = w_glob w ∧ ∀ k', x ≠ Err (KeyError k')).
    { intros x w1. destruct (truthy ep).
      - rewrite bind_run. unfold Planner at 1. rewrite bind_run.
        unfold emit at 1. cbv beta iota.
        change (w_host (with_trace (w_trace w ++ [EvPlanner city_name]) w))
          with (w_host w). rewrite Hh.
        destruct (h_planner h city_name) as [ex|] eqn:Hpl;
          intros [= <- <-]; (split; [done|]); intros k' Heq; [|done].
        injection Heq as ->. by destruct (Hplanner city_name k').
      - by intros [= <- <-]. }
    apply bind_cases.
    { intros x w1 Hrun. apply Hp in Hrun as (_ & Hne).
      unfold key_error_ok. simpl. destruct x; try done.
      by destruct (Hne key). }
    intros planner w1 Hrun. apply Hp in Hrun as (Hg & _).
    apply bind_cases;
      [intros x w2; apply key_error_ok_getitem, read_keys_spec; tauto|].
    intros d ? [_ ->]%lift_inv.
    apply bind_cases.
    { intros x w2 Hrun.
      assert (Hshape := λ f lo hi, key_error_ok_shape config f lo hi w1).
      destruct (truthy d);
        [specialize (Hshape 1 (-1) 1) | specialize (Hshape 3 0 255)];
        rewrite Hrun in Hshape; exact Hshape. }
    intros image w2 Hrun.
    assert (w_glob w2 = w_glob w) as Hg2.
    { rewrite <- Hg.
      destruct (truthy d);
        unfold bind, lift, ret in Hrun;
        destruct (dict_getitem config "y_res");
        destruct (dict_getitem config "x_res");
        destruct (dict_getitem config "framestack");
        try destruct (py_int_mul _ _); by injection Hrun as _ <-. }
    apply bind_cases; [by intros ? ? [= ]|].
    intros glob ? [= <- <-].
    apply bind_cases; [|done].
    intros x w3 [Heq _]%lift_inv. unfold dict_getitem in Heq.
    rewrite Hg2, Hseed in Heq. discriminate Heq. }
  unfold key_error_ok in Hgoal. rewrite Herr in Hgoal. exact Hgoal.
Qed.

Lemma init_KeyError_names_missing_key_witness :
  let config := delete "x_res"%string (ENV_CONFIG (w_glob (Demo.imported 0))) in
  "x_res"%string ∈ read_keys ∧ config !! "x_res"%string = None.
Proof.
  intros config.
  apply (init_KeyError_names_missing_key (Demo.host 0) (Demo.imported 0) []
           config "x_res").
  - apply demo_import_ok.
  - intros c k'. discriminate.
  - vm_compute. reflexivity.
Defined.

(** ** The command tables when codes coincide *)

Lemma size_list_to_set_le (l : list Z) :
  (size (list_to_set l : gset Z) ≤ length l)%nat.
Proof.
  induction l as [|x l IH].
  - rewrite list_to_set_nil, size_empty. done.
  - rewrite list_to_set_cons. simpl.
    destruct (decide (x ∈ (list_to_set l : gset Z))) as [Hin|Hnin].
    + replace ({[x]} ∪ list_to_set l : gset Z) with (list_to_set l : gset Z)
        by set_solver. lia.
    + rewrite size_union by set_solver. rewrite size_singleton. lia.
Qed.

Lemma size_list_to_set_NoDup (l : list Z) :
  size (list_to_set l : gset Z) = length l → NoDup l.
Proof.
  induction l as [|x l IH]; intros Hsize.
  - constructor.
  - rewrite list_to_set_cons in Hsize. simpl in Hsize.
    destruct (decide (x ∈ (list_to_set l : gset Z))) as [Hin|Hnin].
    + replace ({[x]} ∪ list_to_set l : gset Z) with (list_to_set l : gset Z)
        in Hsize by set_solver.
      pose proof (size_list_to_set_le l). lia.
    + rewrite size_union in Hsize by set_solver.
      rewrite size_singleton in Hsize.
      constructor; [by rewrite elem_of_list_to_set in Hnin|].
      apply IH. lia.
Qed.

Lemma commands_enum_dom pc :
  dom (commands_enum_display pc) = list_to_set (planner_codes pc).
Proof.
  unfold commands_enum_display, dict_display, planner_codes. simpl.
  rewrite !dom_insert_L, dom_empty_L. set_solver.
Qed.

Lemma commands_enum_last pc :
  commands_enum_display pc !! LANE_FOLLOW pc = Some "LANE_FOLLOW"%string.
Proof.
  unfold commands_enum_display, dict_display. simpl. apply lookup_insert_eq.
Qed.

(** X12.  [COMMANDS_ENUM] is a dictionary display keyed by the planner's
    codes, so it has as many entries as there are different codes.  Its
    names all have a [COMMAND_ORDINAL] index below [len(COMMANDS_ENUM)],
    the size of the [Discrete] command space, exactly when the five codes
    are distinct: if two codes coincide the display has fewer than five
    entries and the index 4 of ["LANE_FOLLOW"] lies outside the space. *)
Theorem ordinals_fit_iff_codes_distinct h w0 :
  import_module h = Ok w0 →
  let enum := COMMANDS_ENUM (w_glob w0) in
  let ordinal := COMMAND_ORDINAL (w_glob w0) in
  let codes := planner_codes (h_planner_consts h) in
  size enum = size (list_to_set codes : gset Z) ∧
  (size enum ≤ 5)%nat ∧
  ((∀ k name, enum !! k = Some name →
      ∃ i, ordinal !! name = Some i ∧ 0 ≤ i < Z.of_nat (size enum))
   ↔ NoDup codes) ∧
  (¬ NoDup codes →
   ∃ k, enum !! k = Some "LANE_FOLLOW"%string ∧
        ordinal !! "LANE_FOLLOW"%string = Some 4 ∧
        Z.of_nat (size enum) ≤ 4).
Proof.
  intros Himp enum ordinal codes.
  destruct (import_inv _ _ Himp) as (_ & _ & _ & Henum & Hord & _).
  unfold enum, ordinal, codes. rewrite Henum, Hord.
  clear enum ordinal codes Henum Hord.
  set (pc := h_planner_consts h).
  pose proof command_ordinal_entries as (O0 & O1 & O2 & O3 & O4).
  assert (Hsize : size (commands_enum_display pc)
                  = size (list_to_set (planner_codes pc) : gset Z)).
  { rewrite <- commands_enum_dom. symmetry. apply size_dom. }
  pose proof (size_list_to_set_le (planner_codes pc)) as Hle.
  change (length (planner_codes pc)) with 5%nat in Hle.
  assert (Hsmall : ¬ NoDup (planner_codes pc) →
            Z.of_nat (size (commands_enum_display pc)) ≤ 4).
  { intros Hdup.
    destruct (decide (size (commands_enum_display pc) = 5%nat)) as [H5|]; [|lia].
    destruct Hdup. apply size_list_to_set_NoDup. by rewrite <- Hsize. }
  split; [exact Hsize|]. split; [lia|]. split; [split|].
  - intros Hfit.
    destruct (decide (NoDup (planner_codes pc))) as [|Hdup]; [done|].
    destruct (Hfit _ _ (commands_enum_last pc)) as (i & Hi & Hrange).
    rewrite O4 in Hi. injection Hi as <-.
    specialize (Hsmall Hdup). lia.
  - intros Hnd k name Hk.
    rewrite (commands_enum_size pc Hnd).
    destruct (commands_enum_lookup pc k name Hk)
      as [[_ ->]|[[_ ->]|[[_ ->]|[[_ ->]|[_ ->]]]]];
      eexists; (split; [eassumption|simpl; lia]).
  - intros Hdup. exists (LANE_FOLLOW pc).
    split; [apply commands_enum_last|]. split; [exact O4|].
    by apply Hsmall.
Qed.

Lemma ordinals_fit_iff_codes_distinct_witness :
  let enum := COMMANDS_ENUM (w_glob (Demo.imported 0)) in
  let ordinal := COMMAND_ORDINAL (w_glob (Demo.imported 0)) in
  let codes := planner_codes (h_planner_consts (Demo.host 0)) in
  size enum = size (list_to_set codes : gset Z) ∧
  (size enum ≤ 5)%nat ∧
  ((∀ k name, enum !! k = Some name →
      ∃ i, ordinal !! name = Some i ∧ 0 ≤ i < Z.of_nat (size enum))
   ↔ NoDup codes) ∧
  (¬ NoDup codes →
   ∃ k, enum !! k = Some "LANE_FOLLOW"%string ∧
        ordinal !! "LANE_FOLLOW"%string = Some 4 ∧
        Z.of_nat (size enum) ≤ 4).
Proof.
  apply (ordinals_fit_iff_codes_distinct (Demo.host 0) (Demo.imported 0)).
  apply demo_import_ok.
Defined.

(** ** What stays of an environment *)

Section Keeps.
Context (R : World → World → Prop).
Context (R_refl : ∀ w, R w w).
Context (R_trans : ∀ w1 w2 w3, R w1 w2 → R w2 w3 → R w1 w3).

Lemma keeps_ret {A} (a : A) : keeps R (ret a).
Proof. intros w. apply R_refl. Qed.

Lemma keeps_lift {A} (r : Res A) : keeps R (lift r).
Proof. intros w. apply R_refl. Qed.

Lemma keeps_bind {A B} (c : M A) (k : A → M B) :
  keeps R c → (∀ a, keeps R (k a)) → keeps R (bind c k).
Proof.
  intros Hc Hk w. rewrite bind_run. specialize (Hc w).
  destruct (c w) as [[a|e] w1]; simpl in *; [|done].
  eapply R_trans; [exact Hc | apply Hk].
Qed.

Lemma keeps_try_except {A} (body : M A) handler :
  keeps R body → (∀ e, keeps R (handler e)) →
  keeps R (try_except body handler).
Proof.
  intros Hb Hh w. unfold try_except. specialize (Hb w).
  destruct (body w) as [[a|e] w1]; simpl in *; [done|].
  destruct (is_Exception e); [|done].
  eapply R_trans; [exact Hb | apply Hh].
Qed.

Lemma keeps_for_each {A} (xs : list A) (body : A → M unit) :
  (∀ x, keeps R (body x)) → keeps R (for_each xs body).
Proof.
  intros Hb. induction xs as [|x xs IH]; simpl.
  - apply keeps_ret.
  - apply keeps_bind; [apply Hb | intros _; exact IH].
Qed.

End Keeps.

Lemma same_but_server_refl e : same_but_server e e.
Proof. reflexivity. Qed.

Lemma same_but_server_trans e1 e2 e3 :
  same_but_server e1 e2 → same_but_server e2 e3 → same_but_server e1 e3.
Proof. unfold same_but_server. congruence. Qed.

Lemma heap_stable_refl w : heap_stable w w.
Proof. intros r e He. exists e. split; [done|apply same_but_server_refl]. Qed.

Lemma heap_stable_trans w1 w2 w3 :
  heap_stable w1 w2 → heap_stable w2 w3 → heap_stable w1 w3.
Proof.
  intros H12 H23 r e He.
  destruct (H12 r e He) as (e2 & He2 & Hs2).
  destruct (H23 r e2 He2) as (e3 & He3 & Hs3).
  exists e3. split; [done|]. by eapply same_but_server_trans.
Qed.

Lemma heap_stable_same w w' : w_heap w' = w_heap w → heap_stable w w'.
Proof.
  intros Hheap r e He. exists e. rewrite Hheap.
  split; [done|apply same_but_server_refl].
Qed.

Lemma keeps_heap_same {A} (c : M A) :
  (∀ w, w_heap (c w).2 = w_heap w) → keeps heap_stable c.
Proof. intros Hc w. apply heap_stable_same, Hc. Qed.

Lemma keeps_heap_set_attr self upd :
  (∀ e, same_but_server e (upd e)) →
  keeps heap_stable (set_attr self upd).
Proof.
  intros Hupd w. unfold set_attr.
  destruct (w_heap w !! self) as [e0|] eqn:He0; [|apply heap_stable_refl].
  intros r e He. simpl.
  destruct (decide (r = self)) as [->|Hne].
  - exists (upd e0). rewrite He0 in He. injection He as <-.
    split; [|apply Hupd].
    apply list_lookup_insert_eq. eapply lookup_lt_Some; eauto.
  - exists e. rewrite list_lookup_insert_ne by done.
    split; [done|apply same_but_server_refl].
Qed.

Lemma keeps_heap_alloc e : keeps heap_stable (alloc e).
Proof.
  intros w r e0 He0. exists e0. simpl.
  split; [by apply lookup_app_l_Some|apply same_but_server_refl].
Qed.

Lemma keeps_heap_cleanup : keeps heap_stable cleanup.
Proof.
  unfold cleanup.
  apply keeps_bind; [apply heap_stable_trans|by apply keeps_heap_same|].
  intros shown.
  apply keeps_bind; [apply heap_stable_trans|by apply keeps_heap_same|].
  intros _.
  apply keeps_bind; [apply heap_stable_trans|by apply keeps_heap_same|].
  intros live.
  apply keeps_for_each;
    [apply heap_stable_refl | apply heap_stable_trans |].
  intros g. apply keeps_heap_same. intros w. unfold killpg.
  by destruct (group_exists w g).
Qed.

Lemma keeps_heap_CarlaEnv_call config :
  keeps heap_stable (CarlaEnv_call config).
Proof.
  unfold CarlaEnv_call.
  apply keeps_bind; [apply heap_stable_trans|by apply keeps_heap_same|].
  intros glob.
  apply keeps_bind; [apply heap_stable_trans| |intros e; apply keeps_heap_alloc].
  apply keeps_heap_same. apply init_keeps_heap.
Qed.

Lemma keeps_heap_connect_loop self indices :
  keeps heap_stable (connect_loop self indices).
Proof.
  induction indices as [|i rest IH]; simpl.
  - apply keeps_ret, heap_stable_refl.
  - apply keeps_bind; [apply heap_stable_trans| |].
    + apply keeps_try_except; [apply heap_stable_trans| |].
      * apply keeps_bind; [apply heap_stable_trans| |].
        { apply keeps_heap_same. intros w. unfold get_attr.
          by destruct (w_heap w !! self). }
        intros port.
        apply keeps_bind; [apply heap_stable_trans| |].
        { apply keeps_heap_same. intros w. unfold CarlaClient.
          rewrite bind_run. simpl.
          by destruct (h_client (w_host w) (w_nconn w)). }
        intros c.
        apply keeps_bind;
          [apply heap_stable_trans | by apply keeps_heap_set_attr |].
        intros _.
        apply keeps_bind; [apply heap_stable_trans| |].
        { apply keeps_heap_same. intros w. unfold client_connect.
          rewrite bind_run. simpl.
          by destruct (h_client (w_host w) (w_nconn w)). }
        intros v. apply keeps_ret, heap_stable_refl.
      * intros e.
        apply keeps_bind;
          [apply heap_stable_trans | by apply keeps_heap_same |].
        intros _.
        apply keeps_bind;
          [apply heap_stable_trans | by apply keeps_heap_same |].
        intros _. apply keeps_ret, heap_stable_refl.
    + intros [v|]; [apply keeps_ret, heap_stable_refl | exact IH].
Qed.

Lemma keeps_heap_init_server self : keeps heap_stable (init_server self).
Proof.
  unfold init_server.
  apply keeps_bind; [apply heap_stable_trans|by apply keeps_heap_same|].
  intros _.
  apply keeps_bind; [apply heap_stable_trans|by apply keeps_heap_same|].
  intros port.
  apply keeps_bind;
    [apply heap_stable_trans | by apply keeps_heap_set_attr |].
  intros _.
  apply keeps_bind; [apply heap_stable_trans|by apply keeps_heap_same|].
  intros glob.
  apply keeps_bind; [apply heap_stable_trans| |].
  { apply keeps_heap_same. intros w. unfold get_attr.
    by destruct (w_heap w !! self). }
  intros config.
  apply keeps_bind; [apply heap_stable_trans|by apply keeps_heap_same|].
  intros server_map.
  apply keeps_bind; [apply heap_stable_trans| |].
  { apply keeps_heap_same. intros w. unfold get_attr.
    by destruct (w_heap w !! self). }
  intros server_port.
  apply keeps_bind; [apply heap_stable_trans| |].
  { apply keeps_heap_same. intros w. unfold Popen.
    rewrite bind_run. unfold lift at 1.
    destruct (py_args _) as [argv|ex]; [|done].
    unfold Popen_setsid. by destruct (h_popen (w_host w) (w_nspawn w)). }
  intros pid.
  apply keeps_bind;
    [apply heap_stable_trans | by apply keeps_heap_set_attr |].
  intros _.
  apply keeps_bind; [apply heap_stable_trans| |].
  { apply keeps_heap_same. intros w. unfold get_attr.
    by destruct (w_heap w !! self). }
  intros process.
  apply keeps_bind; [apply heap_stable_trans| |].
  { apply keeps_heap_same. intros w. unfold getpgid.
    by destruct (w_procs w !! _). }
  intros pgid.
  apply keeps_bind; [apply heap_stable_trans|by apply keeps_heap_same|].
  intros _.
  apply keeps_bind; [apply heap_stable_trans| |].
  { apply keeps_heap_same. intros w. unfold lookup_global.
    by destruct (injected (w_glob w) !! _). }
  intros retries.
  apply keeps_bind; [apply heap_stable_trans|by apply keeps_heap_same|].
  intros indices. apply keeps_heap_connect_loop.
Qed.

Lemma keeps_heap_run_exit_hooks : keeps heap_stable run_exit_hooks.
Proof.
  unfold run_exit_hooks.
  apply keeps_bind; [apply heap_stable_trans|by apply keeps_heap_same|].
  intros glob.
  apply keeps_for_each;
    [apply heap_stable_refl | apply heap_stable_trans |].
  intros []. apply keeps_heap_cleanup.
Qed.

Lemma run_ops_heap_stable ops : ∀ w, heap_stable w (run_ops ops w).
Proof.
  induction ops as [|o ops IH]; intros w; [apply heap_stable_refl|].
  simpl. eapply heap_stable_trans; [|apply IH].
  destruct o as [config|self| |]; simpl.
  - apply keeps_heap_CarlaEnv_call.
  - apply keeps_heap_init_server.
  - apply keeps_heap_cleanup.
  - apply keeps_heap_run_exit_hooks.
Qed.

(** X13.  Once constructed, an environment keeps what its constructor
    gave it.  Whatever operations of the module follow, the reference
    still leads to the object, and its configuration, city, planner,
    observation space, spec id, seed and episode attributes are those of
    the construction: only [server_port], [server_process] and [client]
    are ever assigned again. *)
Theorem environments_keep_their_construction ops w r e :
  w_heap w !! r = Some e →
  ∃ e',
    w_heap (run_ops ops w) !! r = Some e' ∧
    self_config e' = self_config e ∧
    self_city e' = self_city e ∧
    self_planner e' = self_planner e ∧
    self_observation_space e' = self_observation_space e ∧
    self__spec_id e' = self__spec_id e ∧
    self__seed e' = self__seed e ∧
    self_num_steps e' = self_num_steps e ∧
    self_total_reward e' = self_total_reward e ∧
    self_last_obs e' = self_last_obs e.
Proof.
  intros He.
  destruct (run_ops_heap_stable ops w r e He) as (e' & He' & Hsame).
  exists e'. split; [exact He'|].
  unfold same_but_server in Hsame.
  repeat split.
  - exact (f_equal self_config Hsame).
  - exact (f_equal self_city Hsame).
  - exact (f_equal self_planner Hsame).
  - exact (f_equal self_observation_space Hsame).
  - exact (f_equal self__spec_id Hsame).
  - exact (f_equal self__seed Hsame).
  - exact (f_equal self_num_steps Hsame).
  - exact (f_equal self_total_reward Hsame).
  - exact (f_equal self_last_obs Hsame).
Qed.

Lemma environments_keep_their_construction_witness :
  let w := Demo.world_retries 1 3 in
  let ops := [CallInitServer 0%nat; CallCarlaEnv None; CallCleanup;
              CallInitServer 0%nat; RunExitHooks] in
  ∃ e e',
    w_heap w !! 0%nat = Some e ∧
    w_heap (run_ops ops w) !! 0%nat = Some e' ∧
    self_config e' = self_config e ∧
    self_city e' = self_city e ∧
    self_planner e' = self_planner e ∧
    self_observation_space e' = self_observation_space e ∧
    self__spec_id e' = self__spec_id e ∧
    self__seed e' = self__seed e ∧
    self_num_steps e' = self_num_steps e ∧
    self_total_reward e' = self_total_reward e ∧
    self_last_obs e' = self_last_obs e.
Proof.
  intros w ops.
  destruct (w_heap w !! 0%nat) as [e|] eqn:He.
  - exists e.
    destruct (environments_keep_their_construction ops w 0%nat e He)
      as (e' & H).
    exists e'. split; [reflexivity|exact H].
  - exfalso.
    assert (Hlen : length (w_heap w) = 1%nat) by (vm_compute; reflexivity).
    apply lookup_ge_None in He. lia.
Defined.

(** ** Bounds that leave nothing to try *)

(** X14.  Let the simulator be started.  When [RETRIES_ON_ERROR] is bound
    to zero, to a negative integer or to [False], [init_server] makes no
    connection attempt and returns [None]; when it is bound to a value
    that is no integer, [range] raises [TypeError].  In both cases the
    simulator has already been started and its group is registered, and
    the call has done nothing after that. *)
Theorem init_server_with_nothing_to_try self w server_map pid v :
  server_map_of self w = Some (VStr server_map) →
  h_popen (w_host w) (w_nspawn w) = Ok pid →
  retries_bound w = Some v →
  empty_bound v || bad_bound v = true →
  (init_server self w).1 = (if bad_bound v then Err TypeError else Ok VNone) ∧
  new_events w (init_server self w).2 =
    [EvPrintInit;
     EvPopen [SERVER_BINARY (w_glob w); server_map; "-windowed"; "-ResX=400";
              "-ResY=300"; "-carla-server";
              "-carla-world-port=" +:+ pretty (drawn_port w)]%string
             true DevNull (Ok pid);
     EvRegistryAdd pid] ∧
  pid ∈ live_carla_processes (init_server self w).2.
Proof.
  intros Hmap Hpopen Hv Hedge.
  destruct (init_server_spawned self w server_map pid Hmap Hpopen)
    as (e & He & Hrun).
  set (W := after_spawn self e server_map pid w) in *.
  assert (Hphase : connect_phase self W =
            (if bad_bound v then Err TypeError else Ok VNone, W)).
  { unfold connect_phase. rewrite bind_run. unfold lookup_global at 1.
    change (injected (w_glob W) !! "RETRIES_ON_ERROR"%string)
      with (retries_bound w). rewrite Hv.
    rewrite bind_run. unfold lift at 1.
    destruct v as [|b|n|s|l|d]; simpl in *; try done.
    - destruct b; [done|]. reflexivity.
    - rewrite orb_false_r in Hedge. apply Z.leb_le in Hedge.
      replace (Z.to_nat n) with 0%nat by lia. reflexivity. }
  rewrite Hrun, Hphase. cbn [fst snd].
  split; [done|]. split.
  - apply new_events_app. exact (after_spawn_trace self e server_map pid w).
  - unfold W. simpl. set_solver.
Qed.

Lemma init_server_with_nothing_to_try_witness :
  let w := Demo.world_retries 0 0 in
  (init_server 0%nat w).1
    = (if bad_bound (VInt 0) then Err TypeError else Ok VNone) ∧
  new_events w (init_server 0%nat w).2 =
    [EvPrintInit;
     EvPopen [SERVER_BINARY (w_glob w); "/Game/Maps/Town02"; "-windowed";
              "-ResX=400"; "-ResY=300"; "-carla-server";
              "-carla-world-port=" +:+ pretty (drawn_port w)]%string
             true DevNull (Ok 4242);
     EvRegistryAdd 4242] ∧
  4242 ∈ live_carla_processes (init_server 0%nat w).2.
Proof.
  intros w.
  apply (init_server_with_nothing_to_try 0%nat w "/Game/Maps/Town02" 4242
           (VInt 0)).
  - vm_compute. reflexivity.
  - vm_compute. reflexivity.
  - vm_compute. reflexivity.
  - reflexivity.
Defined.

(** ** The client after a failed connection *)

Lemma client_set_has_port self port w :
  client_set self port w → has_port self port w.
Proof. intros (e & He & Hp & _). by exists e. Qed.

Lemma client_set_connect_called self port e w :
  w_heap w !! self = Some e → self_server_port e = port →
  client_set self port (connect_called self e w).
Proof.
  intros He Hp.
  exists (with_client (Some {| cl_host := "localhost"; cl_port := port |}) e).
  simpl. rewrite Hp. split; [|done].
  apply list_lookup_insert_eq. eapply lookup_lt_Some; eauto.
Qed.

Lemma connect_loop_sets_client self port indices : ∀ w,
  has_port self port w →
  ∃ evs,
    w_trace (connect_loop self indices w).2 = w_trace w ++ evs ∧
    (client_set self port w ∨ In EvConnect evs →
     client_set self port (connect_loop self indices w).2).
Proof.
  induction indices as [|i rest IH]; intros w Hport.
  - exists []. simpl. rewrite app_nil_r. split; [done|]. by intros [?|[]].
  - destruct Hport as (e & He & Hp).
    rewrite (connect_loop_cons _ _ _ _ _ He).
    destruct (h_client (w_host w) (w_nconn w)) as [ex|ex|v] eqn:Hout.
    + cbv zeta. destruct (is_Exception ex).
      * set (w1 := handled ex i (with_nconn (S (w_nconn w))
                     (ctor_called (self_server_port e) w))).
        destruct (IH w1) as (evs & Htr & Hset).
        { apply has_port_handled. rewrite <- Hp. apply has_port_ctor.
          by exists e. }
        exists ([EvCarlaClient "localhost" (self_server_port e);
                 EvPrintConnErr ex i; EvSleep 2] ++ evs).
        split; [rewrite Htr; simpl; by rewrite <- !app_assoc|].
        intros [Hcl|Hin]; apply Hset.
        -- left. destruct Hcl as (e0 & He0 & Hp0 & Hc0). by exists e0.
        -- right. simpl in Hin.
           destruct Hin as [?|[?|[?|Hin]]]; try discriminate. exact Hin.
      * exists [EvCarlaClient "localhost" (self_server_port e)].
        split; [done|]. intros [Hcl|Hin].
        -- destruct Hcl as (e0 & He0 & Hp0 & Hc0). by exists e0.
        -- simpl in Hin. destruct Hin as [?|[]]. discriminate.
    + cbv zeta. destruct (is_Exception ex).
      * destruct (IH (handled ex i (connect_called self e w)))
          as (evs & Htr & Hset).
        { apply has_port_handled. by apply has_port_connect. }
        exists ([EvCarlaClient "localhost" (self_server_port e); EvConnect;
                 EvPrintConnErr ex i; EvSleep 2] ++ evs).
        split; [rewrite Htr; simpl; by rewrite <- !app_assoc|].
        intros _. apply Hset. left.
        destruct (client_set_connect_called self port e w He Hp)
          as (e0 & He0 & Hp0 & Hc0). by exists e0.
      * exists [EvCarlaClient "localhost" (self_server_port e); EvConnect].
        split; [simpl; by rewrite <- app_assoc|].
        intros _. by apply client_set_connect_called.
    + exists [EvCarlaClient "localhost" (self_server_port e); EvConnect].
      split; [simpl; by rewrite <- app_assoc|].
      intros _. by apply client_set_connect_called.
Qed.

Lemma connect_phase_run self w :
  connect_phase self w =
  match retries_bound w with
  | None => (Err (NameError "RETRIES_ON_ERROR"), w)
  | Some v =>
      match py_range v with
      | Ok indices => connect_loop self indices w
      | Err ex => (Err ex, w)
      end
  end.
Proof.
  unfold connect_phase, retries_bound.
  rewrite bind_run. unfold lookup_global at 1.
  destruct (injected (w_glob w) !! "RETRIES_ON_ERROR"%string) as [v|];
    [|done].
  rewrite bind_run. unfold lift at 1.
  by destruct (py_range v).
Qed.

Lemma connect_phase_sets_client self port w :
  has_port self port w →
  ∃ evs,
    w_trace (connect_phase self w).2 = w_trace w ++ evs ∧
    (client_set self port w ∨ In EvConnect evs →
     client_set self port (connect_phase self w).2).
Proof.
  intros Hport. rewrite connect_phase_run.
  destruct (retries_bound w) as [v|].
  2:{ exists []. simpl. rewrite app_nil_r. split; [done|]. by intros [?|[]]. }
  destruct (py_range v) as [indices|ex].
  2:{ exists []. simpl. rewrite app_nil_r. split; [done|]. by intros [?|[]]. }
  by apply connect_loop_sets_client.
Qed.

(** X15.  [self.client] is assigned before [connect()] is called and is
    never reset.  So if [connect()] has been called at least once during
    a call of [init_server], then at the end of the call, whether it
    returned the value of [connect()], returned [None] after the last
    failure or raised, [self.client] holds a client for ["localhost"] and
    the port of the call: a connection that failed leaves its client
    behind. *)
Theorem failed_connection_leaves_client self w :
  In EvConnect (new_events w (init_server self w).2) →
  ∃ e', w_heap (init_server self w).2 !! self = Some e' ∧
        self_server_port e' = Some (drawn_port w) ∧
        self_client e' = Some {| cl_host := "localhost";
                                 cl_port := Some (drawn_port w) |}.
Proof.
  intros Hin.
  destruct (init_server_outcomes self w)
    as [Hev _ _ | e sm ex _ _ Hev _ _ | e sm pid evs He _ _ Hrun Hev _ _].
  - rewrite Hev in Hin. simpl in Hin. destruct Hin as [Heq|[]]. discriminate.
  - rewrite Hev in Hin. simpl in Hin.
    destruct Hin as [Heq|[Heq|[]]]; discriminate.
  - rewrite Hev in Hin. simpl in Hin.
    destruct Hin as [Heq|[Heq|[Heq|Hin]]]; try discriminate.
    pose proof (after_spawn_has_port self e sm pid w He) as Hport.
    set (W := after_spawn self e sm pid w) in *.
    assert (Htrace : w_trace (init_server self w).2 = w_trace W ++ evs).
    { destruct (init_server_frame self w) as (_ & _ & evs0 & Ht & _ & _).
      rewrite (new_events_app _ _ _ Ht) in Hev. subst evs0.
      rewrite Ht. unfold W. rewrite after_spawn_trace.
      by rewrite <- app_assoc. }
    destruct (connect_phase_sets_client self _ W Hport)
      as (evs' & Ht' & Hset).
    rewrite <- Hrun in Ht', Hset.
    rewrite Ht' in Htrace. apply app_inv_head in Htrace. subst evs'.
    destruct (Hset (or_intror Hin)) as (e' & He' & Hp' & Hc').
    by exists e'.
Qed.

Lemma failed_connection_leaves_client_witness :
  let w := Demo.world_retries 5 2 in
  (init_server 0%nat w).1 = Ok VNone ∧
  ∃ e', w_heap (init_server 0%nat w).2 !! 0%nat = Some e' ∧
        self_server_port e' = Some (drawn_port w) ∧
        self_client e' = Some {| cl_host := "localhost";
                                 cl_port := Some (drawn_port w) |}.
Proof.
  intros w. split; [vm_compute; reflexivity|].
  apply (failed_connection_leaves_client 0%nat w).
  vm_compute. do 4 right. left. reflexivity.
Defined.

(** ** What the handler prints *)

Lemma printed_indices_app evs1 evs2 :
  printed_indices (evs1 ++ evs2)
    = printed_indices evs1 ++ printed_indices evs2.
Proof. apply omap_app. Qed.

Lemma connect_loop_prints self port indices : ∀ w,
  has_port self port w →
  ∃ evs k,
    w_trace (connect_loop self indices w).2 = w_trace w ++ evs ∧
    printed_indices evs = take k indices ∧
    count_ev is_sleep evs = length (printed_indices evs).
Proof.
  induction indices as [|i rest IH]; intros w Hport.
  - exists [], 0%nat. simpl. by rewrite app_nil_r.
  - destruct Hport as (e & He & Hp).
    rewrite (connect_loop_cons _ _ _ _ _ He).
    destruct (h_client (w_host w) (w_nconn w)) as [ex|ex|v] eqn:Hout.
    + cbv zeta. destruct (is_Exception ex).
      * edestruct (IH (handled ex i (with_nconn (S (w_nconn w))
                         (ctor_called (self_server_port e) w))))
          as (evs & k & Htr & Hpr & Hsl);
          [ apply has_port_handled; rewrite <- Hp; apply has_port_ctor;
            by exists e | ].
        exists ([EvCarlaClient "localhost" (self_server_port e);
                 EvPrintConnErr ex i; EvSleep 2] ++ evs), (S k).
        simpl in Htr.
        split; [rewrite Htr; by rewrite <- !app_assoc|].
        rewrite printed_indices_app, count_ev_app, Hpr, Hsl. simpl.
        by rewrite Hpr.
      * exists [EvCarlaClient "localhost" (self_server_port e)], 0%nat.
        done.
    + cbv zeta. destruct (is_Exception ex).
      * edestruct (IH (handled ex i (connect_called self e w)))
          as (evs & k & Htr & Hpr & Hsl);
          [ apply has_port_handled; by apply has_port_connect | ].
        exists ([EvCarlaClient "localhost" (self_server_port e); EvConnect;
                 EvPrintConnErr ex i; EvSleep 2] ++ evs), (S k).
        simpl in Htr.
        split; [rewrite Htr; by rewrite <- !app_assoc|].
        rewrite printed_indices_app, count_ev_app, Hpr, Hsl. simpl.
        by rewrite Hpr.
      * exists [EvCarlaClient "localhost" (self_server_port e); EvConnect],
               0%nat.
        split; [simpl; by rewrite <- app_assoc|]. done.
    + exists [EvCarlaClient "localhost" (self_server_port e); EvConnect],
             0%nat.
      split; [simpl; by rewrite <- app_assoc|]. done.
Qed.

(** X16.  The handler prints the loop index with the exception: with the
    simulator started and [RETRIES_ON_ERROR] bound to [n], the indices
    printed during a call are [0, 1, ..., k-1] in this order, [k] being
    the number of failures that were handled, at most [n]; and the call
    has slept once for each of them. *)
Theorem handler_prints_attempt_indices self w server_map pid n :
  server_map_of self w = Some (VStr server_map) →
  h_popen (w_host w) (w_nspawn w) = Ok pid →
  retries_bound w = Some (VInt n) →
  ∃ k,
    (k ≤ Z.to_nat n)%nat ∧
    printed_indices (new_events w (init_server self w).2)
      = Z.of_nat <$> seq 0 k ∧
    count_ev is_sleep (new_events w (init_server self w).2) = k.
Proof.
  intros Hmap Hpopen Hn.
  destruct (init_server_is_loop self w server_map pid n Hmap Hpopen Hn)
    as (e & He & Hrun & Hport & Hprefix).
  set (W := after_spawn self e server_map pid w) in *.
  set (indices := Z.of_nat <$> seq 0 (Z.to_nat n)) in *.
  destruct (connect_loop_prints self _ indices W Hport)
    as (evs & k & Ht & Hpr & Hsl).
  rewrite <- Hrun in Ht.
  rewrite (Hprefix evs Ht), printed_indices_app, count_ev_app.
  change (printed_indices [EvPrintInit;
            EvPopen (spawn_argv (w_glob w) server_map (drawn_port w))
                    true DevNull (Ok pid);
            EvRegistryAdd pid]) with (@nil Z).
  rewrite app_nil_l, Hsl, Hpr.
  exists (length (take k indices)).
  assert (Hlen : length indices = Z.to_nat n)
    by (unfold indices; by rewrite length_fmap, length_seq).
  split; [rewrite length_take; lia|].
  split; [|done].
  unfold indices. rewrite <- fmap_take, take_seq, length_fmap, length_seq.
  done.
Qed.

Lemma handler_prints_attempt_indices_witness :
  let w := Demo.world_retries 2 5 in
  ∃ k,
    (k ≤ Z.to_nat 5)%nat ∧
    printed_indices (new_events w (init_server 0%nat w).2)
      = Z.of_nat <$> seq 0 k ∧
    count_ev is_sleep (new_events w (init_server 0%nat w).2) = k.
Proof.
  intros w.
  apply (handler_prints_attempt_indices 0%nat w "/Game/Maps/Town02" 4242 5).
  - vm_compute. reflexivity.
  - vm_compute. reflexivity.
  - vm_compute. reflexivity.
Defined.
